(** * Blurest: the BlurHash decoder, its CSS converter and the <ax-blurest>
    element, embedded from [blurest-wc/src/blurhash.ts] and the element's
    source file.

    Conventions of the embedding.
    - A JavaScript string is the list of its UTF-16 code units ([list N]);
      [lit "..."] writes a literal.
    - Integers that the code only ever uses as integers (string lengths,
      base-83 values, loop counters, pixel dimensions, byte values) are [Z].
    - Every other JavaScript number is an element of an abstract carrier
      [num] (class [Number]), whose instance is IEEE binary64 ([Float64],
      on Rocq's primitive floats). [Math.pow] and [Math.cos], which
      ECMAScript leaves to the implementation, are parameters of the
      instance.
    - [throw] is the [Throw] constructor of [result]; [try]/[catch] is a
      match on it. *)

From Stdlib Require Import ZArith QArith Qround Floats Ascii String DecimalString Lia.
From stdpp Require Import base option list gmap.

Local Open Scope Z_scope.

(* stdpp's solvers clear hypotheses that substitution has already removed. *)
Set Warnings "-clear-no-such-hyp".

(** ** JavaScript values *)

Module JS.

Definition lit (s : string) : list N :=
  List.map N_of_ascii (list_ascii_of_string s).

(** [String(n)] for an integer-valued number [n]. *)
Definition show_Z (z : Z) : list N :=
  lit (NilZero.string_of_int (Z.to_int z)).

(** [s.length] *)
Definition len (s : list N) : Z := Z.of_nat (length s).

(** [s.substring(a, b)] for [0 <= a <= b]: positions are clamped to the
    length of [s]. *)
Definition substring (s : list N) (a b : Z) : list N :=
  take (Z.to_nat (b - a)) (drop (Z.to_nat a) s).

(** [s[i]] as a one-character string, for [0 <= i < s.length]. *)
Definition charAt (s : list N) (i : Z) : list N := substring s i (i + 1).

(** [parts.join(sep)] *)
Fixpoint join (sep : list N) (parts : list (list N)) : list N :=
  match parts with
  | [] => []
  | [p] => p
  | p :: rest => p ++ sep ++ join sep rest
  end.

(** [s.startsWith(p)] and [s.includes(p)] *)
Fixpoint startsWith (p s : list N) : bool :=
  match p, s with
  | [], _ => true
  | c :: p', d :: s' => (c =? d)%N && startsWith p' s'
  | _ :: _, [] => false
  end.

Fixpoint includes (p s : list N) : bool :=
  startsWith p s ||
  match s with
  | [] => false
  | _ :: s' => includes p s'
  end.

(** Thrown values: the class of the error and its [message]. *)
Inductive exn : Type :=
| ValidationError (msg : list N)
| Error (msg : list N)
| RangeError (msg : list N).

Definition message (e : exn) : list N :=
  match e with
  | ValidationError m | Error m | RangeError m => m
  end.

Inductive result (A : Type) : Type :=
| Ok (a : A)
| Throw (e : exn).
Arguments Ok {A} a.
Arguments Throw {A} e.

Definition bind {A B} (r : result A) (k : A -> result B) : result B :=
  match r with
  | Ok a => k a
  | Throw e => Throw e
  end.

(** Runs [f] on the elements from left to right and stops at the first
    throw, as a [for] loop whose body may throw. *)
Fixpoint mapM {A B} (f : A -> result B) (l : list A) : result (list B) :=
  match l with
  | [] => Ok []
  | a :: l' => bind (f a) (fun b => bind (mapM f l') (fun bs => Ok (b :: bs)))
  end.

(** The value of [Math.round]: an integer, [NaN] or an infinity. *)
Inductive jsint : Type :=
| Fin (z : Z)
| NaN
| PosInf
| NegInf.

(** [String(n)] for the value of [Math.round]. *)
Definition show_jsint (n : jsint) : list N :=
  match n with
  | Fin z => show_Z z
  | NaN => lit "NaN"
  | PosInf => lit "Infinity"
  | NegInf => lit "-Infinity"
  end.

(** [JSON.stringify]: [UnicodeEscape] writes [\uXXXX] in lower case. *)
Definition hexDigit (d : N) : N :=
  if (d <? 10)%N then (48 + d)%N else (87 + d)%N.

Definition UnicodeEscape (c : N) : list N :=
  [92; 117; hexDigit (c / 4096 mod 16); hexDigit (c / 256 mod 16);
   hexDigit (c / 16 mod 16); hexDigit (c mod 16)]%N.

Definition isLeadingSurrogate (c : N) : bool := (55296 <=? c)%N && (c <=? 56319)%N.

Definition isTrailingSurrogate (c : N) : bool := (56320 <=? c)%N && (c <=? 57343)%N.

(** The body of [QuoteJSONString]: backspace, tab, line feed, form feed,
    carriage return, the double quote and the backslash have two-character
    escapes; the other control characters and the surrogates without a
    partner are written as [\uXXXX]; everything else stands for itself. *)
Fixpoint quoteCodeUnits (s : list N) : list N :=
  match s with
  | [] => []
  | c :: rest =>
      if (c =? 8)%N then [92; 98]%N ++ quoteCodeUnits rest
      else if (c =? 9)%N then [92; 116]%N ++ quoteCodeUnits rest
      else if (c =? 10)%N then [92; 110]%N ++ quoteCodeUnits rest
      else if (c =? 12)%N then [92; 102]%N ++ quoteCodeUnits rest
      else if (c =? 13)%N then [92; 114]%N ++ quoteCodeUnits rest
      else if (c =? 34)%N then [92; 34]%N ++ quoteCodeUnits rest
      else if (c =? 92)%N then [92; 92]%N ++ quoteCodeUnits rest
      else if (c <? 32)%N then UnicodeEscape c ++ quoteCodeUnits rest
      else if isLeadingSurrogate c then
        match rest with
        | d :: rest' =>
            if isTrailingSurrogate d then c :: d :: quoteCodeUnits rest'
            else UnicodeEscape c ++ quoteCodeUnits rest
        | [] => UnicodeEscape c
        end
      else if isTrailingSurrogate c then UnicodeEscape c ++ quoteCodeUnits rest
      else c :: quoteCodeUnits rest
  end.

Definition QuoteJSONString (value : list N) : list N :=
  [34%N] ++ quoteCodeUnits value ++ [34%N].

(** The end of [SerializeJSONObject] and [SerializeJSONArray] at a
    non-empty [gap]: [partial] holds the serialised members or elements,
    [stepback] is the indentation outside the brackets. *)
Definition serializeJSON (opening closing stepback gap : list N)
    (partial : list (list N)) : list N :=
  match partial with
  | [] => opening ++ closing
  | _ :: _ =>
      let indent := stepback ++ gap in
      let separator := [44; 10]%N ++ indent in
      opening ++ [10%N] ++ indent ++ join separator partial
        ++ [10%N] ++ stepback ++ closing
  end.

(** An object whose property values are all strings. *)
Definition SerializeJSONObject (stepback gap : list N)
    (properties : list (list N * list N)) : list N :=
  serializeJSON (lit "{") (lit "}") stepback gap
    ((fun '(key, value) => QuoteJSONString key ++ lit ":" ++ lit " " ++ QuoteJSONString value)
       <$> properties).

(** An array whose elements are already serialised at the indentation
    [stepback ++ gap]. *)
Definition SerializeJSONArray (stepback gap : list N) (elements : list (list N))
  : list N :=
  serializeJSON (lit "[") (lit "]") stepback gap elements.

End JS.
Import JS.

Notation "x <- r ;; k" := (JS.bind r (fun x => k))
  (at level 100, r at next level, right associativity, only parsing).

(** ** JavaScript numbers *)

Class Number : Type := {
  num : Type;
  (** the number denoted by a numeric literal or held by an integer variable *)
  ofQ : Q -> num;
  num_add : num -> num -> num;
  num_sub : num -> num -> num;
  num_mul : num -> num -> num;
  num_div : num -> num -> num;
  num_ltb : num -> num -> bool;
  num_leb : num -> num -> bool;
  (** [!x]: true of [0], [-0] and [NaN] *)
  falsy : num -> bool;
  Math_abs : num -> num;
  Math_max : num -> num -> num;
  Math_min : num -> num -> num;
  Math_trunc : num -> num;
  Math_round : num -> jsint;
  Math_pow : num -> num -> num;
  Math_cos : num -> num;
  Math_PI : num;
  (** [ToIntegerOrInfinity] with [NaN] and the infinities sent to [0], as
      the typed-array store does before it wraps. *)
  toInteger : num -> Z;
  (** [String(x)] *)
  toString : num -> list N;
  parseFloat : list N -> num;
  (** [parseInt(s, 10)]: an integer or [NaN] *)
  parseInt : list N -> jsint;
  (** whether the engine finds the memory for a typed array of that many
      bytes, asked only above [2 ^ 30] bytes (see [newUint8Array]) *)
  canAllocate : Z -> bool;
}.

Declare Scope num_scope.
Delimit Scope num_scope with num.
Bind Scope num_scope with num.
Infix "+" := num_add : num_scope.
Infix "-" := num_sub : num_scope.
Infix "*" := num_mul : num_scope.
Infix "/" := num_div : num_scope.
Infix "<?" := num_ltb : num_scope.
Infix "<=?" := num_leb : num_scope.

Definition ofZ `{Number} (z : Z) : num := ofQ (inject_Z z).

(** The store [pixels[i] = v] of a [Uint8Array]: [ToUint8]. *)
Definition toUint8 `{Number} (v : num) : Z := toInteger v mod 256.

(** ** [class BlurhashDecoder] *)

Module BlurhashDecoder.
Section Decoder.
Context `{Number}.

Definition BASE83_CHARS : list N :=
  lit "0123456789ABCDEFGHIJKLMNOPQRSTUVWXYZabcdefghijklmnopqrstuvwxyz#$%*+,-.:;=?@[]^_{|}~".

(** [arr.indexOf(c)]: the first index of [c], or [None] for [-1]. *)
Fixpoint indexOf (arr : list N) (c : N) : option Z :=
  match arr with
  | [] => None
  | d :: arr' => if (d =? c)%N then Some 0 else Z.succ <$> indexOf arr' c
  end.

Fixpoint decode83_loop (str : list N) (value : Z) : result Z :=
  match str with
  | [] => Ok value
  | c :: rest =>
      match indexOf BASE83_CHARS c with
      | None => Throw (ValidationError (lit "Invalid base83 character: " ++ [c]))
      | Some digit => decode83_loop rest (value * 83 + digit)
      end
  end.

Definition decode83 (str : list N) : result Z := decode83_loop str 0.

Definition sRGBToLinear (value : Z) : num :=
  let v := (ofZ value / ofZ 255)%num in
  if (v <=? ofQ 0.04045)%num then (v / ofQ 12.92)%num
  else Math_pow ((v + ofQ 0.055) / ofQ 1.055)%num (ofQ 2.4).

Definition linearTosRGB (value : num) : num :=
  let v := Math_max (ofZ 0) (Math_min (ofZ 1) value) in
  if (v <=? ofQ 0.0031308)%num
  then Math_trunc (v * ofQ 12.92 * ofZ 255 + ofQ 0.5)%num
  else Math_trunc ((ofQ 1.055 * Math_pow v (ofZ 1 / ofQ 2.4) - ofQ 0.055) * ofZ 255 + ofQ 0.5)%num.

Definition sign (n : num) : num :=
  if (n <? ofZ 0)%num then ofZ (-1) else ofZ 1.

Definition signPow (val exp : num) : num :=
  (sign val * Math_pow (Math_abs val) exp)%num.

(** [4 + 2 * numX * numY] for the size flag held by the first character *)
Definition expectedLength (sizeFlag : Z) : Z :=
  let numY := sizeFlag / 9 + 1 in
  let numX := sizeFlag mod 9 + 1 in
  4 + 2 * numX * numY.

Definition mismatchMessage (actual expected : Z) : list N :=
  lit "blurhash length mismatch: length is " ++ show_Z actual
    ++ lit " but it should be " ++ show_Z expected.

Definition tooShortMessage : list N :=
  lit "The blurhash string must be at least 6 characters".

Definition validateBlurhash (blurhash : list N) : result unit :=
  if bool_decide (blurhash = []) || (len blurhash <? 6)
  then Throw (ValidationError tooShortMessage)
  else
    sizeFlag <- decode83 (charAt blurhash 0) ;;
    let numY := sizeFlag / 9 + 1 in
    let numX := sizeFlag mod 9 + 1 in
    if negb (len blurhash =? 4 + 2 * numX * numY)
    then Throw (ValidationError (mismatchMessage (len blurhash) (4 + 2 * numX * numY)))
    else Ok tt.

(** [x | 0]: the 32-bit signed integer that the shift and mask operators
    see. *)
Definition toInt32 (z : Z) : Z := (z + 2 ^ 31) mod 2 ^ 32 - 2 ^ 31.

Definition color : Type := num * num * num.

Definition decodeDC (value : Z) : color :=
  let intR := Z.shiftr (toInt32 value) 16 in
  let intG := Z.land (Z.shiftr (toInt32 value) 8) 255 in
  let intB := Z.land (toInt32 value) 255 in
  (sRGBToLinear intR, sRGBToLinear intG, sRGBToLinear intB).

Definition decodeAC (value : Z) (maximumValue : num) : color :=
  let quantR := value / (19 * 19) in
  let quantG := (value / 19) mod 19 in
  let quantB := value mod 19 in
  ((signPow (ofZ (quantR - 9) / ofZ 9) (ofZ 2) * maximumValue)%num,
   (signPow (ofZ (quantG - 9) / ofZ 9) (ofZ 2) * maximumValue)%num,
   (signPow (ofZ (quantB - 9) / ofZ 9) (ofZ 2) * maximumValue)%num).

(** The body of the loop that fills [colors]. *)
Definition decodeColor (blurhash : list N) (maximumValue punch : num) (i : Z)
  : result color :=
  if i =? 0 then
    value <- decode83 (substring blurhash 2 6) ;;
    Ok (decodeDC value)
  else
    value <- decode83 (substring blurhash (4 + i * 2) (6 + i * 2)) ;;
    Ok (decodeAC value (maximumValue * punch)%num).

(** [new Uint8Array(n)] for an integer [n]. [ToIndex] throws a
    [RangeError] for a length that is negative or above [2 ^ 53 - 1]; then
    the buffer is allocated, which throws a [RangeError] when the engine
    does not find the memory. A gibibyte is taken to be always found; above
    it the engine decides. The array is zero-filled. The messages are
    V8's. *)
Definition newUint8Array (n : Z) : result (list Z) :=
  if (n <? 0) || (2 ^ 53 - 1 <? n)
  then Throw (RangeError (lit "Invalid typed array length: " ++ show_Z n))
  else if (n <=? 2 ^ 30) || canAllocate n
  then Ok (replicate (Z.to_nat n) 0)
  else Throw (RangeError (lit "Array buffer allocation failed")).

(** [pixels[i] = v]: a store outside the array is ignored. *)
Definition store (pixels : list Z) (i : Z) (v : Z) : list Z :=
  if i <? 0 then pixels else <[Z.to_nat i := v]> pixels.

(** [colors[k]]; the index is always in range (see [decodeColors_length]),
    the default stands for [undefined]. *)
Definition colorAt (colors : list color) (k : Z) : color :=
  default (ofZ 0, ofZ 0, ofZ 0) (colors !! Z.to_nat k).

(** The two inner loops over [j] and [i]: the linear-light sum at pixel
    [(x, y)]. *)
Definition pixelSum (colors : list color) (numX numY width height x y : Z) : color :=
  foldl (fun acc j =>
    let basisY := Math_cos ((Math_PI * ofZ y * ofZ j) / ofZ height)%num in
    foldl (fun '(r, g, b) i =>
      let basis := (Math_cos ((Math_PI * ofZ x * ofZ i) / ofZ width) * basisY)%num in
      let '(c0, c1, c2) := colorAt colors (i + j * numX) in
      ((r + c0 * basis)%num, (g + c1 * basis)%num, (b + c2 * basis)%num))
      acc (seqZ 0 numX))
    (ofZ 0, ofZ 0, ofZ 0) (seqZ 0 numY).

(** The body of the loop over [x]. *)
Definition writePixel (colors : list color) (numX numY width height y : Z)
    (pixels : list Z) (x : Z) : list Z :=
  let bytesPerRow := width * 4 in
  let '(r, g, b) := pixelSum colors numX numY width height x y in
  let intR := linearTosRGB r in
  let intG := linearTosRGB g in
  let intB := linearTosRGB b in
  let pixels := store pixels (4 * x + 0 + y * bytesPerRow) (toUint8 intR) in
  let pixels := store pixels (4 * x + 1 + y * bytesPerRow) (toUint8 intG) in
  let pixels := store pixels (4 * x + 2 + y * bytesPerRow) (toUint8 intB) in
  store pixels (4 * x + 3 + y * bytesPerRow) 255.

Definition writeRow (colors : list color) (numX numY width height : Z)
    (pixels : list Z) (y : Z) : list Z :=
  foldl (writePixel colors numX numY width height y) pixels (seqZ 0 width).

(** [decode] up to and including the loop that fills [colors]; the result
    is [(numX, numY, colors)]. *)
Definition decodeColors (blurhash : list N) (punch : num)
  : result (Z * Z * list color) :=
  _ <- validateBlurhash blurhash ;;
  let punch := if falsy punch then ofZ 1 else punch in
  sizeFlag <- decode83 (charAt blurhash 0) ;;
  let numY := sizeFlag / 9 + 1 in
  let numX := sizeFlag mod 9 + 1 in
  quantisedMaximumValue <- decode83 (charAt blurhash 1) ;;
  let maximumValue := (ofZ (quantisedMaximumValue + 1) / ofZ 166)%num in
  colors <- mapM (decodeColor blurhash maximumValue punch) (seqZ 0 (numX * numY)) ;;
  Ok (numX, numY, colors).

Definition decode (blurhash : list N) (width height : Z) (punch : num)
  : result (list Z) :=
  decoded <- decodeColors blurhash punch ;;
  let '(numX, numY, colors) := decoded in
  let bytesPerRow := width * 4 in
  pixels <- newUint8Array (bytesPerRow * height) ;;
  Ok (foldl (writeRow colors numX numY width height) pixels (seqZ 0 height)).

(** The object [{ result, errorReason? }]. *)
Record validation : Type := {
  result_ : bool;
  errorReason : option (list N);
}.

Definition isBlurhashValid (blurhash : list N) : validation :=
  match validateBlurhash blurhash with
  | Ok _ => {| result_ := true; errorReason := None |}
  | Throw error => {| result_ := false; errorReason := Some (message error) |}
  end.

End Decoder.
End BlurhashDecoder.

(** ** [class BlurhashCssConverter] and [class BlurhashUtils] *)

Module BlurhashCssConverter.
Section Converter.
Context `{Number}.

Record BlurhashCss : Type := {
  backgroundImage : list N;
  backgroundPosition : list N;
  backgroundRepeat : list N;
  backgroundSize : list N;
  filter : list N;
  transform : list N;
}.

(** An absent optional field is [None]; the dimensions are integers. *)
Record BlurhashOptions : Type := {
  width : Z;
  height : Z;
  blurRadius : option num;
  scaleFactor : option num;
  punch : option num;
}.

Definition getRoundedPercentageOf (part whole : Z) : jsint :=
  if whole =? 0 then Fin 0
  else
    let value := (ofZ part / ofZ whole * ofZ 100)%num in
    Math_round value.

(** [pixelBytes[index]] is read at an index that is never negative here;
    the default stands for [undefined]. *)
Definition getPixel (pixelBytes : list Z) (x y width channelIndex : Z) : result Z :=
  let numberOfChannels := 4 in
  let bytesPerRow := width * numberOfChannels in
  let index := numberOfChannels * x + channelIndex + y * bytesPerRow in
  if Z.of_nat (length pixelBytes) <=? index
  then Throw (Error (lit "Pixel index out of bounds: " ++ show_Z index))
  else Ok (default 0 (pixelBytes !! Z.to_nat index)).

Definition getRgbColor (pixelBytes : list Z) (x y width : Z) : result (Z * Z * Z) :=
  r <- getPixel pixelBytes x y width 0 ;;
  g <- getPixel pixelBytes x y width 1 ;;
  b <- getPixel pixelBytes x y width 2 ;;
  Ok (r, g, b).

Definition blurhashToBytes (hash : list N) (width height : Z) (punch : num)
  : result (list Z) :=
  match BlurhashDecoder.decode hash width height punch with
  | Ok pixels => Ok pixels
  | Throw error => Throw (Error (lit "Failed to decode BlurHash: " ++ message error))
  end.

(** The body of the loop over [x]: the colour stop of one pixel. *)
Definition colorStop (pixelBytes : list Z) (width y x : Z) : result (list N) :=
  rgb <- getRgbColor pixelBytes x y width ;;
  let '(r, g, b) := rgb in
  let startPercent :=
    if x =? 0 then []
    else lit " " ++ show_jsint (getRoundedPercentageOf x width) ++ lit "%" in
  let endPercent :=
    if x =? width - 1 then []
    else lit " " ++ show_jsint (getRoundedPercentageOf (x + 1) width) ++ lit "%" in
  Ok (lit "rgb(" ++ show_Z r ++ lit "," ++ show_Z g ++ lit "," ++ show_Z b ++ lit ")"
        ++ startPercent ++ endPercent).

(** The body of the loop over [y]: the gradient and the position pushed
    for one row. *)
Definition rowOf (pixelBytes : list Z) (width height y : Z)
  : result (list N * list N) :=
  rowLinearGradients <- mapM (colorStop pixelBytes width y) (seqZ 0 width) ;;
  let rowGradient :=
    lit "linear-gradient(90deg," ++ join (lit ",") rowLinearGradients ++ lit ")" in
  let position :=
    if y =? 0 then lit "0 0"
    else lit "0 " ++ show_jsint (getRoundedPercentageOf y (height - 1)) ++ lit "%" in
  Ok (rowGradient, position).

Definition blurhashToCssStruct (hash : list N) (options : BlurhashOptions)
  : result BlurhashCss :=
  let width := width options in
  let height := height options in
  let blurRadius := default (ofZ 24) (blurRadius options) in
  let scaleFactor := default (ofQ 1.2) (scaleFactor options) in
  let punch := default (ofZ 1) (punch options) in
  if bool_decide (hash = [])
  then Throw (Error (lit "Invalid BlurHash: must be a non-empty string"))
  else if (width <=? 0) || (height <=? 0)
  then Throw (Error (lit "Width and height must be positive numbers"))
  else
    pixelBytes <- blurhashToBytes hash width height punch ;;
    let backgroundSize := lit "100% " ++ toString (ofZ 100 / ofZ height)%num ++ lit "%" in
    rows <- mapM (rowOf pixelBytes width height) (seqZ 0 height) ;;
    let linearGradients := rows.*1 in
    let backgroundPositions := rows.*2 in
    Ok {| backgroundImage := join (lit ",") linearGradients;
          backgroundPosition := join (lit ",") backgroundPositions;
          backgroundRepeat := lit "no-repeat";
          backgroundSize := backgroundSize;
          filter := lit "blur(" ++ toString blurRadius ++ lit "px)";
          transform := lit "scale(" ++ toString scaleFactor ++ lit ")" |}.

(** [JSON.stringify(cssStruct, null, 2)], the object standing at the
    indentation [stepback]. *)
Definition stringifyCss (stepback : list N) (cssStruct : BlurhashCss) : list N :=
  SerializeJSONObject stepback (lit "  ")
    [ (lit "backgroundImage", backgroundImage cssStruct);
      (lit "backgroundPosition", backgroundPosition cssStruct);
      (lit "backgroundRepeat", backgroundRepeat cssStruct);
      (lit "backgroundSize", backgroundSize cssStruct);
      (lit "filter", filter cssStruct);
      (lit "transform", transform cssStruct) ].

(** The options object [{ width, height, blurRadius, scaleFactor }] that
    both JSON entry points build: an omitted argument has taken its default
    value, and [punch] is absent. *)
Definition jsonOptions (w h : Z) (blurRadius scaleFactor : option num)
  : BlurhashOptions :=
  {| width := w;
     height := h;
     blurRadius := Some (default (ofZ 24) blurRadius);
     scaleFactor := Some (default (ofQ 1.2) scaleFactor);
     punch := None |}.

Definition blurhashToCss (hash : list N) (width height : Z)
    (blurRadius scaleFactor : option num) : result (list N) :=
  match blurhashToCssStruct hash (jsonOptions width height blurRadius scaleFactor) with
  | Ok cssStruct => Ok (stringifyCss [] cssStruct)
  | Throw error =>
      Throw (Error (lit "Failed to convert BlurHash to CSS: " ++ message error))
  end.

(** The callback of [hashes.map]. *)
Definition processHash (options : BlurhashOptions) (entry : Z * list N)
  : result BlurhashCss :=
  let '(index, hash) := entry in
  match blurhashToCssStruct hash options with
  | Ok cssStruct => Ok cssStruct
  | Throw error =>
      Throw (Error (lit "Failed to process BlurHash at index " ++ show_Z index
                      ++ lit ": " ++ message error))
  end.

(** [hashes] is an array of strings, so the [Array.isArray] guard
    passes. *)
Definition blurhashesToCss (hashes : list (list N)) (width height : Z)
    (blurRadius scaleFactor : option num) : result (list N) :=
  let options := jsonOptions width height blurRadius scaleFactor in
  match mapM (processHash options)
          (zip (seqZ 0 (Z.of_nat (length hashes))) hashes) with
  | Ok cssStructs =>
      Ok (SerializeJSONArray [] (lit "  ") (stringifyCss (lit "  ") <$> cssStructs))
  | Throw error =>
      Throw (Error (lit "Failed to convert BlurHashes to CSS: " ++ message error))
  end.

Definition blurhashToCssObject (hash : list N) (options : BlurhashOptions)
  : result BlurhashCss :=
  blurhashToCssStruct hash options.

End Converter.
End BlurhashCssConverter.

Module BlurhashUtils.
Section Utils.
Context `{Number}.

(** [key.replace(/([A-Z])/g, '-$1').toLowerCase()], for a key of ASCII
    letters. *)
Definition kebabKey (key : list N) : list N :=
  mbind (M := list)
    (fun c : N => if (65 <=? c)%N && (c <=? 90)%N then [45; c + 32]%N else [c]) key.

(** [object[key] = value] on an object seen as its properties, in
    insertion order. *)
Fixpoint setProperty (object : list (list N * list N)) (key value : list N)
  : list (list N * list N) :=
  match object with
  | [] => [(key, value)]
  | (k, v) :: rest =>
      if bool_decide (k = key) then (k, value) :: rest
      else (k, v) :: setProperty rest key value
  end.

(** [applyBlurhashToElement], up to the call of [Object.assign]: the
    result is [kebabCss], the declarations that are handed to
    [element.style]. An error is logged and thrown again. *)
Definition applyBlurhashToElement (hash : list N)
    (options : BlurhashCssConverter.BlurhashOptions)
  : result (list (list N * list N)) :=
  match BlurhashCssConverter.blurhashToCssObject hash options with
  | Ok css =>
      let kebabCss :=
        foldl (fun kebabCss '(key, value) => setProperty kebabCss (kebabKey key) value) []
          [ (lit "backgroundImage", BlurhashCssConverter.backgroundImage css);
            (lit "backgroundPosition", BlurhashCssConverter.backgroundPosition css);
            (lit "backgroundRepeat", BlurhashCssConverter.backgroundRepeat css);
            (lit "backgroundSize", BlurhashCssConverter.backgroundSize css);
            (lit "filter", BlurhashCssConverter.filter css);
            (lit "transform", BlurhashCssConverter.transform css) ] in
      Ok kebabCss
  | Throw error => Throw error
  end.

Definition isValidBlurhash (hash : list N) : bool :=
  let validation := BlurhashDecoder.isBlurhashValid hash in
  BlurhashDecoder.result_ validation.

End Utils.
End BlurhashUtils.

(** ** [class AxBlurest extends HTMLElement]

    The instance fields, and the part of the host that the element's code
    reads or writes: its attributes, the nodes of its shadow tree, the
    timeouts that are armed, the observers that are connected, the image
    requests in flight, the clock, and the effects seen from outside.
    Console output is not modelled. The HTML parser is not modelled either:
    [render] builds the tree that the parser gives for its markup when the
    values of [src], [alt] and [render-width], which the markup holds as
    they are, come back from the parser unchanged and stay where they were
    written ([Lifecycle.plainEvent]). A value of [src] or [alt] with a
    double quote, an ampersand, [<], U+0000, a carriage return or a
    surrogate, and a value of [render-width] with anything but ASCII
    digits, letters and dots, may give another tree or another style sheet,
    which this model does not describe; the statements that read attribute
    values or styles off the tree assume values without them. *)

Module AxBlurest.

(** An element of the shadow tree: its class list and, for the [<img>],
    the [src], [alt] and [data-src] attributes. *)
Record node : Type := Node {
  classList : list (list N);
  srcAttr : list N;
  altAttr : list N;
  dataSrc : option (list N);
}.

(** [root.innerHTML] after [render]: what [querySelector] finds. The
    placeholder layers are absent in fallback mode. *)
Record shadowTree : Type := ShadowTree {
  layerCSS : option (list N);
  backdropLayer : option positive;
  blurhashLayer : option positive;
  imageLayer : option positive;
  errorLayer : option positive;
}.

(** What [img.onload] and [img.onerror] close over. *)
Record request : Type := Request {
  req_imageLayer : positive;
  req_blurhashLayer : option positive;
  req_src : list N;
}.

Inductive effect : Type :=
| Observe (o : positive)
| Disconnect (o : positive)
| SetTimeout (t : positive) (delay : Z)
| ClearTimeout (t : positive)
| Fetch (r : positive) (src : list N)
| DispatchEvent (type : list N) (detailSrc : list N) (bubbles composed : bool).

Record state : Type := State {
  (* instance fields *)
  observer : option positive;
  isInViewport : bool;
  loadingTimer : option positive;
  loadStartTime : option Z;
  isImageLoaded : bool;
  isImageError : bool;
  (* host *)
  attributes : gmap (list N) (list N);
  root : shadowTree;
  nodes : gmap positive node;
  timers : gset positive;
  observers : gset positive;
  requests : gmap positive request;
  next : positive;
  clock : Z;
  log : list effect;
}.

Definition set_observer v '(State _ b c d e f g h i j k l m n o) := State v b c d e f g h i j k l m n o.
Definition set_isInViewport v '(State a _ c d e f g h i j k l m n o) := State a v c d e f g h i j k l m n o.
Definition set_loadingTimer v '(State a b _ d e f g h i j k l m n o) := State a b v d e f g h i j k l m n o.
Definition set_loadStartTime v '(State a b c _ e f g h i j k l m n o) := State a b c v e f g h i j k l m n o.
Definition set_isImageLoaded v '(State a b c d _ f g h i j k l m n o) := State a b c d v f g h i j k l m n o.
Definition set_isImageError v '(State a b c d e _ g h i j k l m n o) := State a b c d e v g h i j k l m n o.
Definition set_attributes v '(State a b c d e f _ h i j k l m n o) := State a b c d e f v h i j k l m n o.
Definition set_root v '(State a b c d e f g _ i j k l m n o) := State a b c d e f g v i j k l m n o.
Definition set_nodes v '(State a b c d e f g h _ j k l m n o) := State a b c d e f g h v j k l m n o.
Definition set_timers v '(State a b c d e f g h i _ k l m n o) := State a b c d e f g h i v k l m n o.
Definition set_observers v '(State a b c d e f g h i j _ l m n o) := State a b c d e f g h i j v l m n o.
Definition set_requests v '(State a b c d e f g h i j k _ m n o) := State a b c d e f g h i j k v m n o.
Definition set_next v '(State a b c d e f g h i j k l _ n o) := State a b c d e f g h i j k l v n o.
Definition set_clock v '(State a b c d e f g h i j k l m _ o) := State a b c d e f g h i j k l m v o.
Definition set_log v '(State a b c d e f g h i j k l m n _) := State a b c d e f g h i j k l m n v.

(** A freshly constructed element: no attribute, an empty shadow root. *)
Definition initial : state :=
  State None false None None false false
        ∅ (ShadowTree None None None None None) ∅ ∅ ∅ ∅ 1%positive 0 [].

(** The newest effect is first. *)
Definition emit (e : effect) (s : state) : state := set_log (e :: log s) s.

(** A handle that the host has not given out yet. Timer handles are
    positive numbers, hence truthy. *)
Definition fresh (s : state) : positive * state := (next s, set_next (Pos.succ (next s)) s).

Definition getAttribute (name : list N) (s : state) : option (list N) :=
  attributes s !! name.

(** [!!v] for a value that is a string or [null] *)
Definition truthy (v : option (list N)) : bool :=
  match v with
  | Some (_ :: _) => true
  | _ => false
  end.

Definition classList_add (c : list N) (s : state) (n : positive) : state :=
  set_nodes (alter (fun nd =>
    if bool_decide (c ∈ classList nd) then nd
    else Node (classList nd ++ [c]) (srcAttr nd) (altAttr nd) (dataSrc nd)) n (nodes s)) s.

Definition classList_remove (c : list N) (s : state) (n : positive) : state :=
  set_nodes (alter (fun nd =>
    Node (List.filter (fun d => negb (bool_decide (d = c))) (classList nd))
         (srcAttr nd) (altAttr nd) (dataSrc nd)) n (nodes s)) s.

(** [layer.src = src] *)
Definition setSrc (src : list N) (n : positive) (s : state) : state :=
  set_nodes (alter (fun nd => Node (classList nd) src (altAttr nd) (dataSrc nd))
               n (nodes s)) s.

(** [if (layer) layer.classList.add(c)] *)
Definition classList_add_if (c : list N) (layer : option positive) (s : state) : state :=
  match layer with
  | Some n => classList_add c s n
  | None => s
  end.

Definition hasClass (c : list N) (n : positive) (s : state) : bool :=
  match nodes s !! n with
  | Some nd => bool_decide (c ∈ classList nd)
  | None => false
  end.

Section Element.
Context `{Number}.

Definition getDebugDelay (s : state) : Z :=
  let delayAttr := getAttribute (lit "debug-delay") s in
  if truthy delayAttr then
    match parseInt (default [] delayAttr) with
    | Fin delay => delay
    | _ => 3000
    end
  else 3000.

Definition addDebugIndicator (s : state) : state :=
  classList_add_if (lit "debug-loading") (blurhashLayer (root s)) s.

Definition removeDebugIndicator (s : state) : state :=
  match blurhashLayer (root s) with
  | Some n => classList_remove (lit "debug-loading") s n
  | None => s
  end.

Definition cleanupObserver (s : state) : state :=
  match observer s with
  | Some o =>
      let s := emit (Disconnect o) (set_observers (observers s ∖ {[o]}) s) in
      set_observer None s
  | None => s
  end.

Definition clearTimeout (t : positive) (s : state) : state :=
  emit (ClearTimeout t) (set_timers (timers s ∖ {[t]}) s).

Definition cleanupTimer (s : state) : state :=
  match loadingTimer s with
  | Some t => set_loadingTimer None (clearTimeout t s)
  | None => s
  end.

(** [key.replace(/([A-Z])/g, '-$1').toLowerCase()] *)
Definition kebab (key : list N) : list N :=
  mbind (M := list) (fun c : N => if (65 <=? c)%N && (c <=? 90)%N then [45; c + 32]%N else [c]) key.

(** [Object.entries(cssProperties)], in insertion order *)
Definition entries (css : BlurhashCssConverter.BlurhashCss) : list (list N * list N) :=
  [ (lit "backgroundImage", BlurhashCssConverter.backgroundImage css);
    (lit "backgroundPosition", BlurhashCssConverter.backgroundPosition css);
    (lit "backgroundRepeat", BlurhashCssConverter.backgroundRepeat css);
    (lit "backgroundSize", BlurhashCssConverter.backgroundSize css);
    (lit "filter", BlurhashCssConverter.filter css);
    (lit "transform", BlurhashCssConverter.transform css) ].

Definition flatColorCSS : list N := lit "background-color: #f0f0f0;".

Definition newline : list N := [10%N].

Definition gradientCSS : list N :=
  newline ++
  lit "                background: linear-gradient(135deg, #e0e0e0 0%, #f0f0f0 50%, #e0e0e0 100%);" ++ newline ++
  lit "                background-size: 200% 200%;" ++ newline ++
  lit "                animation: gradient-shift 3s ease infinite;" ++ newline ++
  lit "            ".

(** The CSS of a raster without rows, at the options of the element. *)
Definition rowlessCss : BlurhashCssConverter.BlurhashCss :=
  {| BlurhashCssConverter.backgroundImage := [];
     BlurhashCssConverter.backgroundPosition := [];
     BlurhashCssConverter.backgroundRepeat := lit "no-repeat";
     BlurhashCssConverter.backgroundSize := lit "100% NaN%";
     BlurhashCssConverter.filter := lit "blur(" ++ toString (ofZ 16) ++ lit "px)";
     BlurhashCssConverter.transform := lit "scale(" ++ toString (ofQ 1.1) ++ lit ")" |}.

(** [blurhashToCssObject] with [width: 32] and the options of the
    element, at a [height] that is the value of [Math.round]. An integer
    height is the converter as it stands. For the other three values the
    converter's steps are followed by hand: [-Infinity <= 0] holds and the
    size check throws; no comparison with [NaN] holds, so the size check
    passes, the hash is decoded, the raster has length [ToIndex(NaN) = 0]
    and no row is produced; [new Uint8Array(Infinity)] throws a
    [RangeError] (V8's wording) once the hash is decoded. *)
Definition blurhashToCssObjectAt (blurhash : list N) (height : jsint)
  : result BlurhashCssConverter.BlurhashCss :=
  let decoded :=
    match BlurhashDecoder.decodeColors blurhash (ofQ 1.2) with
    | Ok _ => Ok tt
    | Throw error => Throw (Error (lit "Failed to decode BlurHash: " ++ message error))
    end in
  match height with
  | Fin height =>
      BlurhashCssConverter.blurhashToCssObject blurhash
        {| BlurhashCssConverter.width := 32;
           BlurhashCssConverter.height := height;
           BlurhashCssConverter.blurRadius := Some (ofZ 16);
           BlurhashCssConverter.scaleFactor := Some (ofQ 1.1);
           BlurhashCssConverter.punch := Some (ofQ 1.2) |}
  | NegInf => Throw (Error (lit "Width and height must be positive numbers"))
  | NaN =>
      _ <- decoded ;;
      Ok rowlessCss
  | PosInf =>
      _ <- decoded ;;
      Throw (Error (lit "Failed to decode BlurHash: Invalid typed array length: Infinity"))
  end.

(** [Object.entries(cssProperties).map(...).join(...)]: one declaration
    per property, each on a line of its own. *)
Definition declarations (cssProperties : BlurhashCssConverter.BlurhashCss) : list N :=
  join (newline ++ lit "                    ")
    ((fun '(key, value) => kebab key ++ lit ": " ++ value ++ lit ";")
       <$> entries cssProperties).

(** The body of the [try] block. *)
Definition generateBlurhashCSS_try (blurhash : list N) (aspectRatio : num)
  : result (list N) :=
  if negb (BlurhashUtils.isValidBlurhash blurhash)
  then Ok flatColorCSS
  else
    let baseSize := 32 in
    let height := Math_round (ofZ baseSize / aspectRatio)%num in
    cssProperties <- blurhashToCssObjectAt blurhash height ;;
    Ok (declarations cssProperties).

Definition generateBlurhashCSS (blurhash : list N) (aspectRatio : num) : list N :=
  match generateBlurhashCSS_try blurhash aspectRatio with
  | Ok css => css
  | Throw error => gradientCSS
  end.

(** A new element of the shadow tree. *)
Definition createNode (nd : node) (s : state) : positive * state :=
  let '(n, s) := fresh s in
  (n, set_nodes (<[n := nd]> (nodes s)) s).

Definition createDiv (class : list N) (s : state) : positive * state :=
  createNode (Node [class] [] [] None) s.

(** [src ? `<img class="image-layer" src="" alt="..." data-src="...">` : ''] *)
Definition createImage (src : option (list N)) (alt : list N) (s : state)
  : option positive * state :=
  if truthy src then
    let '(n, s) := createNode (Node [lit "image-layer"] [] alt src) s in
    (Some n, s)
  else (None, s).

Definition render (s : state) : state :=
  let src := getAttribute (lit "src") s in
  let srcWidth := getAttribute (lit "src-width") s in
  let srcHeight := getAttribute (lit "src-height") s in
  let blurhash := getAttribute (lit "blurhash") s in
  let alt := if truthy (getAttribute (lit "alt") s)
             then default [] (getAttribute (lit "alt") s) else [] in
  let hasCompleteData := truthy srcWidth && truthy srcHeight && truthy blurhash in
  if negb hasCompleteData then
    let '(image, s) := createImage src alt s in
    set_root (ShadowTree None None None image None) s
  else
    let aspectRatio :=
      (parseFloat (default [] srcWidth) / parseFloat (default [] srcHeight))%num in
    let blurhashCSS := generateBlurhashCSS (default [] blurhash) aspectRatio in
    let '(backdrop, s) := createDiv (lit "blurhash-backdrop-layer") s in
    let '(layer, s) := createDiv (lit "blurhash-layer") s in
    let '(image, s) := createImage src alt s in
    let '(error, s) := createDiv (lit "error-layer") s in
    set_root (ShadowTree (Some blurhashCSS) (Some backdrop) (Some layer) image (Some error)) s.

Definition loadImage (s : state) : state :=
  match imageLayer (root s) with
  | None => s
  | Some imageLayer =>
      let src := nodes s !! imageLayer ≫= dataSrc in
      if negb (truthy src) || isImageLoaded s || isImageError s then s
      else
        let src := default [] src in
        let s := set_loadStartTime (Some (clock s)) s in
        let blurhashLayer := blurhashLayer (root s) in
        let '(img, s) := fresh s in
        let s := set_requests (<[img := Request imageLayer blurhashLayer src]> (requests s)) s in
        emit (Fetch img src) s
  end.

(** [img.onload] *)
Definition onload (rq : request) (s : state) : state :=
  let imageLayer := req_imageLayer rq in
  let blurhashLayer := req_blurhashLayer rq in
  let src := req_src rq in
  let loadDuration :=
    match loadStartTime s with
    | Some start => if start =? 0 then 999 else clock s - start
    | None => 999
    end in
  let s := if (loadDuration <? 200) && bool_decide (is_Some blurhashLayer)
           then classList_add (lit "no-animation") s imageLayer
           else s in
  let s := set_nodes (alter (fun nd => Node (classList nd) src (altAttr nd) (dataSrc nd))
                        imageLayer (nodes s)) s in
  let s := classList_add (lit "loaded") s imageLayer in
  let s := classList_add_if (lit "fade-out") blurhashLayer s in
  let s := set_isImageLoaded true s in
  emit (DispatchEvent (lit "image-loaded") src true true) s.

(** [img.onerror] *)
Definition onerror (rq : request) (s : state) : state :=
  let blurhashLayer := req_blurhashLayer rq in
  let src := req_src rq in
  let s := set_isImageError true s in
  let s := classList_add_if (lit "visible") (errorLayer (root s)) s in
  let s := classList_add_if (lit "fade-out") blurhashLayer s in
  emit (DispatchEvent (lit "image-error") src true true) s.

(** The callback given to [setTimeout]. *)
Definition loadingTimerCallback (s : state) : state :=
  removeDebugIndicator (loadImage s).

Definition handleViewportEntry (s : state) : state :=
  if isImageLoaded s || isImageError s then s
  else
    let debugMode := bool_decide (is_Some (getAttribute (lit "debug") s)) in
    let debugDelay := getDebugDelay s in
    if debugMode then
      let s := addDebugIndicator s in
      let '(t, s) := fresh s in
      let s := emit (SetTimeout t debugDelay) (set_timers (timers s ∪ {[t]}) s) in
      set_loadingTimer (Some t) s
    else loadImage s.

Definition handleViewportExit (s : state) : state :=
  match loadingTimer s with
  | Some t =>
      if negb (isImageLoaded s) then
        let s := clearTimeout t s in
        let s := set_loadingTimer None s in
        removeDebugIndicator s
      else s
  | None => s
  end.

(** The body of [entries.forEach] in the observer's callback. *)
Definition intersectionEntry (s : state) (isIntersecting : bool) : state :=
  if isIntersecting && negb (isInViewport s) then
    handleViewportEntry (set_isInViewport true s)
  else if negb isIntersecting && isInViewport s then
    handleViewportExit (set_isInViewport false s)
  else s.

Definition setupIntersectionObserver (s : state) : state :=
  let s := cleanupObserver s in
  let '(o, s) := fresh s in
  let s := set_observer (Some o) s in
  emit (Observe o) (set_observers (observers s ∪ {[o]}) s).

Definition connectedCallback (s : state) : state :=
  setupIntersectionObserver (render s).

Definition disconnectedCallback (s : state) : state :=
  cleanupTimer (cleanupObserver s).

Definition observedAttributes : list (list N) :=
  [lit "src"; lit "src-width"; lit "src-height"; lit "blurhash";
   lit "render-width"; lit "alt"; lit "debug"; lit "debug-delay"].

Definition attributeChangedCallback (property : list N)
    (oldValue newValue : option (list N)) (s : state) : state :=
  if negb (bool_decide (oldValue = newValue)) then
    let s := set_isImageLoaded false s in
    let s := set_isImageError false s in
    let s := set_loadStartTime None s in
    if bool_decide (property = lit "debug") || bool_decide (property = lit "debug-delay")
    then render s
    else setupIntersectionObserver (render s)
  else s.

(** What the host does to the element. An observer that was disconnected,
    a timeout that was cleared or has run, and a request that has
    completed deliver nothing. *)
Inductive event : Type :=
| Connected
| Disconnected
| SetAttribute (name value : list N)
| RemoveAttribute (name : list N)
| Intersection (o : positive) (entries : list bool)
| Timeout (t : positive)
| Load (r : positive)
| Failure (r : positive)
| Elapse (ms : N).

Definition changeAttribute (name : list N) (newValue : option (list N)) (s : state) : state :=
  let oldValue := getAttribute name s in
  let s := set_attributes
             (match newValue with
              | Some v => <[name := v]> (attributes s)
              | None => delete name (attributes s)
              end) s in
  if bool_decide (name ∈ observedAttributes)
  then attributeChangedCallback name oldValue newValue s
  else s.

Definition step (s : state) (e : event) : state :=
  match e with
  | Connected => connectedCallback s
  | Disconnected => disconnectedCallback s
  | SetAttribute name value => changeAttribute name (Some value) s
  | RemoveAttribute name => changeAttribute name None s
  | Intersection o entries =>
      if bool_decide (o ∈ observers s) then foldl intersectionEntry s entries else s
  | Timeout t =>
      if bool_decide (t ∈ timers s)
      then loadingTimerCallback (set_timers (timers s ∖ {[t]}) s)
      else s
  | Load r =>
      match requests s !! r with
      | Some rq => onload rq (set_requests (delete r (requests s)) s)
      | None => s
      end
  | Failure r =>
      match requests s !! r with
      | Some rq => onerror rq (set_requests (delete r (requests s)) s)
      | None => s
      end
  | Elapse ms => set_clock (clock s + Z.of_N ms) s
  end.

Definition run (s : state) (events : list event) : state := foldl step s events.

End Element.
End AxBlurest.

(** ** Doubles *)

(** IEEE 754 binary64, the Number type of ECMAScript, on Rocq's primitive
    floats. The functions that ECMAScript leaves to the engine
    ([Math.pow], [Math.cos]), and the conversions between numbers and
    strings, are the fields of [Engine]. *)
Module Float64.

Record Engine : Type := {
  engine_pow : float -> float -> float;
  engine_cos : float -> float;
  engine_toString : float -> list N;
  engine_parseFloat : list N -> float;
  engine_parseInt : list N -> jsint;
  engine_canAllocate : Z -> bool;
}.

(** The double nearest to an integer. *)
Definition of_Z (z : Z) : float := SF2Prim (binary_normalize prec emax z 0 false).

(** The double denoted by a decimal literal [n / d]: both are exact
    doubles, and the division rounds once. *)
Definition of_Q (q : Q) : float := (of_Z (Qnum q) / of_Z (Zpos (Qden q)))%float.

Definition is_falsy (x : float) : bool := is_zero x || is_nan x.

(** The integer part of a finite double. *)
Definition truncZ (x : float) : option Z :=
  match Prim2SF x with
  | S754_zero _ => Some 0
  | S754_finite s m e =>
      let a := if 0 <=? e then Z.shiftl (Zpos m) e else Z.shiftr (Zpos m) (- e) in
      Some (if s then - a else a)
  | S754_infinity _ | S754_nan => None
  end.

Definition trunc (x : float) : float :=
  match truncZ x with
  | None => x
  | Some 0 => if get_sign x then PrimFloat.neg_zero else PrimFloat.zero
  | Some z => of_Z z
  end.

(** [Math.round]: the integer nearest to [x], a tie going up. *)
Definition round (x : float) : jsint :=
  match Prim2SF x with
  | S754_zero _ => Fin 0
  | S754_finite s m e =>
      let n := if s then Zneg m else Zpos m in
      if 0 <=? e then Fin (Z.shiftl n e)
      else Fin ((2 * n + 2 ^ (- e)) / (2 * 2 ^ (- e)))
  | S754_infinity s => if s then NegInf else PosInf
  | S754_nan => NaN
  end.

Definition max (a b : float) : float :=
  if is_nan a || is_nan b then nan
  else if (a <? b)%float then b
  else if (b <? a)%float then a
  else if get_sign a then b else a.

Definition min (a b : float) : float :=
  if is_nan a || is_nan b then nan
  else if (a <? b)%float then a
  else if (b <? a)%float then b
  else if get_sign a then a else b.

(** The double nearest to pi, 3.141592653589793. *)
Definition PI : float := 0x1.921fb54442d18p+1%float.

Definition number (E : Engine) : Number := {|
  num := float;
  ofQ := of_Q;
  num_add := PrimFloat.add;
  num_sub := PrimFloat.sub;
  num_mul := PrimFloat.mul;
  num_div := PrimFloat.div;
  num_ltb := PrimFloat.ltb;
  num_leb := PrimFloat.leb;
  falsy := is_falsy;
  Math_abs := PrimFloat.abs;
  Math_max := max;
  Math_min := min;
  Math_trunc := trunc;
  Math_round := round;
  Math_pow := engine_pow E;
  Math_cos := engine_cos E;
  Math_PI := PI;
  toInteger := fun x => default 0 (truncZ x);
  toString := engine_toString E;
  parseFloat := engine_parseFloat E;
  parseInt := engine_parseInt E;
  canAllocate := engine_canAllocate E;
|}.

End Float64.

(** ** A sample engine

    Plain series implementations of the engine functions, so that the
    model runs on concrete inputs. They approximate what a browser
    computes; the theorems below are stated for any engine. *)
Module SampleEngine.

Local Open Scope float_scope.

(** [sum_{k < n} term_k] where [term_{k+1} = term_k * ratio k]. *)
Fixpoint series (n : nat) (k : Z) (term acc : float) (ratio : Z -> float) : float :=
  match n with
  | O => acc
  | S n' => series n' (k + 1)%Z (term * ratio k) (acc + term) ratio
  end.

Definition nearest (x : float) : Z :=
  match Float64.round x with
  | Fin z => z
  | _ => 0%Z
  end.

Definition cos (x : float) : float :=
  if is_nan x || is_infinity x then nan
  else
    let twoPi := 2 * Float64.PI in
    let r := x - Float64.of_Z (nearest (x / twoPi)) * twoPi in
    series 14 0 1 0
      (fun k => - (r * r) / Float64.of_Z ((2 * k + 1) * (2 * k + 2))).

Definition ln2 : float := 0x1.62e42fefa39efp-1.

Definition pow2 (k : Z) : float :=
  if (0 <=? k)%Z then Float64.of_Z (2 ^ k) else 1 / Float64.of_Z (2 ^ (- k)).

Definition exp (y : float) : float :=
  let k := nearest (y / ln2) in
  let r := y - Float64.of_Z k * ln2 in
  series 22 0 1 0 (fun n => r / Float64.of_Z (n + 1)) * pow2 k.

(** For [x > 0]. *)
Definition ln (x : float) : float :=
  let '(m, e) := frshiftexp x in
  let t := (m - 1) / (m + 1) in
  2 * series 24 0 t 0
        (fun k => t * t * Float64.of_Z (2 * k + 1) / Float64.of_Z (2 * k + 3))
    + Float64.of_Z (Uint63.to_Z e - FloatOps.shift) * ln2.

Definition pow (x y : float) : float :=
  if is_nan x || is_nan y then (if is_zero y then 1 else nan)
  else if is_zero y then 1
  else if is_zero x then (if 0 <? y then 0 else infinity)
  else if x <? 0 then nan
  else if is_infinity x then (if 0 <? y then infinity else 0)
  else exp (y * ln x).

(** The exact value of a finite double. *)
Definition toQ (x : float) : Q :=
  match Prim2SF x with
  | S754_finite s m e =>
      let n := if s then Zneg m else Zpos m in
      if (0 <=? e)%Z then inject_Z (n * 2 ^ e) else Qmake n (Z.to_pos (2 ^ (- e)))
  | _ => 0%Q
  end.

(** The number of digits of the integer part of [q >= 1], by search. *)
Fixpoint magnitude (fuel : nat) (q : Q) (n : Z) : Z :=
  match fuel with
  | O => n
  | S fuel' =>
      if Qle_bool (inject_Z (10 ^ n)) q then magnitude fuel' q (n + 1)%Z
      else if (0 <? n)%Z && negb (Qle_bool (inject_Z (10 ^ (n - 1))) q)
      then magnitude fuel' q (n - 1)%Z
      else n
  end.

(** [digits k] of a fraction [0 <= q < 1], truncated. *)
Fixpoint fraction (k : nat) (q : Q) : list N :=
  match k with
  | O => []
  | S k' =>
      let d := Qfloor (q * 10)%Q in
      (48 + Z.to_N d)%N :: fraction k' (q * 10 - inject_Z d)%Q
  end.

(** The shortest decimal, of at most [fuel] fractional digits, that reads
    back as [x]. *)
Fixpoint shortest (fuel : nat) (k : nat) (x : float) (q : Q) : list N :=
  let scale := inject_Z (10 ^ Z.of_nat k) in
  let s := Qfloor (q * scale + (1 # 2))%Q in
  let candidate := (inject_Z s / scale)%Q in
  match fuel with
  | O => show_Z (Qfloor candidate) ++ lit "." ++ fraction k (candidate - inject_Z (Qfloor candidate))%Q
  | S fuel' =>
      if Float64.of_Q (Qred candidate) =? x
      then show_Z (Qfloor candidate) ++
           (if (k =? 0)%nat then []
            else lit "." ++ fraction k (candidate - inject_Z (Qfloor candidate))%Q)
      else shortest fuel' (S k) x q
  end.

Definition numberToString (x : float) : list N :=
  if is_nan x then lit "NaN"
  else if is_infinity x then (if x <? 0 then lit "-Infinity" else lit "Infinity")
  else if is_zero x then lit "0"
  else (if x <? 0 then lit "-" else []) ++ shortest 20 0 (abs x) (toQ (abs x)).

Definition isDigit (c : N) : bool := (48 <=? c)%N && (c <=? 57)%N.

Fixpoint digitsValue (s : list N) (acc : Z) (scale : positive) (frac : bool)
  : Z * positive :=
  match s with
  | c :: s' =>
      if isDigit c
      then digitsValue s' (acc * 10 + Z.of_N (c - 48))%Z
             (if frac then (scale * 10)%positive else scale) frac
      else if (c =? 46)%N && negb frac then digitsValue s' acc scale true
      else (acc, scale)
  | [] => (acc, scale)
  end.

Fixpoint trimStart (s : list N) : list N :=
  match s with
  | 32%N :: s' => trimStart s'
  | _ => s
  end.

(** Decimal numerals with an optional sign and fraction; no exponent. *)
Definition parseFloat (s : list N) : float :=
  let s := trimStart s in
  let '(negative, s) :=
    match s with
    | 45%N :: s' => (true, s')
    | 43%N :: s' => (false, s')
    | _ => (false, s)
    end in
  match s with
  | c :: s' =>
      if isDigit c || ((c =? 46)%N && match s' with d :: _ => isDigit d | [] => false end)
      then let '(n, d) := digitsValue s 0%Z 1%positive false in
           let v := Float64.of_Q (Qred (Qmake n d)) in
           if negative then - v else v
      else nan
  | [] => nan
  end.

(** The integer part of the same numerals. *)
Definition parseInt (s : list N) : jsint :=
  match Float64.truncZ (parseFloat s) with
  | Some z => Fin z
  | None => NaN
  end.

Definition float64 : Float64.Engine := {|
  Float64.engine_pow := pow;
  Float64.engine_cos := cos;
  Float64.engine_toString := numberToString;
  Float64.engine_parseFloat := parseFloat;
  Float64.engine_parseInt := parseInt;
  Float64.engine_canAllocate := fun n => (n <=? 2 ^ 32 - 1)%Z;
|}.

End SampleEngine.

Definition F64 : Number := Float64.number SampleEngine.float64.


(** ** Rounding to the nearest double

    The rounding that ends a multiplication of doubles, [binary_round_aux]
    of the specification [SFmul], in closed form. These definitions serve
    the proofs about the punch factor; no statement about the program
    mentions them. *)

Module Binary64.

(** The integer nearest to [M / 2 ^ n], a tie going to the even one. *)
Definition rne (M n : Z) : Z :=
  let q := M / 2 ^ n in
  let r := M mod 2 ^ n in
  if (2 ^ n <? 2 * r) || ((2 ^ n =? 2 * r) && Z.odd q) then q + 1 else q.

(** The mantissa and the exponent of the double nearest to [M * 2 ^ E],
    before the test for overflow. *)
Definition rounded (M E : Z) : Z * Z :=
  let e := fexp prec emax (Zdigits2 M + E) in
  let M' := rne M (e - E) in
  if M' =? 2 ^ 53 then (2 ^ 52, e + 1) else (M', e).

(** The double of sign [s] with that mantissa and exponent: a zero, a
    finite number, or an infinity on overflow. *)
Definition pack (s : bool) (me : Z * Z) : spec_float :=
  match fst me with
  | Z0 => S754_zero s
  | Zpos m => if snd me <=? emax - prec then S754_finite s m (snd me) else S754_infinity s
  | Zneg _ => S754_nan
  end.

(** Order of two such pairs, as numbers. *)
Definition le_pair (a b : Z * Z) : Prop :=
  fst a = 0 \/ (0 < fst b /\ (snd a < snd b \/ (snd a = snd b /\ fst a <= fst b))).

(** Not [NaN] and not negative. *)
Definition nonneg (f : spec_float) : Prop :=
  match f with
  | S754_zero _ => True
  | S754_infinity s | S754_finite s _ _ => s = false
  | S754_nan => False
  end.

(** Zero or finite. *)
Definition bounded_float (f : spec_float) : Prop :=
  match f with
  | S754_zero _ | S754_finite _ _ _ => True
  | _ => False
  end.

End Binary64.
Import Binary64.


(** ** Vocabulary of the statements *)

Module Placeholder.

(** A symbol of the 83-character alphabet. *)
Definition inAlphabet (c : N) : Prop :=
  is_Some (BlurhashDecoder.indexOf BlurhashDecoder.BASE83_CHARS c).

(** The size flag: the base-83 value of the first character. *)
Definition sizeFlagOf (s : list N) : option Z :=
  head s ≫= BlurhashDecoder.indexOf BlurhashDecoder.BASE83_CHARS.

(** The length invariant: at least 6 characters, and exactly
    [4 + 2 * numX * numY] where the first character packs
    [numX = sizeFlag mod 9 + 1] and [numY = sizeFlag / 9 + 1]. *)
Definition WellSized (s : list N) : Prop :=
  6 <= len s /\
  exists sizeFlag, sizeFlagOf s = Some sizeFlag /\
    len s = 4 + 2 * (sizeFlag mod 9 + 1) * (sizeFlag / 9 + 1).

(** A placeholder string: symbols of the alphabet only, and well sized. *)
Definition PlaceholderString (s : list N) : Prop :=
  Forall inAlphabet s /\ WellSized s.

(** The message names the number [n]. *)
Definition names (msg : list N) (n : Z) : bool := includes (show_Z n) msg.

#[global] Instance inAlphabet_dec c : Decision (inAlphabet c) := _.

(** [Math.abs(c1[k]) <= Math.abs(cp[k])] for each channel [k]. *)
Definition NotSmaller `{Number} (c1 cp : BlurhashDecoder.color) : Prop :=
  let '(r1, g1, b1) := c1 in
  let '(rp, gp, bp) := cp in
  (Math_abs r1 <=? Math_abs rp)%num = true /\
  (Math_abs g1 <=? Math_abs gp)%num = true /\
  (Math_abs b1 <=? Math_abs bp)%num = true.

(** [Math.pow(Math.abs((quant - 9) / 9), 2.0)], the power that [signPow]
    asks of the engine for a quantised channel. *)
Definition square (E : Float64.Engine) (quant : Z) : float :=
  Math_pow (Number := Float64.number E)
    (Math_abs (ofZ (quant - 9) / ofZ 9)%num) (ofZ 2).

(** The engine gives a finite number for each of them: a two-character
    value is below [83 ^ 2], so that [quant] is at most 19. *)
Definition finiteSquares (E : Float64.Engine) : bool :=
  forallb (fun quant => (abs (square E quant) <? infinity)%float) (seqZ 0 20).



(** The byte that the loops of [decode] compute for channel [c] of pixel
    [(x, y)]: the sRGB conversion of the sum over the components, wrapped to
    a byte, and 255 for the alpha channel. *)
Definition channelByte `{Number} (colors : list BlurhashDecoder.color)
    (numX numY width height x y c : Z) : Z :=
  let '(r, g, b) := BlurhashDecoder.pixelSum colors numX numY width height x y in
  if c =? 0 then toUint8 (BlurhashDecoder.linearTosRGB r)
  else if c =? 1 then toUint8 (BlurhashDecoder.linearTosRGB g)
  else if c =? 2 then toUint8 (BlurhashDecoder.linearTosRGB b)
  else 255.

(** The engine allocates a typed array of [n] bytes: up to a gibibyte
    always, above it when it finds the memory, never above [2 ^ 53 - 1]. *)
Definition Allocatable `{Number} (n : Z) : Prop :=
  n <= 2 ^ 30 \/ (n <= 2 ^ 53 - 1 /\ canAllocate n = true).

(** The hash of the decoding scenario. *)
Definition scenarioHash : list N := lit "LGF5?]00~q%M-;%M%M9Fxu-;tRof".

End Placeholder.
Import Placeholder.

(** ** Vocabulary of the element's life cycle *)

Import AxBlurest.

Module Lifecycle.

Definition isFetch (e : effect) : bool :=
  match e with
  | Fetch _ _ => true
  | _ => false
  end.

Definition isDispatch (e : effect) : bool :=
  match e with
  | DispatchEvent _ _ _ _ => true
  | _ => false
  end.

(** No fetch was initiated. *)
Definition NoFetch (effects : list effect) : Prop :=
  Forall (fun e => isFetch e = false) effects.

(** No fetch was initiated and no event was dispatched. *)
Definition Silent (effects : list effect) : Prop :=
  Forall (fun e => isFetch e = false /\ isDispatch e = false) effects.

(** The observer reports an intersecting entry. *)
Definition entering (e : event) : bool :=
  match e with
  | Intersection _ entries => bool_decide (true ∈ entries)
  | _ => false
  end.

(** No timeout is armed and no image request is in flight. *)
Definition Settled (s : state) : Prop := timers s = ∅ /\ requests s = ∅.

(** No request is in flight, and a timeout is armed only as the pending load
    of an element that is in the viewport and not loaded. *)
Definition Pending (s : state) : Prop :=
  requests s = ∅ /\
  (timers s = ∅ \/
   exists t, timers s = {[t]} /\ loadingTimer s = Some t /\
             isInViewport s = true /\ isImageLoaded s = false).

(** The layers that [querySelector] finds. *)
Definition layers (tree : shadowTree) : list positive :=
  omap id [backdropLayer tree; blurhashLayer tree; imageLayer tree; errorLayer tree].

(** What the host guarantees of a state it can reach: the connected
    observer is the one the instance holds, handles given out are below
    [next], and the layers of the tree and of the requests in flight are
    elements. *)
Definition Coherent (s : state) : Prop :=
  observers s = match observer s with Some o => {[o]} | None => ∅ end /\
  (forall o, observer s = Some o -> (o < next s)%positive) /\
  (forall n, is_Some (nodes s !! n) -> (n < next s)%positive) /\
  (forall n, n ∈ layers (root s) -> is_Some (nodes s !! n)) /\
  (forall r rq, requests s !! r = Some rq ->
     is_Some (nodes s !! req_imageLayer rq) /\
     forall layer, req_blurhashLayer rq = Some layer -> is_Some (nodes s !! layer)).

(** The host sets or removes an attribute. *)
Definition isAttributeChange (e : event) : bool :=
  match e with
  | SetAttribute _ _ | RemoveAttribute _ => true
  | _ => false
  end.

(** An image request succeeds. *)
Definition isLoad (e : event) : bool :=
  match e with
  | Load _ => true
  | _ => false
  end.

(** An image request succeeds or fails. *)
Definition isCompletion (e : event) : bool :=
  match e with
  | Load _ | Failure _ => true
  | _ => false
  end.

Definition isSetTimeout (e : effect) : bool :=
  match e with
  | SetTimeout _ _ => true
  | _ => false
  end.

(** The observer notifies the element, or a timeout runs. *)
Definition isTrigger (e : event) : bool :=
  match e with
  | Intersection _ _ | Timeout _ => true
  | _ => false
  end.

(** Neither a fetch is initiated nor a timeout armed. *)
Definition Idle (effects : list effect) : Prop :=
  Forall (fun e => isFetch e = false /\ isSetTimeout e = false) effects.

(** The elements are the same and have kept the attribute that [f] reads. *)
Definition Keeps {A} (f : node -> A) (s s' : state) : Prop :=
  forall n, f <$> nodes s' !! n = f <$> nodes s !! n.

(** [f] does not read the class list. *)
Definition ignoresClasses {A} (f : node -> A) : Prop :=
  forall nd classes, f (Node classes (srcAttr nd) (altAttr nd) (dataSrc nd)) = f nd.

(** The load has completed, one way or the other. *)
Definition Finished (s : state) : Prop :=
  isImageLoaded s || isImageError s = true.

(** The shadow tree shows the attributes as they are now: an image layer
    exactly when [src] is non-empty, holding it as [data-src] beside the
    [alt] text; the placeholder layers and their style exactly when
    [src-width], [src-height] and [blurhash] are all non-empty. *)
Definition Rendered `{Number} (s : state) : Prop :=
  let src := getAttribute (lit "src") s in
  let srcWidth := getAttribute (lit "src-width") s in
  let srcHeight := getAttribute (lit "src-height") s in
  let blurhash := getAttribute (lit "blurhash") s in
  match imageLayer (root s) with
  | Some n =>
      truthy src = true /\
      exists nd, nodes s !! n = Some nd /\ dataSrc nd = src /\
                 altAttr nd = default [] (getAttribute (lit "alt") s)
  | None => truthy src = false
  end /\
  if truthy srcWidth && truthy srcHeight && truthy blurhash then
    layerCSS (root s)
    = Some (generateBlurhashCSS (default [] blurhash)
              (parseFloat (default [] srcWidth) / parseFloat (default [] srcHeight))%num) /\
    is_Some (backdropLayer (root s)) /\ is_Some (blurhashLayer (root s)) /\
    is_Some (errorLayer (root s))
  else
    layerCSS (root s) = None /\ backdropLayer (root s) = None /\
    blurhashLayer (root s) = None /\ errorLayer (root s) = None.

(** [render] writes the values of [src] and [alt] into the markup as they
    are, between double quotes. The HTML parser reads such a value back
    unchanged when it holds none of: U+0000 (replaced by U+FFFD), carriage
    return (normalised to a line feed), the double quote (ends the
    attribute), the ampersand (starts a character reference), [<] and
    surrogate code units. *)
Definition plainChar (c : N) : bool :=
  negb ((c =? 0) || (c =? 13) || (c =? 34) || (c =? 38) || (c =? 60)
        || ((55296 <=? c) && (c <=? 57343)))%N.

(** It writes the value of [render-width] into the style sheet, before
    [px;]. A value of ASCII digits, letters and dots stays within its
    declaration: it neither closes the style sheet nor reaches the rules
    that follow. *)
Definition measureChar (c : N) : bool :=
  (((48 <=? c) && (c <=? 57)) || ((65 <=? c) && (c <=? 90))
   || ((97 <=? c) && (c <=? 122)) || (c =? 46))%N.

(** The host gives plain values to the attributes that [render] writes
    into the markup. *)
Definition plainEvent (e : event) : Prop :=
  match e with
  | SetAttribute name value =>
      (name ∈ [lit "src"; lit "alt"] -> forallb plainChar value = true) /\
      (name = lit "render-width" -> forallb measureChar value = true)
  | _ => True
  end.

End Lifecycle.
Import Lifecycle.


(** ** The decoder: validation *)

Section DecoderFacts.
Context `{Number}.
Import BlurhashDecoder.

Lemma indexOf_nonneg arr c d : indexOf arr c = Some d -> 0 <= d.
Proof.
  revert d. induction arr as [|a arr IH]; intros d; simpl; [done|].
  destruct (a =? c)%N; [intros [= <-]; lia|].
  destruct (indexOf arr c) as [d'|]; simpl; [|done].
  intros [= <-]. specialize (IH d' eq_refl). lia.
Qed.

Lemma decode83_loop_ok str : forall acc,
  Forall inAlphabet str -> 0 <= acc ->
  exists v, decode83_loop str acc = Ok v /\ 0 <= v.
Proof.
  induction str as [|c str IH]; intros acc Hall Hacc; cbn [decode83_loop].
  - eauto.
  - inversion Hall as [|? ? [d Hd] Hrest]; subst.
    rewrite Hd. apply IH; [done|].
    apply indexOf_nonneg in Hd. lia.
Qed.

Lemma decode83_ok str :
  Forall inAlphabet str -> exists v, decode83 str = Ok v /\ 0 <= v.
Proof. intros. apply decode83_loop_ok; [done | lia]. Qed.

Lemma decode83_loop_throw str : forall acc e,
  decode83_loop str acc = Throw e ->
  exists c, c ∈ str /\ ~ inAlphabet c /\
    e = ValidationError (lit "Invalid base83 character: " ++ [c]).
Proof.
  induction str as [|c str IH]; intros acc e; cbn [decode83_loop]; [done|].
  destruct (indexOf BASE83_CHARS c) as [d|] eqn:Hd.
  - intros Hrest. destruct (IH _ _ Hrest) as (c' & ? & ? & ?).
    exists c'. split_and!; [apply elem_of_cons; by right | done | done].
  - intros [= <-]. exists c. split_and!; [apply elem_of_cons; by left | | done].
    unfold inAlphabet. rewrite Hd. by intros [? ?].
Qed.

Lemma decode83_loop_bad str : forall acc,
  ~ Forall inAlphabet str -> exists e, decode83_loop str acc = Throw e.
Proof.
  induction str as [|c str IH]; intros acc Hnot; cbn [decode83_loop].
  - destruct Hnot. constructor.
  - destruct (indexOf BASE83_CHARS c) as [d|] eqn:Hd; [|eauto].
    apply IH. intros Hall. apply Hnot. constructor; [|done].
    unfold inAlphabet. rewrite Hd. eauto.
Qed.

Lemma charAt_0 c s : charAt (c :: s) 0 = [c].
Proof. reflexivity. Qed.

Lemma decode83_single c : decode83 [c] =
  match indexOf BASE83_CHARS c with
  | Some d => Ok d
  | None => Throw (ValidationError (lit "Invalid base83 character: " ++ [c]))
  end.
Proof.
  unfold decode83. cbn [decode83_loop]. by destruct (indexOf BASE83_CHARS c).
Qed.

(** [validateBlurhash], case by case. *)
Lemma validateBlurhash_short s :
  len s < 6 -> validateBlurhash s = Throw (ValidationError tooShortMessage).
Proof.
  intros Hlen. unfold validateBlurhash.
  replace (len s <? 6) with true by (symmetry; apply Z.ltb_lt; done).
  by rewrite orb_true_r.
Qed.

Lemma validateBlurhash_long c s :
  6 <= len (c :: s) ->
  validateBlurhash (c :: s) =
    match indexOf BASE83_CHARS c with
    | None => Throw (ValidationError (lit "Invalid base83 character: " ++ [c]))
    | Some sizeFlag =>
        if len (c :: s) =? expectedLength sizeFlag then Ok tt
        else Throw (ValidationError
                      (mismatchMessage (len (c :: s)) (expectedLength sizeFlag)))
    end.
Proof.
  intros Hlen. unfold validateBlurhash.
  replace (len (c :: s) <? 6) with false by (symmetry; apply Z.ltb_ge; done).
  rewrite bool_decide_eq_false_2 by done. simpl orb. cbv iota.
  rewrite charAt_0, decode83_single.
  destruct (indexOf BASE83_CHARS c) as [d|]; cbn [bind]; [|done].
  unfold expectedLength. by destruct (len (c :: s) =? _).
Qed.

Lemma validateBlurhash_Ok s : validateBlurhash s = Ok tt <-> WellSized s.
Proof.
  unfold WellSized, sizeFlagOf. split.
  - intros Hv. destruct (Z.lt_ge_cases (len s) 6) as [Hlt|Hge].
    { rewrite validateBlurhash_short in Hv; done. }
    destruct s as [|c s]; [unfold len in Hge; simpl in Hge; lia|].
    rewrite validateBlurhash_long in Hv by done. cbn [head mbind option_bind].
    destruct (indexOf BASE83_CHARS c) as [d|]; [|done].
    destruct (Z.eqb_spec (len (c :: s)) (expectedLength d)) as [Heq|]; [|done].
    split; [done|]. exists d. split; [done|]. exact Heq.
  - intros (Hge & d & Hd & Hlen).
    destruct s as [|c s]; [done|]. cbn [head mbind option_bind] in Hd.
    rewrite validateBlurhash_long by done. rewrite Hd.
    unfold expectedLength. rewrite Hlen. by rewrite Z.eqb_refl.
Qed.

(** ** Messages *)

Lemma startsWith_app p s : startsWith p (p ++ s) = true.
Proof.
  induction p as [|c p IH]; [done|]. cbn [startsWith app].
  by rewrite N.eqb_refl, IH.
Qed.

Lemma includes_app a p b : includes p (a ++ p ++ b) = true.
Proof.
  assert (Hhere : forall s, includes p (p ++ s) = true).
  { intros s. destruct (p ++ s) eqn:E; cbn [includes];
      rewrite <- E, startsWith_app; reflexivity. }
  induction a as [|c a IH]; [apply Hhere|].
  cbn [includes app]. rewrite IH. apply orb_true_r.
Qed.

Lemma mismatchMessage_names actual expected :
  names (mismatchMessage actual expected) actual = true /\
  names (mismatchMessage actual expected) expected = true.
Proof.
  unfold names, mismatchMessage. split.
  - apply includes_app.
  - rewrite !(assoc_L (++)).
    rewrite <- (app_nil_r (show_Z expected)) at 2.
    rewrite <- !(assoc_L (++)).
    rewrite (assoc_L (++) (lit "blurhash length mismatch: length is ")).
    rewrite (assoc_L (++) _ (lit " but it should be ")).
    apply includes_app.
Qed.

(** ** Decoding after validation *)

Lemma decode_validation_throw s e width height punch :
  validateBlurhash s = Throw e -> decode s width height punch = Throw e.
Proof.
  intros Hv. unfold decode, decodeColors. by rewrite Hv.
Qed.

End DecoderFacts.

(** ** Loops that may throw *)

Section MapM.
Context {A B : Type} (f : A -> result B).

Lemma mapM_Ok l bs : mapM f l = Ok bs <-> Forall2 (fun a b => f a = Ok b) l bs.
Proof.
  revert bs. induction l as [|a l IH]; intros bs; cbn [mapM].
  - split; [intros [= <-]; constructor | by inversion 1].
  - destruct (f a) as [b|e] eqn:Ha; cbn [bind].
    + destruct (mapM f l) as [bs'|e] eqn:Hl; cbn [bind].
      * split.
        -- intros [= <-]. constructor; [done | by apply IH].
        -- inversion 1 as [|? b' ? bs'' Hb Hbs]; subst.
           apply IH in Hbs. congruence.
      * split; [done|]. inversion 1 as [|? b' ? bs'' Hb Hbs]; subst.
        apply IH in Hbs. done.
    + split; [done|]. inversion 1; congruence.
Qed.

Lemma mapM_total l :
  (forall a, a ∈ l -> exists b, f a = Ok b) -> exists bs, mapM f l = Ok bs.
Proof.
  induction l as [|a l IH]; intros Hall; cbn [mapM]; [eauto|].
  destruct (Hall a) as [b ->]; [apply elem_of_cons; by left|].
  destruct IH as [bs ->]; [|cbn [bind]; eauto].
  intros a' Ha'. apply Hall, elem_of_cons. by right.
Qed.

Lemma mapM_Throw l a :
  a ∈ l -> (exists e, f a = Throw e) -> exists e, mapM f l = Throw e.
Proof.
  intros Hin [e He]. destruct (mapM f l) as [bs|e'] eqn:Hl; [|eauto].
  apply mapM_Ok in Hl. apply list_elem_of_lookup in Hin as [i Hi].
  destruct (Forall2_lookup_l _ _ _ _ _ Hl Hi) as (b & _ & Hb). congruence.
Qed.

Lemma mapM_length l bs : mapM f l = Ok bs -> length bs = length l.
Proof. intros Hl. apply mapM_Ok in Hl. symmetry. by eapply Forall2_length. Qed.

End MapM.

(** ** The decoder: components *)

Section ColorFacts.
Context `{Number}.
Import BlurhashDecoder.

Lemma Forall_substring (P : N -> Prop) s a b :
  Forall P s -> Forall P (substring s a b).
Proof. intros. unfold substring. by apply Forall_take, Forall_drop. Qed.

Lemma elem_of_substring s a b k c :
  s !! k = Some c -> 0 <= a -> a <= Z.of_nat k < b -> c ∈ substring s a b.
Proof.
  intros Hk Ha Hab. unfold substring.
  apply list_elem_of_lookup. exists (k - Z.to_nat a)%nat.
  rewrite lookup_take_lt by lia. rewrite lookup_drop.
  rewrite <- Hk. f_equal. lia.
Qed.

Lemma decode83_bad s c : c ∈ s -> ~ inAlphabet c -> exists e, decode83 s = Throw e.
Proof.
  intros Hin Hc. apply decode83_loop_bad. rewrite Forall_forall. eauto.
Qed.

Lemma decodeColor_ok s maximumValue punch i :
  Forall inAlphabet s -> exists c, decodeColor s maximumValue punch i = Ok c.
Proof.
  intros Hs. unfold decodeColor. destruct (i =? 0).
  - destruct (decode83_ok (substring s 2 6)) as (v & -> & _);
      [by apply Forall_substring | cbn [bind]; eauto].
  - destruct (decode83_ok (substring s (4 + i * 2) (6 + i * 2))) as (v & -> & _);
      [by apply Forall_substring | cbn [bind]; eauto].
Qed.

Lemma decodeColor_bad s maximumValue punch i k c :
  s !! k = Some c -> ~ inAlphabet c -> 0 <= i ->
  (if i =? 0 then 2 <= Z.of_nat k < 6
   else 4 + i * 2 <= Z.of_nat k < 6 + i * 2) ->
  exists e, decodeColor s maximumValue punch i = Throw e.
Proof.
  intros Hk Hc Hi Hrange. unfold decodeColor. destruct (i =? 0).
  - destruct (decode83_bad (substring s 2 6) c) as [e ->];
      [eapply elem_of_substring; [done | lia | lia] | done | cbn [bind]; eauto].
  - destruct (decode83_bad (substring s (4 + i * 2) (6 + i * 2)) c) as [e ->];
      [eapply elem_of_substring; [done | lia | lia] | done | cbn [bind]; eauto].
Qed.

Lemma sizeFlag_bounds s sizeFlag : sizeFlagOf s = Some sizeFlag -> 0 <= sizeFlag.
Proof.
  unfold sizeFlagOf. destruct s as [|c s]; [done|]. cbn [head mbind option_bind].
  apply indexOf_nonneg.
Qed.

(** What [decodeColors] does once the length is right. *)
Lemma decodeColors_unfold s punch sizeFlag :
  6 <= len s -> sizeFlagOf s = Some sizeFlag ->
  len s = 4 + 2 * (sizeFlag mod 9 + 1) * (sizeFlag / 9 + 1) ->
  decodeColors s punch =
    (let punch := if falsy punch then ofZ 1 else punch in
     let numY := sizeFlag / 9 + 1 in
     let numX := sizeFlag mod 9 + 1 in
     quantisedMaximumValue <- decode83 (charAt s 1) ;;
     let maximumValue := (ofZ (quantisedMaximumValue + 1) / ofZ 166)%num in
     colors <- mapM (decodeColor s maximumValue punch) (seqZ 0 (numX * numY)) ;;
     Ok (numX, numY, colors)).
Proof.
  intros Hge Hflag Hlen. unfold decodeColors.
  assert (validateBlurhash s = Ok tt) as ->.
  { apply validateBlurhash_Ok. split; [done|]. eauto. }
  cbn [bind]. destruct s as [|c s]; [done|].
  rewrite charAt_0, decode83_single.
  cbn [sizeFlagOf head mbind option_bind] in Hflag. rewrite Hflag. done.
Qed.

Lemma decodeColors_ok s punch :
  PlaceholderString s ->
  exists sizeFlag colors,
    sizeFlagOf s = Some sizeFlag /\
    decodeColors s punch = Ok (sizeFlag mod 9 + 1, sizeFlag / 9 + 1, colors) /\
    Z.of_nat (length colors) = (sizeFlag mod 9 + 1) * (sizeFlag / 9 + 1).
Proof.
  intros [Hall (Hge & sizeFlag & Hflag & Hlen)].
  exists sizeFlag. rewrite (decodeColors_unfold s punch sizeFlag) by done.
  cbv zeta.
  destruct (decode83_ok (charAt s 1)) as (q & -> & _);
    [by apply Forall_substring|]. cbn [bind].
  edestruct (mapM_total (decodeColor s (ofZ (q + 1) / ofZ 166)%num
               (if falsy punch then ofZ 1 else punch)))
    as [colors Hcolors].
  { intros i _. by apply decodeColor_ok. }
  rewrite Hcolors. cbn [bind]. exists colors. split_and!; [done | done |].
  apply mapM_length in Hcolors. rewrite Hcolors, length_seqZ.
  pose proof (sizeFlag_bounds _ _ Hflag).
  assert (0 <= sizeFlag mod 9) by (apply Z.mod_pos_bound; lia).
  assert (0 <= sizeFlag / 9) by (apply Z.div_pos; lia). nia.
Qed.

Lemma decodeColors_bad s punch :
  WellSized s -> ~ Forall inAlphabet s -> exists e, decodeColors s punch = Throw e.
Proof.
  intros (Hge & sizeFlag & Hflag & Hlen) Hnot.
  rewrite (decodeColors_unfold s punch sizeFlag) by done. cbv zeta.
  apply not_Forall_Exists in Hnot; [|intros c; unfold inAlphabet; apply _].
  apply Exists_exists in Hnot as (c & Hin & Hc). cbn [compose] in Hc.
  apply list_elem_of_lookup in Hin as [k Hk].
  pose proof (sizeFlag_bounds _ _ Hflag) as Hpos.
  assert (0 <= sizeFlag mod 9) by (apply Z.mod_pos_bound; lia).
  assert (0 <= sizeFlag / 9) by (apply Z.div_pos; lia).
  assert (Z.of_nat k < len s) as Hklen.
  { unfold len. apply lookup_lt_Some in Hk. lia. }
  destruct (decode83 (charAt s 1)) as [q|e] eqn:Hq; cbn [bind]; [|eauto].
  assert (k <> 0%nat) as Hk0.
  { intros ->. destruct s as [|c' s]; [done|]. injection Hk as ->.
    apply Hc. unfold inAlphabet.
    cbn [sizeFlagOf head mbind option_bind] in Hflag. rewrite Hflag. eauto. }
  assert (k <> 1%nat) as Hk1.
  { intros ->. destruct (decode83_bad (charAt s 1) c) as [e He];
      [eapply elem_of_substring; [done | lia | lia] | done | congruence]. }
  set (i := if decide (Z.of_nat k < 6) then 0 else (Z.of_nat k - 4) / 2).
  edestruct (mapM_Throw (decodeColor s (ofZ (q + 1) / ofZ 166)%num
               (if falsy punch then ofZ 1 else punch))
               (seqZ 0 ((sizeFlag mod 9 + 1) * (sizeFlag / 9 + 1))) i) as [e ->];
    [| |cbn [bind]; eauto].
  - apply elem_of_seqZ. subst i. destruct (decide _).
    + nia.
    + assert (0 <= (Z.of_nat k - 4) / 2) by (apply Z.div_pos; lia).
      assert ((Z.of_nat k - 4) / 2 < (sizeFlag mod 9 + 1) * (sizeFlag / 9 + 1));
        [|lia].
      apply Z.div_lt_upper_bound; lia.
  - eapply decodeColor_bad; [done | done | |].
    + subst i. destruct (decide _); [lia|]. apply Z.div_pos; lia.
    + subst i. destruct (decide _) as [Hlt|Hge6].
      * cbn [Z.eqb]. lia.
      * destruct (Z.eqb_spec ((Z.of_nat k - 4) / 2) 0) as [E|E].
        -- pose proof (Z.div_mod (Z.of_nat k - 4) 2 ltac:(lia)).
           pose proof (Z.mod_pos_bound (Z.of_nat k - 4) 2 ltac:(lia)). lia.
        -- pose proof (Z.div_mod (Z.of_nat k - 4) 2 ltac:(lia)).
           pose proof (Z.mod_pos_bound (Z.of_nat k - 4) 2 ltac:(lia)). lia.
Qed.

End ColorFacts.

(** ** The decoder: the raster *)

Section RasterFacts.
Context `{Number}.
Import BlurhashDecoder.

Lemma foldl_invariant {S X} (f : S -> X -> S) (P : S -> Prop) l :
  (forall a x, P a -> P (f a x)) -> forall a, P a -> P (foldl f a l).
Proof. intros Hstep. induction l as [|x l IH]; intros a Ha; cbn [foldl]; auto. Qed.

(** Once some step establishes [P], it holds at the end. *)
Lemma foldl_establish {S X} (f : S -> X -> S) (P Q : S -> Prop) l x0 :
  (forall a x, Q a -> Q (f a x)) ->
  (forall a x, P a -> P (f a x)) ->
  (forall a, Q a -> P (f a x0)) ->
  x0 ∈ l -> forall a, Q a -> P (foldl f a l).
Proof.
  intros HQ HP Hx0. induction l as [|x l IH]; intros Hin a Ha; cbn [foldl].
  - by apply elem_of_nil in Hin.
  - apply elem_of_cons in Hin as [<-|Hin].
    + apply foldl_invariant; auto.
    + apply IH; auto.
Qed.

Lemma length_store pixels i v : length (store pixels i v) = length pixels.
Proof. unfold store. destruct (i <? 0); [done | apply length_insert]. Qed.

Lemma store_keeps pixels i v k :
  v = 255 \/ i <> Z.of_nat k ->
  pixels !! k = Some 255 -> store pixels i v !! k = Some 255.
Proof.
  intros Hor Hk. unfold store. destruct (Z.ltb_spec i 0); [done|].
  destruct (decide (Z.to_nat i = k)) as [<-|Hne].
  - destruct Hor as [->|Hne]; [|lia].
    apply list_lookup_insert_eq. by eapply lookup_lt_Some.
  - by rewrite list_lookup_insert_ne.
Qed.

Lemma store_sets pixels i :
  0 <= i < Z.of_nat (length pixels) ->
  store pixels i 255 !! Z.to_nat i = Some 255.
Proof.
  intros Hi. unfold store. destruct (Z.ltb_spec i 0); [lia|].
  apply list_lookup_insert_eq. lia.
Qed.

(** The byte offset of channel [c] of pixel [(x, y)] is [c] modulo 4. *)
Lemma offset_mod x y width c :
  (4 * x + c + y * (width * 4)) mod 4 = c mod 4.
Proof.
  replace (4 * x + c + y * (width * 4)) with (c + (x + y * width) * 4) by lia.
  apply Z_mod_plus_full.
Qed.

Lemma writePixel_length colors numX numY width height y pixels x :
  length (writePixel colors numX numY width height y pixels x) = length pixels.
Proof.
  unfold writePixel. destruct (pixelSum _ _ _ _ _ _ _) as [[r g] b].
  by rewrite !length_store.
Qed.

Lemma writePixel_keeps colors numX numY width height y pixels x k :
  Z.of_nat k mod 4 = 3 -> pixels !! k = Some 255 ->
  writePixel colors numX numY width height y pixels x !! k = Some 255.
Proof.
  intros Hmod Hk. unfold writePixel.
  destruct (pixelSum _ _ _ _ _ _ _) as [[r g] b].
  assert (forall c, 0 <= c < 3 -> 4 * x + c + y * (width * 4) <> Z.of_nat k) as Hne.
  { intros c Hc E. rewrite <- E, offset_mod in Hmod.
    rewrite Z.mod_small in Hmod; lia. }
  apply store_keeps; [by left|].
  apply store_keeps; [right; apply Hne; lia|].
  apply store_keeps; [right; apply Hne; lia|].
  apply store_keeps; [right; apply Hne; lia|]. done.
Qed.

Lemma writePixel_sets colors numX numY width height y pixels x :
  0 <= 4 * x + 3 + y * (width * 4) < Z.of_nat (length pixels) ->
  writePixel colors numX numY width height y pixels x
    !! Z.to_nat (4 * x + 3 + y * (width * 4)) = Some 255.
Proof.
  intros Hi. unfold writePixel.
  destruct (pixelSum _ _ _ _ _ _ _) as [[r g] b].
  apply store_sets. by rewrite !length_store.
Qed.

Lemma writeRow_length colors numX numY width height pixels y :
  length (writeRow colors numX numY width height pixels y) = length pixels.
Proof.
  unfold writeRow.
  apply (foldl_invariant _ (fun p => length p = length pixels)); [|done].
  intros a x <-. apply writePixel_length.
Qed.

Lemma writeRow_keeps colors numX numY width height pixels y k :
  Z.of_nat k mod 4 = 3 -> pixels !! k = Some 255 ->
  writeRow colors numX numY width height pixels y !! k = Some 255.
Proof.
  intros Hmod. unfold writeRow.
  apply (foldl_invariant _ (fun p => p !! k = Some 255)).
  intros a x. by apply writePixel_keeps.
Qed.

Lemma alpha_offset_mod x y width :
  0 <= 4 * x + 3 + y * (width * 4) ->
  Z.of_nat (Z.to_nat (4 * x + 3 + y * (width * 4))) mod 4 = 3.
Proof. intros. rewrite Z2Nat.id by done. by rewrite offset_mod. Qed.

Lemma writeRow_sets colors numX numY width height pixels y x :
  0 <= x < width ->
  0 <= 4 * x + 3 + y * (width * 4) < Z.of_nat (length pixels) ->
  writeRow colors numX numY width height pixels y
    !! Z.to_nat (4 * x + 3 + y * (width * 4)) = Some 255.
Proof.
  intros Hx Hi. unfold writeRow.
  apply (foldl_establish _
           (fun p => p !! Z.to_nat (4 * x + 3 + y * (width * 4)) = Some 255)
           (fun p => length p = length pixels) _ x).
  - intros a x' <-. apply writePixel_length.
  - intros a x'. apply writePixel_keeps, alpha_offset_mod. lia.
  - intros a Ha. apply writePixel_sets. by rewrite Ha.
  - apply elem_of_seqZ. lia.
  - done.
Qed.

(** The raster that [decode] fills: its size and its alpha bytes. *)
Lemma raster_alpha colors numX numY width height pixels x y :
  0 <= x < width -> 0 <= y < height ->
  Z.of_nat (length pixels) = width * 4 * height ->
  let raster := foldl (writeRow colors numX numY width height) pixels (seqZ 0 height) in
  Z.of_nat (length raster) = width * 4 * height /\
  raster !! Z.to_nat (4 * x + 3 + y * (width * 4)) = Some 255.
Proof.
  intros Hx Hy Hlen raster.
  assert (0 <= 4 * x + 3 + y * (width * 4) < Z.of_nat (length pixels)) by nia.
  split.
  - rewrite <- Hlen. f_equal. subst raster.
    apply (foldl_invariant _ (fun p => length p = length pixels)); [|done].
    intros a y' <-. apply writeRow_length.
  - subst raster.
    apply (foldl_establish _
             (fun p => p !! Z.to_nat (4 * x + 3 + y * (width * 4)) = Some 255)
             (fun p => length p = length pixels) _ y).
    + intros a y' <-. apply writeRow_length.
    + intros a y'. apply writeRow_keeps, alpha_offset_mod. lia.
    + intros a Ha. apply writeRow_sets; [done | by rewrite Ha].
    + apply elem_of_seqZ. lia.
    + done.
Qed.

Lemma raster_length colors numX numY width height pixels :
  length (foldl (writeRow colors numX numY width height) pixels (seqZ 0 height))
  = length pixels.
Proof.
  apply (foldl_invariant _ (fun p => length p = length pixels)); [|done].
  intros a y' <-. apply writeRow_length.
Qed.

Lemma newUint8Array_ok n :
  0 <= n -> Allocatable n -> newUint8Array n = Ok (replicate (Z.to_nat n) 0).
Proof.
  intros Hn Ha. unfold newUint8Array.
  destruct (Z.ltb_spec n 0); [lia|].
  destruct (Z.ltb_spec (2 ^ 53 - 1) n); [destruct Ha as [?|[? _]]; lia|].
  cbn [orb]. destruct (Z.leb_spec n (2 ^ 30)); [done|].
  destruct Ha as [?|[_ ->]]; [lia | done].
Qed.

(** [new Uint8Array(n)], when it returns. *)
Lemma newUint8Array_inv n pixels :
  newUint8Array n = Ok pixels ->
  0 <= n /\ Allocatable n /\ pixels = replicate (Z.to_nat n) 0.
Proof.
  unfold newUint8Array, Allocatable.
  destruct (Z.ltb_spec n 0); [done|].
  destruct (Z.ltb_spec (2 ^ 53 - 1) n); [done|]. cbn [orb].
  destruct (Z.leb_spec n (2 ^ 30)); cbn [orb].
  - intros [= <-]. auto.
  - destruct (canAllocate n) eqn:E; [|done]. intros [= <-].
    split_and!; [done | right; done | done].
Qed.

(** [new Uint8Array(n)] throws nothing but a [RangeError]. *)
Lemma newUint8Array_throw n e :
  newUint8Array n = Throw e -> (n < 0 \/ ~ Allocatable n) /\ exists msg, e = RangeError msg.
Proof.
  unfold newUint8Array, Allocatable.
  destruct (Z.ltb_spec n 0); cbn [orb].
  { intros [= <-]. split; [by left | eauto]. }
  destruct (Z.ltb_spec (2 ^ 53 - 1) n).
  { intros [= <-]. split; [right; lia | eauto]. }
  destruct (Z.leb_spec n (2 ^ 30)); cbn [orb]; [done|].
  destruct (canAllocate n) eqn:E; [done|]. intros [= <-].
  split; [|eauto]. right. intros [?|[_ ?]]; [lia | congruence].
Qed.

(** [decode] on a placeholder string. *)
Lemma decode_ok s width height punch :
  PlaceholderString s -> 0 <= width -> 0 <= height ->
  Allocatable (width * height * 4) ->
  exists raster,
    decode s width height punch = Ok raster /\
    Z.of_nat (length raster) = width * height * 4 /\
    forall x y, 0 <= x < width -> 0 <= y < height ->
      raster !! Z.to_nat (4 * x + 3 + y * width * 4) = Some 255.
Proof.
  intros Hs Hw Hh Ha.
  destruct (decodeColors_ok s punch Hs) as (sizeFlag & colors & _ & Hc & _).
  unfold decode. rewrite Hc. cbn [bind].
  replace (width * height * 4) with (width * 4 * height) in Ha by lia.
  rewrite newUint8Array_ok by (done || nia). cbn [bind].
  eexists. split; [done|].
  assert (Z.of_nat (length (replicate (Z.to_nat (width * 4 * height)) 0))
          = width * 4 * height) as Hlen.
  { rewrite length_replicate. nia. }
  split.
  - rewrite raster_length. lia.
  - intros x y Hx Hy.
    replace (4 * x + 3 + y * width * 4) with (4 * x + 3 + y * (width * 4)) by lia.
    by apply raster_alpha.
Qed.

(** [decode] on a placeholder string whose raster cannot be allocated. *)
Lemma decode_unallocatable s width height punch :
  PlaceholderString s -> ~ Allocatable (width * height * 4) ->
  exists msg, decode s width height punch = Throw (RangeError msg).
Proof.
  intros Hs Hna.
  destruct (decodeColors_ok s punch Hs) as (sizeFlag & colors & _ & Hc & _).
  unfold decode. rewrite Hc. cbn [bind].
  replace (width * height * 4) with (width * 4 * height) in Hna by lia.
  destruct (newUint8Array (width * 4 * height)) as [pixels|e] eqn:Hn.
  - by apply newUint8Array_inv in Hn as (_ & ? & _).
  - apply newUint8Array_throw in Hn as (_ & msg & ->). cbn [bind]. eauto.
Qed.

Lemma decode_punch_falsy s width height punch :
  falsy punch = true ->
  decode s width height punch = decode s width height (ofZ 1).
Proof.
  intros Hp. unfold decode, decodeColors. rewrite Hp.
  by destruct (falsy (ofZ 1)).
Qed.

End RasterFacts.

(** ** Claims about the decoder *)

Lemma scenarioHash_placeholder : PlaceholderString scenarioHash.
Proof.
  split; [compute_done|]. split; [compute_done|].
  exists 21. split; compute_done.
Qed.

(** C1 (as amended). Validation succeeds exactly on the strings whose first
    character is in the alphabet, whose length is at least 6 and equal to
    [4 + 2 * numX * numY]. A string shorter than 6 is rejected with the
    fixed message [tooShortMessage]; a string of length at least 6 whose
    first character is not in the alphabet is rejected for that character;
    a string of length at least 6 that violates the length equation is
    rejected with a [ValidationError] whose message names both the actual
    and the expected length. Whenever validation throws, [decode] throws
    the same error and returns no raster. *)
Theorem validateBlurhash_rejects `{Number} (s : list N) :
  (BlurhashDecoder.validateBlurhash s = Ok tt <-> WellSized s) /\
  (len s < 6 ->
     BlurhashDecoder.validateBlurhash s
     = Throw (ValidationError BlurhashDecoder.tooShortMessage)) /\
  (forall c, 6 <= len s -> head s = Some c -> ~ inAlphabet c ->
     BlurhashDecoder.validateBlurhash s
     = Throw (ValidationError (lit "Invalid base83 character: " ++ [c]))) /\
  (forall sizeFlag, 6 <= len s -> sizeFlagOf s = Some sizeFlag ->
     len s <> BlurhashDecoder.expectedLength sizeFlag ->
     let msg := BlurhashDecoder.mismatchMessage (len s)
                  (BlurhashDecoder.expectedLength sizeFlag) in
     BlurhashDecoder.validateBlurhash s = Throw (ValidationError msg) /\
     names msg (len s) = true /\
     names msg (BlurhashDecoder.expectedLength sizeFlag) = true) /\
  (forall e width height punch,
     BlurhashDecoder.validateBlurhash s = Throw e ->
     BlurhashDecoder.decode s width height punch = Throw e).
Proof.
  split_and!.
  - apply validateBlurhash_Ok.
  - apply validateBlurhash_short.
  - intros c Hlen Hhead Hc. destruct s as [|c' s]; [done|].
    injection Hhead as ->. rewrite validateBlurhash_long by done.
    destruct (BlurhashDecoder.indexOf _ c) eqn:E; [|done].
    destruct Hc. unfold inAlphabet. rewrite E. eauto.
  - intros sizeFlag Hlen Hflag Hne msg. destruct s as [|c s]; [done|].
    cbn [sizeFlagOf head mbind option_bind] in Hflag.
    rewrite validateBlurhash_long by done. rewrite Hflag.
    destruct (Z.eqb_spec (len (c :: s)) (BlurhashDecoder.expectedLength sizeFlag));
      [done|].
    split; [done|]. apply mismatchMessage_names.
  - intros e width height punch. apply decode_validation_throw.
Qed.

(** C1, the claim as stated fails: the one-character string ["L"] violates
    the length equation ([numX = 4], [numY = 3], expected length 28), and
    the message of its rejection names neither 1 nor 28. *)
Lemma validateBlurhash_short_message_counterexample :
  sizeFlagOf (lit "L") = Some 21 /\
  len (lit "L") <> BlurhashDecoder.expectedLength 21 /\
  exists msg,
    BlurhashDecoder.validateBlurhash (lit "L") = Throw (ValidationError msg) /\
    names msg (len (lit "L")) = false /\
    names msg (BlurhashDecoder.expectedLength 21) = false.
Proof.
  split; [reflexivity|]. split; [compute_done|].
  eexists. split; [reflexivity|]. split; vm_compute; reflexivity.
Qed.

(** C2 (as amended). For every placeholder string and all positive integer
    dimensions whose raster the engine can allocate, [decode] returns a
    buffer of exactly [width * height * 4] bytes whose byte at index
    [4 * x + 3 + y * width * 4] is 255 for every pixel; when the raster
    cannot be allocated, [decode] throws a [RangeError] and returns nothing.
    In particular the scenario hash at 2 by 2 decodes, without throwing, to
    16 bytes whose 4th, 8th, 12th and 16th bytes are 255. *)
Theorem decode_raster_alpha `{Number} :
  (forall s width height punch,
     PlaceholderString s -> 0 < width -> 0 < height ->
     Allocatable (width * height * 4) ->
     exists raster,
       BlurhashDecoder.decode s width height punch = Ok raster /\
       Z.of_nat (length raster) = width * height * 4 /\
       forall x y, 0 <= x < width -> 0 <= y < height ->
         raster !! Z.to_nat (4 * x + 3 + y * width * 4) = Some 255) /\
  (forall s width height punch,
     PlaceholderString s -> 0 < width -> 0 < height ->
     ~ Allocatable (width * height * 4) ->
     exists msg,
       BlurhashDecoder.decode s width height punch = Throw (RangeError msg)) /\
  (forall punch,
     exists raster,
       BlurhashDecoder.decode scenarioHash 2 2 punch = Ok raster /\
       length raster = 16%nat /\
       raster !! 3%nat = Some 255 /\ raster !! 7%nat = Some 255 /\
       raster !! 11%nat = Some 255 /\ raster !! 15%nat = Some 255).
Proof.
  split_and!.
  - intros s width height punch Hs Hw Hh Ha. apply decode_ok; [done | lia | lia | done].
  - intros s width height punch Hs _ _ Hna. by apply decode_unallocatable.
  - intros punch.
    destruct (decode_ok scenarioHash 2 2 punch scenarioHash_placeholder)
      as (raster & Hd & Hlen & Halpha); [lia | lia | left; lia |].
    exists raster. split; [done|]. split; [lia|].
    split_and!.
    + apply (Halpha 0 0); lia.
    + apply (Halpha 1 0); lia.
    + apply (Halpha 0 1); lia.
    + apply (Halpha 1 1); lia.
Qed.

Lemma decode_raster_alpha_witness :
  exists raster,
    BlurhashDecoder.decode (H := F64) scenarioHash 2 2 1%float = Ok raster /\
    Z.of_nat (length raster) = 2 * 2 * 4 /\
    forall x y, 0 <= x < 2 -> 0 <= y < 2 ->
      raster !! Z.to_nat (4 * x + 3 + y * 2 * 4) = Some 255.
Proof.
  apply (proj1 (@decode_raster_alpha F64) scenarioHash 2 2 1%float).
  - exact scenarioHash_placeholder.
  - lia.
  - lia.
  - left. lia.
Defined.

(** C2, the claim as stated fails: ["000000"] is a placeholder string, and
    at width [2 ^ 51] and height 1 the raster would have [2 ^ 53] bytes, one
    more than any typed array may have: [decode] throws a [RangeError]. *)
Lemma decode_raster_counterexample :
  PlaceholderString (lit "000000") /\ 0 < 2 ^ 51 /\
  BlurhashDecoder.decode (H := F64) (lit "000000") (2 ^ 51) 1 1%float
  = Throw (RangeError (lit "Invalid typed array length: 9007199254740992")).
Proof.
  split_and!.
  - split; [compute_done|]. split; [compute_done|].
    exists 0. split; compute_done.
  - lia.
  - vm_compute. reflexivity.
Qed.

(** C9. Decoding with punch 0 has the very result of decoding with punch
    1, on every string and at all dimensions: a falsy punch ([0], [-0],
    [NaN]) is replaced by 1 before it is used. On a placeholder string, at
    positive dimensions whose raster the engine can allocate, that result
    is a raster. The numbers are IEEE doubles; the engine is arbitrary. *)
Theorem decode_punch_zero (E : Float64.Engine) (s : list N) (width height : Z) :
  let decode := BlurhashDecoder.decode (H := Float64.number E) s width height in
  (decode 0%float = decode 1%float /\ decode (-0)%float = decode 1%float /\
   decode nan = decode 1%float) /\
  (PlaceholderString s -> 0 < width -> 0 < height ->
   Allocatable (H := Float64.number E) (width * height * 4) ->
   exists raster,
     decode 1%float = Ok raster /\ decode 0%float = Ok raster /\
     decode (-0)%float = Ok raster /\ decode nan = Ok raster).
Proof.
  intros decode.
  assert (decode 0%float = decode 1%float /\ decode (-0)%float = decode 1%float /\
          decode nan = decode 1%float) as (H0 & Hm & Hn).
  { split_and!; apply (decode_punch_falsy (H := Float64.number E)); reflexivity. }
  split; [done|]. intros Hs Hw Hh Ha.
  destruct (decode_ok (H := Float64.number E) s width height 1%float Hs)
    as (raster & Hd & _); [lia | lia | done |].
  exists raster. subst decode. cbv beta in *. rewrite H0, Hm, Hn. done.
Qed.

Lemma decode_punch_zero_witness :
  exists raster,
    BlurhashDecoder.decode (H := F64) scenarioHash 2 2 1%float = Ok raster /\
    BlurhashDecoder.decode (H := F64) scenarioHash 2 2 0%float = Ok raster /\
    BlurhashDecoder.decode (H := F64) scenarioHash 2 2 (-0)%float = Ok raster /\
    BlurhashDecoder.decode (H := F64) scenarioHash 2 2 nan = Ok raster.
Proof.
  apply (proj2 (decode_punch_zero SampleEngine.float64 scenarioHash 2 2)).
  - exact scenarioHash_placeholder.
  - lia.
  - lia.
  - left. lia.
Defined.

(** C10. Some string passes the validity check and yet cannot be decoded:
    ["00000!"] has the right length for its size flag, and ['!'] is not in
    the alphabet. More generally every well-sized string with a character
    outside the alphabet is reported valid, and decoding it throws. *)
Theorem valid_but_not_decodable `{Number} :
  (exists s,
     BlurhashDecoder.isBlurhashValid s
     = {| BlurhashDecoder.result_ := true; BlurhashDecoder.errorReason := None |} /\
     forall width height punch,
       exists e, BlurhashDecoder.decode s width height punch = Throw e) /\
  (forall s, WellSized s -> ~ Forall inAlphabet s ->
     BlurhashDecoder.isBlurhashValid s
     = {| BlurhashDecoder.result_ := true; BlurhashDecoder.errorReason := None |} /\
     forall width height punch,
       exists e, BlurhashDecoder.decode s width height punch = Throw e).
Proof.
  assert (forall s, WellSized s -> ~ Forall inAlphabet s ->
     BlurhashDecoder.isBlurhashValid s
     = {| BlurhashDecoder.result_ := true; BlurhashDecoder.errorReason := None |} /\
     forall width height punch,
       exists e, BlurhashDecoder.decode s width height punch = Throw e) as Hgen.
  { intros s Hs Hnot. split.
    - unfold BlurhashDecoder.isBlurhashValid.
      by rewrite (proj2 (validateBlurhash_Ok s) Hs).
    - intros width height punch.
      destruct (decodeColors_bad s punch Hs Hnot) as [e He].
      exists e. unfold BlurhashDecoder.decode. by rewrite He. }
  split; [|exact Hgen].
  exists (lit "00000!"). apply Hgen.
  - split; [compute_done|]. exists 0. split; compute_done.
  - intros Hall. apply Forall_forall with (x := 33%N) in Hall.
    + revert Hall. compute_done.
    + compute_done.
Qed.

Lemma valid_but_not_decodable_witness :
  BlurhashDecoder.isBlurhashValid (lit "LGF5?]00~q%M-;%M%M9Fxu-;tRo ")
  = {| BlurhashDecoder.result_ := true; BlurhashDecoder.errorReason := None |} /\
  forall width height punch,
    exists e, BlurhashDecoder.decode (H := F64)
                (lit "LGF5?]00~q%M-;%M%M9Fxu-;tRo ") width height punch = Throw e.
Proof.
  apply (proj2 (@valid_but_not_decodable F64)).
  - split; [compute_done|]. exists 21. split; compute_done.
  - intros Hall. apply Forall_forall with (x := 32%N) in Hall.
    + revert Hall. compute_done.
    + compute_done.
Defined.

(** ** Base 83 *)

Section Base83Facts.
Import BlurhashDecoder.

Lemma indexOf_lt arr c d : indexOf arr c = Some d -> d < Z.of_nat (length arr).
Proof.
  revert d. induction arr as [|a arr IH]; intros d; cbn [indexOf length]; [done|].
  destruct (a =? c)%N; [intros [= <-]; lia|].
  destruct (indexOf arr c) as [d'|]; cbn; [|done].
  intros [= <-]. specialize (IH d' eq_refl). lia.
Qed.

Lemma indexOf_inj arr c c' d :
  indexOf arr c = Some d -> indexOf arr c' = Some d -> c = c'.
Proof.
  revert d. induction arr as [|a arr IH]; intros d; cbn [indexOf]; [done|].
  destruct (N.eqb_spec a c) as [E1|Hc], (N.eqb_spec a c') as [E2|Hc']; [congruence| | |].
  - intros [= <-]. destruct (indexOf arr c') as [d'|] eqn:E; cbn; [|done].
    apply indexOf_nonneg in E. intros [=]. lia.
  - destruct (indexOf arr c) as [d'|] eqn:E; cbn; [|done].
    apply indexOf_nonneg in E. intros [= <-] [=]. lia.
  - destruct (indexOf arr c) as [d1|] eqn:E1; cbn; [|done].
    destruct (indexOf arr c') as [d2|] eqn:E2; cbn; [|done].
    intros [= <-] [= E]. apply (IH d1); [done|]. f_equal. lia.
Qed.

Lemma digit_bounds c d : indexOf BASE83_CHARS c = Some d -> 0 <= d < 83.
Proof.
  intros Hd. split; [by eapply indexOf_nonneg|].
  apply indexOf_lt in Hd. exact Hd.
Qed.

Lemma len_cons (c : N) s : len (c :: s) = len s + 1.
Proof. unfold len. cbn [length]. lia. Qed.

Lemma len_nonneg (s : list N) : 0 <= len s.
Proof. unfold len. lia. Qed.

(** The loop started at [acc] shifts [acc] past the digits it reads. *)
Lemma decode83_loop_shift str : forall acc,
  decode83_loop str acc
  = (b <- decode83 str ;; Ok (acc * 83 ^ len str + b)).
Proof.
  unfold decode83.
  induction str as [|c str IH]; intros acc; cbn [decode83_loop].
  - cbn [bind]. f_equal. unfold len. cbn. lia.
  - destruct (indexOf BASE83_CHARS c) as [d|]; [|done].
    rewrite (IH (acc * 83 + d)), (IH (0 * 83 + d)).
    destruct (decode83_loop str 0) as [b|e]; cbn [bind]; [|done].
    f_equal. rewrite len_cons, Z.pow_add_r by (pose proof (len_nonneg str); lia). lia.
Qed.

Lemma decode83_cons c str :
  decode83 (c :: str)
  = match indexOf BASE83_CHARS c with
    | Some d => b <- decode83 str ;; Ok (d * 83 ^ len str + b)
    | None => Throw (ValidationError (lit "Invalid base83 character: " ++ [c]))
    end.
Proof.
  unfold decode83 at 1. cbn [decode83_loop].
  destruct (indexOf BASE83_CHARS c) as [d|]; [|done].
  by rewrite decode83_loop_shift.
Qed.

Lemma decode83_range str v :
  decode83 str = Ok v -> 0 <= v < 83 ^ len str.
Proof.
  revert v. induction str as [|c str IH]; intros v.
  - intros [= <-]. done.
  - rewrite decode83_cons. destruct (indexOf BASE83_CHARS c) as [d|] eqn:Hd; [|done].
    destruct (decode83 str) as [b|] eqn:Hb; cbn [bind]; [|done].
    intros [= <-]. apply digit_bounds in Hd. specialize (IH b eq_refl).
    rewrite len_cons, Z.pow_add_r by (pose proof (len_nonneg str); lia). nia.
Qed.

End Base83Facts.

(** ** Rounding of doubles

    What [SFmul], the specification of the multiplication of doubles,
    computes: the product of the mantissas is shifted to the right and
    rounded to the nearest, a tie going to the even mantissa. Rounding is
    monotone, and so is the multiplication by a number that is not
    negative. *)

Section Rounding.

Lemma fexp_eq x : fexp prec emax x = Z.max (x - 53) (-1074).
Proof. reflexivity. Qed.

Lemma iter_pos_nat {A} (f : A -> A) p x : SpecFloat.iter_pos f p x = Nat.iter (Pos.to_nat p) f x.
Proof.
  revert x. induction p as [p IH|p IH|]; intros x; cbn [SpecFloat.iter_pos].
  - rewrite !IH, Pos2Nat.inj_xI.
    replace (S (2 * Pos.to_nat p)) with (Pos.to_nat p + S (Pos.to_nat p))%nat by lia.
    rewrite Nat.iter_add. f_equal. by rewrite Nat.iter_succ_r.
  - rewrite !IH, Pos2Nat.inj_xO.
    replace (2 * Pos.to_nat p)%nat with (Pos.to_nat p + Pos.to_nat p)%nat by lia.
    by rewrite Nat.iter_add.
  - reflexivity.
Qed.

Lemma shr_1_spec m r s :
  0 <= m -> shr_1 {| shr_m := m; shr_r := r; shr_s := s |}
            = {| shr_m := m / 2; shr_r := Z.odd m; shr_s := r || s |}.
Proof.
  intros Hm. rewrite <- Z.div2_div.
  destruct m as [|[p|p|]|p]; try reflexivity. lia.
Qed.

Lemma shifts_spec (k : nat) M :
  0 <= M ->
  Nat.iter (S k) shr_1 {| shr_m := M; shr_r := false; shr_s := false |}
  = {| shr_m := M / 2 ^ Z.of_nat (S k);
       shr_r := Z.odd (M / 2 ^ Z.of_nat k);
       shr_s := negb (M mod 2 ^ Z.of_nat k =? 0) |}.
Proof.
  intros HM. induction k as [|k IH].
  - cbn [Nat.iter]. rewrite shr_1_spec by done.
    change (2 ^ Z.of_nat 1) with 2. change (2 ^ Z.of_nat 0) with 1.
    by rewrite Z.div_1_r, Z.mod_1_r.
  - rewrite Nat.iter_succ, IH.
    assert (0 < 2 ^ Z.of_nat k) as Hk by (apply Z.pow_pos_nonneg; lia).
    assert (2 ^ Z.of_nat (S k) = 2 ^ Z.of_nat k * 2) as Hs
      by (rewrite Nat2Z.inj_succ, Z.pow_succ_r; lia).
    assert (2 ^ Z.of_nat (S (S k)) = 2 ^ Z.of_nat (S k) * 2) as Hss
      by (rewrite (Nat2Z.inj_succ (S k)), Z.pow_succ_r; lia).
    rewrite shr_1_spec by (apply Z.div_pos; lia).
    rewrite Hss, Z.div_div by lia. f_equal.
    rewrite Hs, Z.rem_mul_r by lia.
    pose proof (Z.mod_pos_bound M (2 ^ Z.of_nat k) Hk) as Hb.
    rewrite Zodd_mod.
    pose proof (Z.mod_pos_bound (M / 2 ^ Z.of_nat k) 2 ltac:(lia)) as Hb2.
    set (P := 2 ^ Z.of_nat k) in *. set (b := (M / P) mod 2) in *.
    set (r0 := M mod P) in *.
    destruct (Z.eqb_spec b 1) as [E|E]; destruct (Z.eqb_spec r0 0) as [E0|E0];
      destruct (Z.eqb_spec (r0 + P * b) 0) as [E1|E1]; cbn; try reflexivity;
      exfalso; nia.
Qed.

Lemma round_shr M E n :
  0 <= M -> 0 <= n ->
  exists mrs,
    shr {| shr_m := M; shr_r := false; shr_s := false |} E n = (mrs, E + n) /\
    round_nearest_even (shr_m mrs) (loc_of_shr_record mrs) = rne M n.
Proof.
  intros HM Hn. destruct n as [|p|p]; [| |lia]; eexists; (split; [cbn [shr]; f_equal; lia|]).
  - cbn. unfold rne. change (2 ^ 0) with 1.
    rewrite Z.div_1_r, Z.mod_1_r. reflexivity.
  - rewrite iter_pos_nat.
    destruct (Pos2Nat.is_succ p) as [k Hk]. rewrite Hk, shifts_spec by done.
    assert (Z.pos p = Z.of_nat (S k)) as -> by lia.
    assert (0 < 2 ^ Z.of_nat k) as Hk0 by (apply Z.pow_pos_nonneg; lia).
    assert (2 ^ Z.of_nat (S k) = 2 ^ Z.of_nat k * 2) as Hs
      by (rewrite Nat2Z.inj_succ, Z.pow_succ_r; lia).
    unfold rne. cbv zeta.
    set (q := M / 2 ^ Z.of_nat (S k)).
    assert (M mod 2 ^ Z.of_nat (S k)
            = M mod 2 ^ Z.of_nat k + 2 ^ Z.of_nat k * ((M / 2 ^ Z.of_nat k) mod 2)) as Hr
      by (rewrite Hs, Z.rem_mul_r by lia; reflexivity).
    rewrite Hr, Hs. rewrite Zodd_mod.
    pose proof (Z.mod_pos_bound M (2 ^ Z.of_nat k) Hk0) as Hb.
    pose proof (Z.mod_pos_bound (M / 2 ^ Z.of_nat k) 2 ltac:(lia)) as Hb2.
    set (P := 2 ^ Z.of_nat k) in *. set (b := (M / P) mod 2) in *.
    set (r0 := M mod P) in *.
    destruct (Z.eqb_spec b 1) as [Eb|Eb]; destruct (Z.eqb_spec r0 0) as [E0|E0];
      cbn [negb loc_of_shr_record round_nearest_even shr_m shr_r shr_s].
    + rewrite Eb, E0.
      destruct (Z.ltb_spec (P * 2) (2 * (0 + P * 1))); [lia|].
      destruct (Z.eqb_spec (P * 2) (2 * (0 + P * 1))); [|lia].
      cbn [orb andb]. rewrite <- Z.negb_odd. by destruct (Z.odd q).
    + destruct (Z.ltb_spec (P * 2) (2 * (r0 + P * b))); [done|nia].
    + destruct (Z.ltb_spec (P * 2) (2 * (r0 + P * b))); [nia|].
      destruct (Z.eqb_spec (P * 2) (2 * (r0 + P * b))); [nia|]. done.
    + destruct (Z.ltb_spec (P * 2) (2 * (r0 + P * b))); [nia|].
      destruct (Z.eqb_spec (P * 2) (2 * (r0 + P * b))); [nia|]. done.
Qed.


Lemma pow2_pos n : 0 <= n -> 0 < 2 ^ n.
Proof. intros. apply Z.pow_pos_nonneg; lia. Qed.

Lemma rne_mono M M' n : 0 <= n -> M <= M' -> rne M n <= rne M' n.
Proof.
  intros Hn HM. unfold rne. cbv zeta.
  pose proof (pow2_pos n Hn) as HP. set (P := 2 ^ n) in *.
  pose proof (Z.div_mod M P ltac:(lia)) as H1.
  pose proof (Z.div_mod M' P ltac:(lia)) as H2.
  pose proof (Z.mod_pos_bound M P HP) as B1.
  pose proof (Z.mod_pos_bound M' P HP) as B2.
  set (q := M / P) in *. set (q' := M' / P) in *.
  set (r := M mod P) in *. set (r' := M' mod P) in *.
  assert (q < q' \/ (q = q' /\ r <= r')) as [Hq|[Hq Hr]] by nia.
  - destruct (_ || _), (_ || _); lia.
  - rewrite <- Hq.
    destruct (Z.ltb_spec P (2 * r)), (Z.ltb_spec P (2 * r')),
      (Z.eqb_spec P (2 * r)), (Z.eqb_spec P (2 * r')), (Z.odd q); cbn; lia.
Qed.

Lemma rne_scale M n k : 0 <= n -> 0 <= k -> rne (M * 2 ^ k) (n + k) = rne M n.
Proof.
  intros Hn Hk. unfold rne. cbv zeta.
  pose proof (pow2_pos n Hn) as HP. pose proof (pow2_pos k Hk) as HK.
  rewrite Z.pow_add_r by done.
  rewrite Z.div_mul_cancel_r, Z.mul_mod_distr_r by lia.
  set (P := 2 ^ n) in *. set (K := 2 ^ k) in *. set (r := M mod P).
  assert ((P * K <? 2 * (r * K)) = (P <? 2 * r)) as ->.
  { destruct (Z.ltb_spec (P * K) (2 * (r * K))), (Z.ltb_spec P (2 * r)); try done; nia. }
  assert ((P * K =? 2 * (r * K)) = (P =? 2 * r)) as ->.
  { destruct (Z.eqb_spec (P * K) (2 * (r * K))), (Z.eqb_spec P (2 * r)); try done; nia. }
  done.
Qed.

Lemma rne_range M n d :
  0 <= n -> 0 <= d -> 0 <= M < 2 ^ (n + d) -> 0 <= rne M n <= 2 ^ d.
Proof.
  intros Hn Hd HM. unfold rne. cbv zeta.
  pose proof (pow2_pos n Hn) as HP. pose proof (pow2_pos d Hd) as HD.
  rewrite Z.pow_add_r in HM by done.
  pose proof (Z.div_mod M (2 ^ n) ltac:(lia)) as H1.
  pose proof (Z.mod_pos_bound M (2 ^ n) HP) as B1.
  set (P := 2 ^ n) in *. set (D := 2 ^ d) in *.
  set (q := M / P) in *. set (r := M mod P) in *.
  assert (0 <= q < D) by nia.
  destruct (_ || _); lia.
Qed.

Lemma rne_lower M n d :
  0 <= n -> 0 <= d -> 2 ^ (n + d) <= M -> 2 ^ d <= rne M n.
Proof.
  intros Hn Hd HM. unfold rne. cbv zeta.
  pose proof (pow2_pos n Hn) as HP. pose proof (pow2_pos d Hd) as HD.
  rewrite Z.pow_add_r in HM by done.
  pose proof (Z.div_mod M (2 ^ n) ltac:(lia)) as H1.
  pose proof (Z.mod_pos_bound M (2 ^ n) HP) as B1.
  set (P := 2 ^ n) in *. set (D := 2 ^ d) in *.
  set (q := M / P) in *. set (r := M mod P) in *.
  assert (D <= q) by nia.
  destruct (_ || _); lia.
Qed.

Lemma rne_zero M : rne M 0 = M.
Proof. unfold rne. change (2 ^ 0) with 1. by rewrite Z.div_1_r, Z.mod_1_r. Qed.

(** The number of binary digits. *)
Lemma digits2_bounds (m : positive) :
  2 ^ (Z.pos (digits2_pos m) - 1) <= Z.pos m < 2 ^ Z.pos (digits2_pos m).
Proof.
  induction m as [m IH|m IH|]; cbn [digits2_pos]; [| |done].
  - rewrite Pos2Z.inj_succ.
    replace (Z.succ (Z.pos (digits2_pos m)) - 1) with (Z.succ (Z.pos (digits2_pos m) - 1)) by lia.
    rewrite !Z.pow_succ_r by lia. lia.
  - rewrite Pos2Z.inj_succ.
    replace (Z.succ (Z.pos (digits2_pos m)) - 1) with (Z.succ (Z.pos (digits2_pos m) - 1)) by lia.
    rewrite !Z.pow_succ_r by lia. lia.
Qed.

Lemma Zdigits2_bounds M : 0 < M -> 2 ^ (Zdigits2 M - 1) <= M < 2 ^ Zdigits2 M.
Proof. destruct M as [|m|m]; [lia| |lia]. intros _. apply digits2_bounds. Qed.

Lemma Zdigits2_pos M : 0 < M -> 0 < Zdigits2 M.
Proof. destruct M; cbn; lia. Qed.

Lemma Zdigits2_le M k : 0 < M -> 0 <= k -> M < 2 ^ k -> Zdigits2 M <= k.
Proof.
  intros HM Hk Hlt. pose proof (Zdigits2_bounds M HM) as [Hlo _].
  pose proof (Zdigits2_pos M HM).
  apply Z.nlt_ge. intros Hc.
  assert (2 ^ k <= 2 ^ (Zdigits2 M - 1)) by (apply Z.pow_le_mono_r; lia). lia.
Qed.

Lemma Zdigits2_ge M k : 0 < M -> 2 ^ (k - 1) <= M -> k <= Zdigits2 M.
Proof.
  intros HM Hle. pose proof (Zdigits2_bounds M HM) as [_ Hhi].
  pose proof (Zdigits2_pos M HM).
  apply Z.nlt_ge. intros Hc.
  assert (2 ^ Zdigits2 M <= 2 ^ (k - 1)) by (apply Z.pow_le_mono_r; lia). lia.
Qed.

(** What [binary_round_aux] computes when it shifts to the right. *)
Lemma binary_round_aux_rounded s M E :
  0 < M -> E <= fexp prec emax (Zdigits2 M + E) ->
  binary_round_aux prec emax s M E loc_Exact = pack s (rounded M E) /\
  0 <= fst (rounded M E) < 2 ^ 53 /\ -1074 <= snd (rounded M E).
Proof.
  intros HM Hn. unfold binary_round_aux, rounded, shr_fexp. cbv zeta.
  set (e := fexp prec emax (Zdigits2 M + E)) in *.
  cbn [shr_record_of_loc].
  destruct (round_shr M E (e - E)) as (mrs & -> & ->); [lia | lia |].
  replace (E + (e - E)) with e by lia.
  pose proof (Zdigits2_bounds M HM) as HB.
  pose proof (Zdigits2_pos M HM) as HD.
  assert (-1074 <= e /\ Zdigits2 M + E - 53 <= e) as [He1 He2]
    by (subst e; rewrite fexp_eq; lia).
  assert (0 <= rne M (e - E) <= 2 ^ 53) as HR.
  { apply rne_range; [lia | lia |]. split; [lia|].
    eapply Z.lt_le_trans; [apply HB|]. apply Z.pow_le_mono_r; lia. }
  set (M' := rne M (e - E)) in *.
  destruct (Z.eqb_spec M' (2 ^ 53)) as [->|Hne].
  - change (Zdigits2 (2 ^ 53)) with 54. rewrite fexp_eq.
    replace (Z.max (54 + e - 53) (-1074) - e) with 1 by lia.
    cbn. split; [|lia].
    unfold pack. cbn [fst snd]. reflexivity.
  - assert (fexp prec emax (Zdigits2 M' + e) - e <= 0) as Hshift.
    { rewrite fexp_eq. destruct (Z.eq_dec M' 0) as [->|Hz]; [cbn; lia|].
      assert (Zdigits2 M' <= 53) by (apply Zdigits2_le; lia). lia. }
    assert (shr {| shr_m := M'; shr_r := false; shr_s := false |} e
              (fexp prec emax (Zdigits2 M' + e) - e)
            = ({| shr_m := M'; shr_r := false; shr_s := false |}, e)) as ->.
    { destruct (fexp prec emax (Zdigits2 M' + e) - e); [done | lia | done]. }
    cbn [shr_m fst snd]. split; [|lia]. unfold pack. cbn [fst snd]. reflexivity.
Qed.

Lemma rounded_mono M1 E1 M2 E2 :
  0 < M1 -> 0 < M2 -> E1 <= E2 -> M1 <= M2 * 2 ^ (E2 - E1) ->
  E1 <= fexp prec emax (Zdigits2 M1 + E1) ->
  E2 <= fexp prec emax (Zdigits2 M2 + E2) ->
  le_pair (rounded M1 E1) (rounded M2 E2).
Proof.
  intros H1 H2 HE HM Hn1 Hn2.
  pose proof (Zdigits2_bounds M1 H1) as B1. pose proof (Zdigits2_bounds M2 H2) as B2.
  pose proof (Zdigits2_pos M1 H1) as D1. pose proof (Zdigits2_pos M2 H2) as D2.
  set (k := E2 - E1) in *.
  assert (0 < 2 ^ k) as HK by (apply pow2_pos; lia).
  assert (Zdigits2 M1 <= Zdigits2 M2 + k) as Hd.
  { apply Zdigits2_le; [done | lia |]. rewrite Z.pow_add_r by lia. nia. }
  unfold rounded. cbv zeta.
  set (e1 := fexp prec emax (Zdigits2 M1 + E1)) in *.
  set (e2 := fexp prec emax (Zdigits2 M2 + E2)) in *.
  assert (e1 <= e2) as He by (subst e1 e2; rewrite !fexp_eq; lia).
  assert (-1074 <= e1 /\ Zdigits2 M1 + E1 - 53 <= e1) as [He1 He1']
    by (subst e1; rewrite fexp_eq; lia).
  assert (0 <= rne M1 (e1 - E1) <= 2 ^ 53) as R1.
  { apply rne_range; [lia | lia |]. split; [lia|].
    eapply Z.lt_le_trans; [apply B1|]. apply Z.pow_le_mono_r; lia. }
  assert (-1074 <= e2 /\ Zdigits2 M2 + E2 - 53 <= e2) as [He2 He2']
    by (subst e2; rewrite fexp_eq; lia).
  assert (0 <= rne M2 (e2 - E2) <= 2 ^ 53) as R2.
  { apply rne_range; [lia | lia |]. split; [lia|].
    eapply Z.lt_le_trans; [apply B2|]. apply Z.pow_le_mono_r; lia. }
  unfold le_pair.
  destruct (Z.eq_dec e1 e2) as [Heq|Hlt].
  - assert (rne M1 (e1 - E1) <= rne M2 (e2 - E2)) as Hr.
    { rewrite <- (rne_scale M2 (e2 - E2) k) by lia.
      replace (e2 - E2 + k) with (e1 - E1) by lia. apply rne_mono; [lia | done]. }
    destruct (Z.eqb_spec (rne M1 (e1 - E1)) (2 ^ 53)) as [E1'|E1'];
      destruct (Z.eqb_spec (rne M2 (e2 - E2)) (2 ^ 53)) as [E2'|E2']; cbn [fst snd]; lia.
  - assert (e2 = Zdigits2 M2 + E2 - 53) as He2eq by (subst e2; rewrite fexp_eq in *; lia).
    assert (2 ^ 52 <= rne M2 (e2 - E2)) as Hlow.
    { apply rne_lower; [lia | lia |].
      eapply Z.le_trans; [|apply B2]. apply Z.pow_le_mono_r; lia. }
    destruct (Z.eqb_spec (rne M1 (e1 - E1)) (2 ^ 53)) as [E1'|E1'];
      destruct (Z.eqb_spec (rne M2 (e2 - E2)) (2 ^ 53)) as [E2'|E2']; cbn [fst snd]; lia.
Qed.

Lemma pack_le a b :
  0 <= fst a -> 0 <= fst b -> le_pair a b -> SFleb (pack false a) (pack false b) = true.
Proof.
  destruct a as [m1 f1], b as [m2 f2]. unfold le_pair, pack. cbn [fst snd].
  intros Ha Hb Hle.
  destruct m1 as [|m1|m1]; [| |lia].
  { destruct m2 as [|m2|m2]; [done | | lia]. by destruct (f2 <=? emax - prec). }
  destruct Hle as [|[Hpos Hle]]; [done|].
  destruct m2 as [|m2|m2]; [lia | | lia].
  change (emax - prec) with 971.
  destruct (Z.leb_spec f1 971), (Z.leb_spec f2 971); try done.
  - unfold SFleb, SFcompare.
    destruct (Z.compare_spec f1 f2) as [Heq|Hlt|Hgt]; [|done|lia].
    change (Pos.compare_cont Eq m1 m2) with (Pos.compare m1 m2).
    destruct (Pos.compare_spec m1 m2); [done | done | lia].
  - lia.
Qed.

Lemma pack_nonneg a : 0 <= fst a -> nonneg (pack false a).
Proof.
  destruct a as [[|m|m] f]; unfold pack; cbn [fst snd]; [done | | lia].
  intros _. by destruct (f <=? emax - prec).
Qed.

Lemma valid_finite s m e :
  valid_binary (S754_finite s m e) = true ->
  Z.pos (digits2_pos m) <= 53 /\ -1074 <= e <= 971 /\
  (Z.pos (digits2_pos m) = 53 \/ e = -1074).
Proof.
  cbn. unfold bounded, canonical_mantissa. rewrite fexp_eq.
  change (emax - prec) with 971.
  intros [H1 H2]%andb_true_iff. apply Z.eqb_eq in H1. apply Z.leb_le in H2. lia.
Qed.

Lemma product_digits (a b : positive) :
  Z.pos (digits2_pos a) + Z.pos (digits2_pos b) - 1 <= Zdigits2 (Z.pos (a * b)).
Proof.
  pose proof (digits2_bounds a) as [Ha _]. pose proof (digits2_bounds b) as [Hb _].
  apply Zdigits2_ge; [done|].
  replace (Z.pos (digits2_pos a) + Z.pos (digits2_pos b) - 1 - 1)
    with ((Z.pos (digits2_pos a) - 1) + (Z.pos (digits2_pos b) - 1)) by lia.
  rewrite Z.pow_add_r by lia. rewrite Pos2Z.inj_mul.
  assert (0 < 2 ^ (Z.pos (digits2_pos a) - 1)) by (apply pow2_pos; lia).
  assert (0 < 2 ^ (Z.pos (digits2_pos b) - 1)) by (apply pow2_pos; lia).
  nia.
Qed.

(** A product of two doubles is shifted to the right, never to the left. *)
Lemma product_shift sa ma ea sx mx ex :
  valid_binary (S754_finite sa ma ea) = true ->
  valid_binary (S754_finite sx mx ex) = true ->
  ea + ex <= fexp prec emax (Zdigits2 (Z.pos (ma * mx)) + (ea + ex)).
Proof.
  intros (Ha1 & Ha2 & Ha3)%valid_finite (Hx1 & Hx2 & Hx3)%valid_finite.
  pose proof (product_digits ma mx). rewrite fexp_eq.
  assert (0 < Z.pos (digits2_pos ma)) by done.
  assert (0 < Z.pos (digits2_pos mx)) by done. lia.
Qed.

Lemma SFmul_finite sa ma ea sx mx ex :
  valid_binary (S754_finite sa ma ea) = true ->
  valid_binary (S754_finite sx mx ex) = true ->
  SFmul prec emax (S754_finite sa ma ea) (S754_finite sx mx ex)
  = pack (xorb sa sx) (rounded (Z.pos (ma * mx)) (ea + ex)) /\
  0 <= fst (rounded (Z.pos (ma * mx)) (ea + ex)) < 2 ^ 53.
Proof.
  intros Ha Hx. cbn [SFmul].
  destruct (binary_round_aux_rounded (xorb sa sx) (Z.pos (ma * mx)) (ea + ex))
    as (-> & Hr & _); [done | by eapply product_shift | done].
Qed.

Lemma zero_le_pack s a : 0 <= fst a -> SFleb (S754_zero s) (pack false a) = true.
Proof.
  destruct a as [[|m|m] f]; unfold pack; cbn [fst snd]; [done | | lia].
  intros _. by destruct (f <=? emax - prec).
Qed.

Lemma pack_le_infinity a : 0 <= fst a -> SFleb (pack false a) (S754_infinity false) = true.
Proof.
  destruct a as [[|m|m] f]; unfold pack; cbn [fst snd]; [done | | lia].
  intros _. by destruct (f <=? emax - prec).
Qed.

(** Multiplication by a number that is not negative is monotone. *)
Lemma SFmul_mono a x y :
  valid_binary a = true -> valid_binary x = true -> valid_binary y = true ->
  nonneg a -> nonneg x -> SFleb x y = true ->
  SFmul prec emax a x <> S754_nan -> SFmul prec emax a y <> S754_nan ->
  SFleb (SFmul prec emax a x) (SFmul prec emax a y) = true /\
  nonneg (SFmul prec emax a x) /\ nonneg (SFmul prec emax a y).
Proof.
  intros Va Vx Vy Ha Hx Hxy Hnx Hny.
  destruct a as [sa|sa| |sa ma ea]; [| | done |].
  - destruct x as [sx|sx| |sx mx ex], y as [sy|sy| |sy my ey]; try done.
  - cbn in Ha. subst sa.
    destruct x as [sx|sx| |sx mx ex], y as [sy|sy| |sy my ey]; try done.
    all: cbn in Hx; subst; destruct sy; try done.
  - cbn in Ha. subst sa.
    destruct x as [sx|sx| |sx mx ex]; [| |done|].
    + destruct y as [sy|sy| |sy my ey]; [done | by destruct sy | done |].
      destruct sy; [done|].
      destruct (SFmul_finite false ma ea false my ey Va Vy) as [-> Hr].
      cbn [SFmul xorb]. split_and!; [|done|apply pack_nonneg; lia].
      apply zero_le_pack. lia.
    + cbn in Hx. subst sx.
      destruct y as [sy|sy| |sy my ey]; try done. by destruct sy.
    + cbn in Hx. subst sx.
      destruct (SFmul_finite false ma ea false mx ex Va Vx) as [-> Hrx].
      cbn [xorb].
      destruct y as [sy|sy| |sy my ey]; [done | | done |].
      * destruct sy; [done|]. cbn [SFmul xorb].
        split_and!; [apply pack_le_infinity; lia | apply pack_nonneg; lia | done].
      * destruct sy; [done|].
        destruct (SFmul_finite false ma ea false my ey Va Vy) as [-> Hry].
        cbn [xorb]. split_and!; [|apply pack_nonneg; lia..].
        apply pack_le; [lia | lia |].
        pose proof Vx as (Hx1 & Hx2 & Hx3)%valid_finite.
        pose proof Vy as (Hy1 & Hy2 & Hy3)%valid_finite.
        pose proof (digits2_bounds mx) as Bx. pose proof (digits2_bounds my) as By.
        unfold SFleb, SFcompare in Hxy.
        assert (ex < ey \/ (ex = ey /\ Z.pos mx <= Z.pos my)) as Hord.
        { destruct (Z.compare_spec ex ey) as [Heq|Hlt|Hgt]; [|by left|done].
          right. split; [done|].
          change (Pos.compare_cont Eq mx my) with (Pos.compare mx my) in Hxy.
          destruct (Pos.compare_spec mx my); [lia | lia | done]. }
        apply rounded_mono; [done | done | lia | | | ].
        -- replace (ea + ey - (ea + ex)) with (ey - ex) by lia.
           rewrite !Pos2Z.inj_mul.
           destruct Hord as [Hlt|[-> Hle]].
           ++ assert (Z.pos mx < 2 ^ 53).
              { eapply Z.lt_le_trans; [apply Bx|]. apply Z.pow_le_mono_r; lia. }
              assert (2 ^ 52 <= Z.pos my).
              { replace 52 with (Z.pos (digits2_pos my) - 1) by lia. apply By. }
              assert (2 ^ 1 <= 2 ^ (ey - ex)) as HK by (apply Z.pow_le_mono_r; lia).
              change (2 ^ 1) with 2 in HK.
              assert (Z.pos mx <= 2 * Z.pos my) as Hm.
              { change (2 ^ 53) with (2 * 2 ^ 52) in *. lia. }
              transitivity (Z.pos ma * Z.pos my * 2).
              { replace (Z.pos ma * Z.pos my * 2) with (Z.pos ma * (2 * Z.pos my)) by ring.
                apply Z.mul_le_mono_nonneg_l; lia. }
              apply Z.mul_le_mono_nonneg_l; lia.
           ++ rewrite Z.sub_diag. change (2 ^ 0) with 1. nia.
        -- by eapply product_shift.
        -- by eapply product_shift.
Qed.

Lemma SFmul_comm x y : SFmul prec emax x y = SFmul prec emax y x.
Proof.
  destruct x as [sx|sx| |sx mx ex], y as [sy|sy| |sy my ey]; cbn [SFmul];
    try reflexivity; rewrite ?(xorb_comm sx sy); try reflexivity.
  by rewrite Pos.mul_comm, Z.add_comm.
Qed.

Lemma SFabs_mul x y :
  valid_binary x = true -> valid_binary y = true ->
  SFabs (SFmul prec emax x y) = SFmul prec emax (SFabs x) (SFabs y).
Proof.
  intros Vx Vy.
  destruct x as [sx|sx| |sx mx ex], y as [sy|sy| |sy my ey]; try reflexivity.
  destruct (SFmul_finite sx mx ex sy my ey Vx Vy) as [-> Hr].
  assert (valid_binary (SFabs (S754_finite sx mx ex)) = true) as Vx' by done.
  assert (valid_binary (SFabs (S754_finite sy my ey)) = true) as Vy' by done.
  cbn [SFabs] in Vx', Vy' |- *.
  destruct (SFmul_finite false mx ex false my ey Vx' Vy') as [-> _].
  unfold pack. destruct (fst _); [done | | lia].
  by destruct (_ <=? _).
Qed.

End Rounding.

Section FloatFacts.

Lemma SFmul_one x : valid_binary x = true -> SFmul prec emax x (Prim2SF 1) = x.
Proof.
  intros Vx. change (Prim2SF 1) with (S754_finite false 4503599627370496 (-52)).
  destruct x as [s|s| |s m e]; [by cbn [SFmul]; rewrite xorb_false_r.. | done |].
  destruct (SFmul_finite s m e false 4503599627370496 (-52) Vx eq_refl) as [-> _].
  rewrite xorb_false_r.
  apply valid_finite in Vx as (Hd & He & Hc).
  pose proof (digits2_bounds m) as [Hlo Hhi].
  assert (Zdigits2 (Z.pos (m * 4503599627370496)) = Z.pos (digits2_pos m) + 52) as Hdig.
  { rewrite Pos2Z.inj_mul. change (Z.pos 4503599627370496) with (2 ^ 52).
    apply Z.le_antisymm.
    - apply Zdigits2_le; [lia | lia |]. rewrite Z.pow_add_r by lia. nia.
    - apply Zdigits2_ge; [lia|].
      replace (Z.pos (digits2_pos m) + 52 - 1) with (Z.pos (digits2_pos m) - 1 + 52) by lia.
      rewrite Z.pow_add_r by lia. nia. }
  unfold rounded. cbv zeta. rewrite Hdig, fexp_eq.
  replace (Z.max (Z.pos (digits2_pos m) + 52 + (e + -52) - 53) (-1074)) with e by lia.
  replace (e - (e + -52)) with (0 + 52) by lia.
  rewrite Pos2Z.inj_mul. change (Z.pos 4503599627370496) with (2 ^ 52).
  rewrite rne_scale, rne_zero by lia.
  assert (Z.pos m < 2 ^ 53).
  { eapply Z.lt_le_trans; [apply Hhi|]. apply Z.pow_le_mono_r; lia. }
  destruct (Z.eqb_spec (Z.pos m) (2 ^ 53)); [lia|].
  unfold pack. cbn [fst snd]. change (emax - prec) with 971.
  destruct (Z.leb_spec e 971); [done | lia].
Qed.

Lemma abs_bounded x :
  SFltb (SFabs x) (S754_infinity false) = true -> bounded_float (SFabs x) /\ nonneg (SFabs x).
Proof. by destruct x. Qed.

Lemma valid_abs x : valid_binary x = true -> valid_binary (SFabs x) = true.
Proof. by destruct x. Qed.

Lemma abs_le x y :
  nonneg x -> nonneg y -> SFleb x y = true -> SFleb (SFabs x) (SFabs y) = true.
Proof.
  destruct x as [sx|sx| |sx mx ex], y as [sy|sy| |sy my ey]; cbn; intros; subst; done.
Qed.

Lemma le_bounded x y :
  nonneg x -> SFleb x y = true -> bounded_float y -> bounded_float x.
Proof.
  destruct x as [sx|sx| |sx mx ex], y as [sy|sy| |sy my ey]; cbn; intros; subst; done.
Qed.

Lemma mul_bounded a x :
  valid_binary a = true -> valid_binary x = true ->
  bounded_float a -> bounded_float x -> SFmul prec emax a x <> S754_nan.
Proof.
  intros Va Vx.
  destruct a as [sa|sa| |sa ma ea], x as [sx|sx| |sx mx ex]; try done.
  intros _ _. destruct (SFmul_finite sa ma ea sx mx ex Va Vx) as [-> Hr].
  unfold pack. destruct (fst _); [done | | lia]. by destruct (_ <=? _).
Qed.

Lemma leb_zero_nonneg x : SFleb (S754_zero false) x = true -> nonneg x.
Proof. destruct x as [s|s| |s m e]; cbn; try done; by destruct s. Qed.

Lemma ltb_one x :
  SFltb (Prim2SF 1) x = true -> nonneg x /\ SFleb (Prim2SF 1) x = true /\ x <> S754_nan.
Proof.
  change (Prim2SF 1) with (S754_finite false 4503599627370496 (-52)).
  destruct x as [s|s| |s m e]; [done | by destruct s | done |].
  unfold SFltb, SFleb, SFcompare. destruct s; [done|].
  destruct (-52 ?= e), (Pos.compare_cont Eq 4503599627370496 m); try done;
    intros _; split_and!; done.
Qed.

Lemma ltb_bounded x : SFltb x (S754_infinity false) = true -> nonneg x -> bounded_float x.
Proof. by destruct x as [s|[]| |s m e]. Qed.

Lemma leb_one_bounded x : SFleb x (Prim2SF 1) = true -> nonneg x -> bounded_float x.
Proof.
  change (Prim2SF 1) with (S754_finite false 4503599627370496 (-52)).
  by destruct x as [s|[]| |s m e].
Qed.

(** The magnitude of [sgn * P * (m * p)] against that of
    [sgn * P * (m * 1)], on doubles. *)
Lemma channel_scales (sgn P m p : float) :
  (abs sgn = 1)%float ->
  (abs P <? infinity)%float = true ->
  (0 <=? m)%float = true -> (m <=? 1)%float = true ->
  (1 <? p)%float = true -> (p <? infinity)%float = true ->
  (abs (sgn * P * (m * 1)) <=? abs (sgn * P * (m * p)))%float = true.
Proof.
  intros Hsgn HP Hm0 Hm1 Hp1 Hpi.
  rewrite FloatAxioms.ltb_spec, FloatAxioms.abs_spec in HP. rewrite FloatAxioms.leb_spec in Hm0, Hm1.
  rewrite FloatAxioms.ltb_spec in Hp1, Hpi.
  apply (f_equal Prim2SF) in Hsgn. rewrite FloatAxioms.abs_spec in Hsgn.
  change (Prim2SF 0) with (S754_zero false) in Hm0.
  change (Prim2SF infinity) with (S754_infinity false) in HP, Hpi.
  rewrite FloatAxioms.leb_spec, !FloatAxioms.abs_spec, !FloatAxioms.mul_spec. unfold SF64mul.
  pose proof (Prim2SF_valid sgn) as Vs. pose proof (Prim2SF_valid P) as VP.
  pose proof (Prim2SF_valid m) as Vm. pose proof (Prim2SF_valid p) as Vp.
  pose proof (Prim2SF_valid (sgn * P)) as VsP. rewrite FloatAxioms.mul_spec in VsP. unfold SF64mul in VsP.
  pose proof (Prim2SF_valid (m * 1)) as Vm1. rewrite FloatAxioms.mul_spec in Vm1. unfold SF64mul in Vm1.
  pose proof (Prim2SF_valid (m * p)) as Vmp. rewrite FloatAxioms.mul_spec in Vmp. unfold SF64mul in Vmp.
  set (S := Prim2SF sgn) in *. set (A := Prim2SF P) in *.
  set (M := Prim2SF m) in *. set (X := Prim2SF p) in *.
  rewrite (SFabs_mul (SFmul prec emax S A) (SFmul prec emax M (Prim2SF 1))) by done.
  rewrite (SFabs_mul (SFmul prec emax S A) (SFmul prec emax M X)) by done.
  rewrite (SFabs_mul S A) by done. rewrite Hsgn.
  rewrite (SFmul_comm (Prim2SF 1) (SFabs A)), (SFmul_one (SFabs A)) by by apply valid_abs.
  destruct (abs_bounded A HP) as [HAb HAn].
  destruct (ltb_one X Hp1) as (HXn & HX1 & HXnan).
  pose proof (leb_zero_nonneg M Hm0) as HMn.
  pose proof (leb_one_bounded M Hm1 HMn) as HMb.
  pose proof (ltb_bounded X Hpi HXn) as HXb.
  assert (nonneg (Prim2SF 1)) as H1n by done.
  destruct (SFmul_mono M (Prim2SF 1) X) as (Hle & Hn1 & Hnp);
    [done | done | done | done | done | done | by apply mul_bounded | by apply mul_bounded |].
  (* m * p <= 1 * p = p *)
  assert (bounded_float (SFmul prec emax M X)) as Hfin.
  { destruct (SFmul_mono X M (Prim2SF 1)) as (Hle' & _ & _);
      [done | done | done | done | done | done | by apply mul_bounded | by apply mul_bounded |].
    rewrite (SFmul_comm X M), (SFmul_one X) in Hle' by done.
    by eapply le_bounded. }
  assert (bounded_float (SFmul prec emax M (Prim2SF 1))) as Hfin1
    by (by rewrite SFmul_one).
  assert (forall Y, nonneg Y -> bounded_float Y -> bounded_float (SFabs Y)) as Habs
    by (by intros []).
  destruct (SFmul_mono (SFabs A) (SFabs (SFmul prec emax M (Prim2SF 1)))
              (SFabs (SFmul prec emax M X))) as [Hgoal _]; [by apply valid_abs..| done | | | | | done].
  - by destruct (SFmul prec emax M (Prim2SF 1)).
  - by apply abs_le.
  - apply mul_bounded; [by apply valid_abs.. | done | by apply Habs].
  - apply mul_bounded; [by apply valid_abs.. | done | by apply Habs].
Qed.

End FloatFacts.

(** ** The punch factor *)

Section PunchFacts.
Import BlurhashDecoder.

(** The components of a placeholder string. *)
Lemma decodeColors_lookup `{Number} s (punch : num) :
  PlaceholderString s -> falsy punch = false ->
  exists sizeFlag q colors,
    sizeFlagOf s = Some sizeFlag /\
    decode83 (charAt s 1) = Ok q /\ 0 <= q < 83 /\
    decodeColors s punch
    = Ok (sizeFlag mod 9 + 1, sizeFlag / 9 + 1, colors) /\
    Z.of_nat (length colors) = (sizeFlag mod 9 + 1) * (sizeFlag / 9 + 1) /\
    forall i c, (0 < i)%nat -> colors !! i = Some c ->
      exists value,
        decode83 (substring s (4 + Z.of_nat i * 2) (6 + Z.of_nat i * 2)) = Ok value /\
        0 <= value < 6889 /\
        c = decodeAC value (ofZ (q + 1) / ofZ 166 * punch)%num.
Proof.
  intros Hs Hp. pose proof Hs as [Hall (Hge & sizeFlag & Hflag & Hlen)].
  destruct (decodeColors_ok s punch Hs)
    as (sizeFlag' & colors & Hflag' & Hc & Hcolors).
  assert (sizeFlag' = sizeFlag) as -> by congruence.
  destruct (decode83_ok (charAt s 1)) as (q & Hq & Hq0);
    [by apply Forall_substring|].
  assert (forall a b, a <= b -> len (substring s a b) <= b - a) as Hsub.
  { intros a b Hab. unfold substring, len. rewrite length_take. lia. }
  assert (0 <= q < 83) as Hrange.
  { pose proof (decode83_range _ _ Hq) as Hr. specialize (Hsub 1 (1 + 1) ltac:(lia)).
    fold (charAt s 1) in Hsub. pose proof (len_nonneg (charAt s 1)).
    assert (83 ^ len (charAt s 1) <= 83 ^ 1) by (apply Z.pow_le_mono_r; lia). lia. }
  exists sizeFlag, q, colors. split; [done|]. split; [done|]. split; [done|].
  split; [done|]. split; [done|].
  rewrite (decodeColors_unfold s punch sizeFlag) in Hc by done.
  cbv zeta in Hc. rewrite Hq, Hp in Hc. cbn [bind] in Hc.
  destruct (mapM _ _) as [colors'|] eqn:Hm; [|done].
  cbn [bind] in Hc. injection Hc as ->.
  intros i c Hi Hlookup. apply mapM_Ok in Hm.
  destruct (Forall2_lookup_r _ _ _ _ _ Hm Hlookup) as (j & Hj & Hcolor).
  apply lookup_seqZ in Hj as [-> _]. rewrite Z.add_0_l in Hcolor.
  unfold decodeColor in Hcolor.
  destruct (Z.eqb_spec (Z.of_nat i) 0); [lia|].
  destruct (decode83 (substring s (4 + Z.of_nat i * 2) (6 + Z.of_nat i * 2)))
    as [value|] eqn:Hv; [|done].
  cbn [bind] in Hcolor. injection Hcolor as <-. exists value.
  split; [done|]. split; [|done].
  apply decode83_range in Hv.
  specialize (Hsub (4 + Z.of_nat i * 2) (6 + Z.of_nat i * 2) ltac:(lia)).
  pose proof (len_nonneg (substring s (4 + Z.of_nat i * 2) (6 + Z.of_nat i * 2))).
  assert (83 ^ len (substring s (4 + Z.of_nat i * 2) (6 + Z.of_nat i * 2)) <= 83 ^ 2)
    by (apply Z.pow_le_mono_r; lia).
  lia.
Qed.

Variable E : Float64.Engine.
Hypothesis HE : finiteSquares E = true.

Lemma square_finite quant :
  0 <= quant <= 19 -> (abs (square E quant) <? infinity)%float = true.
Proof.
  intros Hq. unfold finiteSquares in HE. rewrite forallb_forall in HE.
  apply HE, list_elem_of_In, elem_of_seqZ. lia.
Qed.

Lemma sign_unit (val : float) :
  (abs (sign (H := Float64.number E) val) = 1)%float.
Proof. unfold sign. by destruct (_ <? _)%num. Qed.

Lemma signPow_scales quant (m p : float) :
  0 <= quant <= 19 ->
  (0 <=? m)%float = true -> (m <=? 1)%float = true ->
  (1 <? p)%float = true -> (p <? infinity)%float = true ->
  let c := signPow (H := Float64.number E) (ofZ (quant - 9) / ofZ 9)%num (ofZ 2) in
  (abs (c * (m * 1)) <=? abs (c * (m * p)))%float = true.
Proof.
  intros Hq Hm0 Hm1 Hp1 Hpi. cbv zeta. unfold signPow.
  apply (channel_scales _ (square E quant)); [apply sign_unit | by apply square_finite | done..].
Qed.

Lemma decodeAC_scales value (m p : float) :
  0 <= value < 6889 ->
  (0 <=? m)%float = true -> (m <=? 1)%float = true ->
  (1 <? p)%float = true -> (p <? infinity)%float = true ->
  NotSmaller (decodeAC (H := Float64.number E) value (m * 1)%float)
             (decodeAC (H := Float64.number E) value (m * p)%float).
Proof.
  intros Hv Hm0 Hm1 Hp1 Hpi. unfold NotSmaller, decodeAC.
  pose proof (Z.mod_pos_bound (value / 19) 19 ltac:(lia)).
  pose proof (Z.mod_pos_bound value 19 ltac:(lia)).
  assert (0 <= value / (19 * 19) <= 19).
  { split; [apply Z.div_pos; lia|].
    assert (value / (19 * 19) < 20) by (apply Z.div_lt_upper_bound; lia). lia. }
  split_and!; apply signPow_scales; done || lia.
Qed.

Lemma maximumValue_range q :
  0 <= q < 83 ->
  let maximumValue := (ofZ (H := Float64.number E) (q + 1) / ofZ 166)%num in
  (0 <=? maximumValue)%float = true /\ (maximumValue <=? 1)%float = true.
Proof.
  intros Hq.
  assert (forallb (fun q => (0 <=? Float64.of_Q (inject_Z (q + 1)) / Float64.of_Q (inject_Z 166))
                            && (Float64.of_Q (inject_Z (q + 1)) / Float64.of_Q (inject_Z 166) <=? 1))%float
            (seqZ 0 83) = true) as Hall by (vm_compute; reflexivity).
  rewrite forallb_forall in Hall.
  specialize (Hall q). cbv beta in Hall. apply andb_true_iff. apply Hall.
  apply list_elem_of_In, elem_of_seqZ. lia.
Qed.

Lemma punch_not_falsy (p : float) :
  (1 <? p)%float = true -> falsy (Number := Float64.number E) p = false.
Proof.
  intros Hp. cbn [falsy Float64.number]. unfold Float64.is_falsy, is_zero, is_nan.
  rewrite !FloatAxioms.eqb_spec. rewrite FloatAxioms.ltb_spec in Hp.
  change (Prim2SF 1) with (S754_finite false 4503599627370496 (-52)) in Hp.
  change (Prim2SF 0) with (S754_zero false).
  destruct (Prim2SF p) as [s|s| |s m e]; [done | by destruct s | done |].
  destruct s; [done|]. unfold SFeqb, SFcompare.
  rewrite Z.compare_refl. change (Pos.compare_cont Eq m m) with (Pos.compare m m).
  by rewrite Pos.compare_refl.
Qed.

End PunchFacts.

(** C6 (as amended). On doubles, for an engine whose [Math.pow] gives a
    finite number for the squares that [decodeAC] asks for: for every
    placeholder string and every finite punch [p > 1], each channel of each
    AC component (index [i > 0]) decoded under punch [p] is at least as
    large in magnitude as under punch 1; and for every two-character value
    and every [maximumValue] from 0 to 1, each channel of
    [decodeAC(value, maximumValue * p)] is at least as large in magnitude as
    in [decodeAC(value, maximumValue * 1)]. *)
Theorem punch_scales_AC (E : Float64.Engine) (s : list N) (p : float) :
  finiteSquares E = true -> PlaceholderString s ->
  (1 <? p)%float = true -> (p <? infinity)%float = true ->
  (exists numX numY colors1 colorsP,
     BlurhashDecoder.decodeColors (H := Float64.number E) s 1%float
     = Ok (numX, numY, colors1) /\
     BlurhashDecoder.decodeColors (H := Float64.number E) s p = Ok (numX, numY, colorsP) /\
     Z.of_nat (length colors1) = numX * numY /\
     Z.of_nat (length colorsP) = numX * numY /\
     forall i c1 cp, (0 < i)%nat ->
       colors1 !! i = Some c1 -> colorsP !! i = Some cp ->
       NotSmaller (H := Float64.number E) c1 cp) /\
  (forall value (maximumValue : float),
     0 <= value < 83 ^ 2 ->
     (0 <=? maximumValue)%float = true -> (maximumValue <=? 1)%float = true ->
     NotSmaller (H := Float64.number E)
       (BlurhashDecoder.decodeAC (H := Float64.number E) value (maximumValue * 1)%float)
       (BlurhashDecoder.decodeAC (H := Float64.number E) value (maximumValue * p)%float)).
Proof.
  intros HE Hs Hp1 Hpi. split.
  - destruct (decodeColors_lookup (H := Float64.number E) s 1%float Hs)
      as (f1 & q1 & colors1 & Hf1 & Hq1 & Hrange & H1 & Hlen1 & Hl1); [done|].
    destruct (decodeColors_lookup (H := Float64.number E) s p Hs)
      as (fp & qp & colorsP & Hfp & Hqp & _ & HP & HlenP & HlP);
      [by apply punch_not_falsy|].
    assert (fp = f1) as -> by congruence.
    assert (qp = q1) as -> by congruence.
    exists (f1 mod 9 + 1), (f1 / 9 + 1), colors1, colorsP.
    split_and!; [done | done | done | done |].
    intros i c1 cp Hi Hc1 Hcp.
    destruct (Hl1 i c1 Hi Hc1) as (v1 & Hv1 & Hr1 & ->).
    destruct (HlP i cp Hi Hcp) as (vp & Hvp & _ & ->).
    assert (vp = v1) as -> by congruence.
    destruct (maximumValue_range E q1 Hrange) as [Hm0 Hm1].
    by apply decodeAC_scales.
  - intros value maximumValue Hv Hm0 Hm1. apply decodeAC_scales; done || lia.
Qed.

Lemma punch_scales_AC_witness :
  (exists numX numY colors1 colorsP,
     BlurhashDecoder.decodeColors (H := F64) scenarioHash 1%float
     = Ok (numX, numY, colors1) /\
     BlurhashDecoder.decodeColors (H := F64) scenarioHash 2%float = Ok (numX, numY, colorsP) /\
     Z.of_nat (length colors1) = numX * numY /\
     Z.of_nat (length colorsP) = numX * numY /\
     forall i c1 cp, (0 < i)%nat ->
       colors1 !! i = Some c1 -> colorsP !! i = Some cp ->
       NotSmaller (H := F64) c1 cp) /\
  (forall value (maximumValue : float),
     0 <= value < 83 ^ 2 ->
     (0 <=? maximumValue)%float = true -> (maximumValue <=? 1)%float = true ->
     NotSmaller (H := F64)
       (BlurhashDecoder.decodeAC (H := F64) value (maximumValue * 1)%float)
       (BlurhashDecoder.decodeAC (H := F64) value (maximumValue * 2)%float)).
Proof.
  apply (punch_scales_AC SampleEngine.float64 scenarioHash 2%float).
  - vm_compute. reflexivity.
  - exact scenarioHash_placeholder.
  - reflexivity.
  - reflexivity.
Defined.

(** C6, the claim as stated fails on doubles at the punch [Infinity], which
    is above 1: for the placeholder string [100000fQ], whose one AC
    component has the value 3429 (each quantised channel is 9, the middle of
    the range), every channel of that component is [0] under punch 1 and
    [NaN] under punch [Infinity], since [0 * Infinity] is [NaN]; and
    [Math.abs(NaN) >= Math.abs(0)] is false. *)
Lemma punch_scales_AC_counterexample :
  let s := lit "100000fQ" in
  PlaceholderString s /\ (1 <? infinity)%float = true /\
  BlurhashDecoder.decode83 (substring s 6 8) = Ok 3429 /\
  exists dc1 dcP ac1 acP,
    BlurhashDecoder.decodeColors (H := F64) s 1%float = Ok (2, 1, [dc1; ac1]) /\
    BlurhashDecoder.decodeColors (H := F64) s infinity = Ok (2, 1, [dcP; acP]) /\
    ac1 = (0, 0, 0)%float /\
    (let '(r, g, b) := acP in is_nan r && is_nan g && is_nan b = true) /\
    ~ NotSmaller (H := F64) ac1 acP.
Proof.
  split; [|split; [reflexivity|split; [reflexivity|]]].
  { split; [compute_done|]. split; [compute_done|]. exists 1. split; compute_done. }
  do 4 eexists. split; [vm_compute; reflexivity|].
  split; [vm_compute; reflexivity|]. split; [reflexivity|]. split; [reflexivity|].
  intros (Hr & _). revert Hr. vm_compute. discriminate.
Qed.

(** ** The CSS converter *)

Section ConverterFacts.
Context `{Number}.
Import BlurhashDecoder BlurhashCssConverter.






End ConverterFacts.




(** ** The element *)

Ltac branches :=
  repeat (cbn;
    match goal with
    | |- context [if ?c then _ else _] => destruct c eqn:?
    | |- context [match ?c with Some _ => _ | None => _ end] => destruct c eqn:?
    end); cbn.

(** ** The element: what each method leaves alone *)

Section Frames.
Context `{Number}.
Local Arguments generateBlurhashCSS : simpl never.
Local Arguments lit : simpl never.

Lemma render_frame s :
  let s' := render s in
  timers s' = timers s /\ requests s' = requests s /\ log s' = log s /\
  isInViewport s' = isInViewport s /\ loadingTimer s' = loadingTimer s /\
  isImageLoaded s' = isImageLoaded s /\ isImageError s' = isImageError s /\
  loadStartTime s' = loadStartTime s /\ observer s' = observer s /\
  observers s' = observers s /\ attributes s' = attributes s /\ clock s' = clock s.
Proof.
  destruct s. unfold render, createImage, createDiv, createNode, fresh, getAttribute.
  branches; done.
Qed.

Lemma setupIntersectionObserver_frame s :
  let s' := setupIntersectionObserver s in
  timers s' = timers s /\ requests s' = requests s /\
  isInViewport s' = isInViewport s /\ loadingTimer s' = loadingTimer s /\
  isImageLoaded s' = isImageLoaded s /\ isImageError s' = isImageError s /\
  loadStartTime s' = loadStartTime s /\
  exists new, log s' = new ++ log s /\ Silent new.
Proof.
  destruct s. unfold setupIntersectionObserver, cleanupObserver, fresh, emit.
  branches; split_and!; try done.
  - eexists [_; _]. split; [done|]. repeat constructor.
  - eexists [_]. split; [done|]. repeat constructor.
Qed.

Lemma removeDebugIndicator_frame s :
  let s' := removeDebugIndicator s in
  timers s' = timers s /\ requests s' = requests s /\ log s' = log s /\
  isInViewport s' = isInViewport s /\ loadingTimer s' = loadingTimer s /\
  isImageLoaded s' = isImageLoaded s.
Proof.
  destruct s. unfold removeDebugIndicator, classList_remove. branches; done.
Qed.

Lemma addDebugIndicator_frame s :
  let s' := addDebugIndicator s in
  timers s' = timers s /\ requests s' = requests s /\ log s' = log s /\
  isInViewport s' = isInViewport s /\ loadingTimer s' = loadingTimer s /\
  isImageLoaded s' = isImageLoaded s /\ next s' = next s.
Proof.
  destruct s. unfold addDebugIndicator, classList_add_if, classList_add. branches; done.
Qed.

(** [loadImage] either does nothing or initiates exactly one fetch. *)
Lemma loadImage_frame s :
  let s' := loadImage s in
  timers s' = timers s /\ isInViewport s' = isInViewport s /\
  loadingTimer s' = loadingTimer s /\ isImageLoaded s' = isImageLoaded s /\
  (s' = s \/ exists r src, log s' = Fetch r src :: log s).
Proof.
  destruct s. unfold loadImage, fresh, emit. branches; naive_solver.
Qed.

Lemma Silent_NoFetch new : Silent new -> NoFetch new.
Proof. intros Hs. eapply Forall_impl; [exact Hs | naive_solver]. Qed.

(** ** The element: a cycle without a fetch *)

Lemma handleViewportEntry_pending s :
  requests s = ∅ -> timers s = ∅ -> isInViewport s = true ->
  exists new, log (handleViewportEntry s) = new ++ log s /\
    (NoFetch new -> Pending (handleViewportEntry s) /\ Silent new).
Proof.
  intros Hr Ht Hv. unfold handleViewportEntry.
  destruct (isImageLoaded s || isImageError s) eqn:Hflags.
  { exists []. split; [done|]. intros _. split; [|constructor].
    split; [done|]. by left. }
  apply orb_false_elim in Hflags as [Hl He].
  destruct (bool_decide _).
  - destruct (addDebugIndicator_frame s) as (Ht' & Hr' & Hlog & Hv' & _ & Hl' & _).
    revert Ht' Hr' Hlog Hv' Hl'. generalize (addDebugIndicator s). intros s1.
    destruct s1, s. unfold fresh, emit. cbn. intros -> -> -> -> ->.
    eexists [_]. split; [done|]. intros _. split; [|repeat constructor].
    split; [done|]. right. eexists. split_and!; try done.
    cbn in Ht. rewrite Ht. set_solver.
  - destruct (loadImage_frame s) as (Ht' & Hv' & _ & _ & [->|(r & src & Hlog)]).
    + exists []. split; [done|]. intros _. split; [|constructor].
      split; [done|]. by left.
    + eexists [_]. split; [done|]. intros Hno.
      apply Forall_cons in Hno as [? _]. done.
Qed.

Lemma handleViewportExit_pending s :
  requests s = ∅ ->
  (timers s = ∅ \/
   exists t, timers s = {[t]} /\ loadingTimer s = Some t /\ isImageLoaded s = false) ->
  exists new, log (handleViewportExit s) = new ++ log s /\ Silent new /\
    requests (handleViewportExit s) = ∅ /\ timers (handleViewportExit s) = ∅ /\
    isInViewport (handleViewportExit s) = isInViewport s.
Proof.
  intros Hr Ht. unfold handleViewportExit.
  destruct (loadingTimer s) as [t|] eqn:Hlt.
  - destruct (isImageLoaded s) eqn:Hl; cbn [negb].
    + exists []. destruct Ht as [Ht|(t' & _ & _ & ?)]; [|done].
      split_and!; try done. constructor.
    + match goal with |- context [removeDebugIndicator ?x] =>
        destruct (removeDebugIndicator_frame x) as (-> & -> & -> & -> & _) end.
      destruct s. unfold clearTimeout, emit. cbn in *. subst.
      eexists [_]. split_and!; try done; [repeat constructor|].
      destruct Ht as [->|(t' & -> & [= ->] & _)]; set_solver.
  - exists []. destruct Ht as [Ht|(t' & _ & ? & _)]; [|done].
    split_and!; try done. constructor.
Qed.

Lemma NoFetch_app new1 new2 : NoFetch (new2 ++ new1) <-> NoFetch new2 /\ NoFetch new1.
Proof. apply Forall_app. Qed.

Lemma Silent_app new1 new2 : Silent new2 -> Silent new1 -> Silent (new2 ++ new1).
Proof. intros. by apply Forall_app. Qed.

Lemma intersectionEntry_pending s isIntersecting :
  Pending s ->
  exists new, log (intersectionEntry s isIntersecting) = new ++ log s /\
    (NoFetch new -> Pending (intersectionEntry s isIntersecting) /\ Silent new).
Proof.
  intros [Hr Ht]. unfold intersectionEntry.
  destruct (isIntersecting && negb (isInViewport s)) eqn:Henter.
  - apply andb_prop in Henter as [_ Hv%negb_true_iff].
    destruct Ht as [Ht|(t & _ & _ & ? & _)]; [|congruence].
    destruct (handleViewportEntry_pending (set_isInViewport true s))
      as (new & Hlog & Hnew); [by destruct s..|].
    exists new. split; [by destruct s | done].
  - destruct (negb isIntersecting && isInViewport s) eqn:Hexit.
    + destruct (handleViewportExit_pending (set_isInViewport false s))
        as (new & Hlog & Hsilent & Hr' & Ht' & Hv').
      { by destruct s. }
      { destruct Ht as [Ht|(t & ? & ? & _ & ?)]; [left|right; exists t]; by destruct s. }
      exists new. split; [by destruct s|]. intros _. split; [|done].
      split; [done|]. by left.
    + exists []. split; [done|]. intros _. split; [done | constructor].
Qed.

Lemma intersectionEntry_log s isIntersecting :
  exists new, log (intersectionEntry s isIntersecting) = new ++ log s.
Proof.
  unfold intersectionEntry, handleViewportEntry, handleViewportExit,
    loadImage, clearTimeout, removeDebugIndicator, addDebugIndicator,
    classList_add_if, classList_add, classList_remove, fresh, emit.
  destruct s. branches; first [by exists [] | by eexists [_]].
Qed.

Lemma intersection_log entries : forall s,
  exists new, log (foldl intersectionEntry s entries) = new ++ log s.
Proof.
  induction entries as [|b entries IH]; intros s; cbn [foldl]; [by exists []|].
  destruct (IH (intersectionEntry s b)) as [new2 ->].
  destruct (intersectionEntry_log s b) as [new1 ->].
  exists (new2 ++ new1). by rewrite (assoc_L (++)).
Qed.

Lemma intersection_pending entries : forall s,
  Pending s ->
  exists new, log (foldl intersectionEntry s entries) = new ++ log s /\
    (NoFetch new -> Pending (foldl intersectionEntry s entries) /\ Silent new).
Proof.
  induction entries as [|b entries IH]; intros s Hs; cbn [foldl].
  - exists []. split; [done|]. intros _. split; [done | constructor].
  - destruct (intersectionEntry_pending s b Hs) as (new1 & Hlog1 & H1).
    destruct (decide (NoFetch new1)) as [Hno|Hfetch].
    + destruct (H1 Hno) as [Hp Hs1].
      destruct (IH _ Hp) as (new2 & Hlog2 & H2).
      exists (new2 ++ new1). rewrite Hlog2, Hlog1, (assoc_L (++)). split; [done|].
      intros [Hno2 _]%NoFetch_app. destruct (H2 Hno2). split; [done|].
      by apply Silent_app.
    + destruct (intersection_log entries (intersectionEntry s b)) as [new2 Hlog2].
      exists (new2 ++ new1). rewrite Hlog2, Hlog1, (assoc_L (++)). split; [done|].
      by intros [_ ?]%NoFetch_app.
Qed.

Lemma attributeChangedCallback_frame property oldValue newValue s :
  let s' := attributeChangedCallback property oldValue newValue s in
  timers s' = timers s /\ requests s' = requests s /\
  isInViewport s' = isInViewport s /\ loadingTimer s' = loadingTimer s /\
  (isImageLoaded s' = isImageLoaded s \/ isImageLoaded s' = false) /\
  exists new, log s' = new ++ log s /\ Silent new.
Proof.
  unfold attributeChangedCallback. destruct (negb _).
  - set (s1 := set_loadStartTime None
                 (set_isImageError false (set_isImageLoaded false s))).
    assert (timers s1 = timers s /\ requests s1 = requests s /\
            isInViewport s1 = isInViewport s /\ loadingTimer s1 = loadingTimer s /\
            isImageLoaded s1 = false /\ log s1 = log s)
      as (Ht & Hr & Hv & Hl & Hf & Hlog) by by destruct s.
    destruct (render_frame s1) as (Ht' & Hr' & Hlog' & Hv' & Hl' & Hf' & _).
    destruct (_ || _).
    + split_and!; try congruence. { right. congruence. }
      exists []. split; [cbn; congruence | constructor].
    + destruct (setupIntersectionObserver_frame (render s1))
        as (Ht'' & Hr'' & Hv'' & Hl'' & Hf'' & _ & _ & new & Hnew & Hsilent).
      split_and!; try congruence. { right. congruence. }
      exists new. split; [congruence | done].
  - split_and!; try done. { by left. } exists []. split; [done | constructor].
Qed.

Lemma changeAttribute_frame name newValue s :
  let s' := changeAttribute name newValue s in
  timers s' = timers s /\ requests s' = requests s /\
  isInViewport s' = isInViewport s /\ loadingTimer s' = loadingTimer s /\
  (isImageLoaded s' = isImageLoaded s \/ isImageLoaded s' = false) /\
  exists new, log s' = new ++ log s /\ Silent new.
Proof.
  unfold changeAttribute.
  set (s1 := set_attributes _ s).
  assert (timers s1 = timers s /\ requests s1 = requests s /\
          isInViewport s1 = isInViewport s /\ loadingTimer s1 = loadingTimer s /\
          isImageLoaded s1 = isImageLoaded s /\ log s1 = log s)
    as (Ht & Hr & Hv & Hl & Hf & Hlog) by by destruct s.
  destruct (bool_decide _).
  - destruct (attributeChangedCallback_frame name (getAttribute name s) newValue s1)
      as (Ht' & Hr' & Hv' & Hl' & Hf' & new & Hnew & Hsilent).
    split_and!; try congruence.
    all: try by (destruct Hf'; [left | right]; congruence).
    exists new. split; [congruence | done].
  - split_and!; try done. { by left. } exists []. split; [done | constructor].
Qed.

Lemma connectedCallback_frame s :
  let s' := connectedCallback s in
  timers s' = timers s /\ requests s' = requests s /\
  isInViewport s' = isInViewport s /\ loadingTimer s' = loadingTimer s /\
  isImageLoaded s' = isImageLoaded s /\
  exists new, log s' = new ++ log s /\ Silent new.
Proof.
  unfold connectedCallback.
  destruct (render_frame s) as (Ht' & Hr' & Hlog' & Hv' & Hl' & Hf' & _).
  destruct (setupIntersectionObserver_frame (render s))
    as (Ht'' & Hr'' & Hv'' & Hl'' & Hf'' & _ & _ & new & Hnew & Hsilent).
  split_and!; try congruence. exists new. split; [congruence | done].
Qed.

Lemma disconnectedCallback_frame s :
  let s' := disconnectedCallback s in
  requests s' = requests s /\ isInViewport s' = isInViewport s /\
  isImageLoaded s' = isImageLoaded s /\
  (timers s' = timers s /\ loadingTimer s' = loadingTimer s /\ loadingTimer s = None \/
   exists t, loadingTimer s = Some t /\ timers s' = timers s ∖ {[t]}) /\
  exists new, log s' = new ++ log s /\ Silent new.
Proof.
  destruct s. unfold disconnectedCallback, cleanupTimer, cleanupObserver, clearTimeout, emit.
  branches; split_and!; try done; try (by left); try (right; by eexists).
  all: first [ by (exists []; split; [done | constructor])
             | by (eexists [_]; split; [done | repeat constructor])
             | by (eexists [_; _]; split; [done | repeat constructor]) ].
Qed.

Lemma Pending_frame s s' :
  Pending s ->
  timers s' = timers s -> requests s' = requests s ->
  isInViewport s' = isInViewport s -> loadingTimer s' = loadingTimer s ->
  (isImageLoaded s' = isImageLoaded s \/ isImageLoaded s' = false) ->
  Pending s'.
Proof.
  intros [Hr Ht] Ht' Hr' Hv' Hl' Hf'. split; [congruence|].
  destruct Ht as [Ht|(t & Ht & Hl & Hv & Hf)]; [left; congruence|].
  right. exists t. split_and!; try congruence. destruct Hf'; congruence.
Qed.

(** A step from a pending state either initiates a fetch, or stays pending
    and dispatches nothing. *)
Lemma step_pending s e :
  Pending s ->
  exists new, log (step s e) = new ++ log s /\
    (NoFetch new -> Pending (step s e) /\ Silent new).
Proof.
  intros Hs. destruct e as [| |name value|name|o entries|t|r|r|ms]; cbn [step].
  - destruct (connectedCallback_frame s) as (? & ? & ? & ? & ? & new & ? & ?).
    exists new. split; [done|]. intros _. split; [|done].
    eapply Pending_frame; eauto.
  - destruct (disconnectedCallback_frame s) as (Hr & Hv & Hf & Ht & new & ? & ?).
    exists new. split; [done|]. intros _. split; [|done].
    destruct Hs as [Hr0 Ht0]. split; [congruence|]. left.
    destruct Ht as [(-> & _ & Hnone)|(t & Hl & ->)].
    + destruct Ht0 as [?|(t & _ & ? & _)]; [done | congruence].
    + destruct Ht0 as [->|(t' & -> & ? & _)]; [set_solver|].
      assert (t' = t) as -> by congruence. set_solver.
  - destruct (changeAttribute_frame name (Some value) s) as (? & ? & ? & ? & ? & new & ? & ?).
    exists new. split; [done|]. intros _. split; [|done].
    eapply Pending_frame; eauto.
  - destruct (changeAttribute_frame name None s) as (? & ? & ? & ? & ? & new & ? & ?).
    exists new. split; [done|]. intros _. split; [|done].
    eapply Pending_frame; eauto.
  - destruct (bool_decide _); [by apply intersection_pending|].
    exists []. split; [done|]. intros _. split; [done | constructor].
  - destruct (bool_decide _) eqn:Hin.
    + apply bool_decide_eq_true in Hin. unfold loadingTimerCallback.
      set (s1 := set_timers (timers s ∖ {[t]}) s).
      assert (requests s1 = ∅ /\ timers s1 = ∅ /\ log s1 = log s) as (Hr1 & Ht1 & Hlog1).
      { destruct Hs as [Hr Ht]. split_and!; [by destruct s | | by destruct s].
        destruct Ht as [Ht|(t' & Ht & _)]; destruct s; cbn in *; set_solver. }
      destruct (removeDebugIndicator_frame (loadImage s1)) as (Ht2 & Hr2 & Hlog2 & _).
      destruct (loadImage_frame s1) as (Ht' & _ & _ & _ & [Heq|(r & src & Hlog)]).
      * exists []. rewrite Hlog2, Heq. split; [done|]. intros _. split; [|constructor].
        split; [congruence|]. left. congruence.
      * eexists [_]. rewrite Hlog2, Hlog, Hlog1. split; [done|].
        intros Hno. apply Forall_cons in Hno as [? _]. done.
    + exists []. split; [done|]. intros _. split; [done | constructor].
  - destruct Hs as [Hr Ht]. rewrite Hr, lookup_empty.
    exists []. split; [done|]. intros _. split; [done | constructor].
  - destruct Hs as [Hr Ht]. rewrite Hr, lookup_empty.
    exists []. split; [done|]. intros _. split; [done | constructor].
  - exists []. split; [destruct s; reflexivity|]. intros _. split; [|constructor].
    eapply Pending_frame; [exact Hs|..]; try (by destruct s). left. by destruct s.
Qed.

Lemma onload_log rq s :
  log (onload rq s)
  = DispatchEvent (lit "image-loaded") (req_src rq) true true :: log s.
Proof.
  destruct s. unfold onload, classList_add_if, classList_add, emit.
  branches; done.
Qed.

Lemma onerror_log rq s :
  log (onerror rq s)
  = DispatchEvent (lit "image-error") (req_src rq) true true :: log s.
Proof.
  destruct s. unfold onerror, classList_add_if, classList_add, emit.
  branches; done.
Qed.

(** The log only grows. *)
Lemma step_log s e : exists new, log (step s e) = new ++ log s.
Proof.
  destruct e as [| |name value|name|o entries|t|r|r|ms]; cbn [step].
  - destruct (connectedCallback_frame s) as (_ & _ & _ & _ & _ & new & ? & _). eauto.
  - destruct (disconnectedCallback_frame s) as (_ & _ & _ & _ & new & ? & _). eauto.
  - destruct (changeAttribute_frame name (Some value) s)
      as (_ & _ & _ & _ & _ & new & ? & _). eauto.
  - destruct (changeAttribute_frame name None s)
      as (_ & _ & _ & _ & _ & new & ? & _). eauto.
  - destruct (bool_decide _); [apply intersection_log | by exists []].
  - destruct (bool_decide _); [|by exists []]. unfold loadingTimerCallback.
    set (s1 := set_timers (timers s ∖ {[t]}) s).
    assert (log s1 = log s) as <- by by destruct s.
    destruct (removeDebugIndicator_frame (loadImage s1)) as (_ & _ & -> & _).
    destruct (loadImage_frame s1) as (_ & _ & _ & _ & [->|(r & src & ->)]);
      [by exists [] | by eexists [_]].
  - destruct (requests s !! r); [|by exists []].
    rewrite onload_log. eexists [_]. by destruct s.
  - destruct (requests s !! r); [|by exists []].
    rewrite onerror_log. eexists [_]. by destruct s.
  - exists []. by destruct s.
Qed.

Lemma run_log events : forall s, exists new, log (run s events) = new ++ log s.
Proof.
  unfold run. induction events as [|e events IH]; intros s; cbn [foldl]; [by exists []|].
  destruct (IH (step s e)) as [new2 ->]. destruct (step_log s e) as [new1 ->].
  exists (new2 ++ new1). by rewrite (assoc_L (++)).
Qed.

Lemma run_pending events : forall s,
  Pending s ->
  exists new, log (run s events) = new ++ log s /\
    (NoFetch new -> Pending (run s events) /\ Silent new).
Proof.
  induction events as [|e events IH]; intros s Hs.
  - exists []. split; [done|]. intros _. split; [done | constructor].
  - change (run s (e :: events)) with (run (step s e) events).
    destruct (step_pending s e Hs) as (new1 & Hlog1 & H1).
    destruct (decide (NoFetch new1)) as [Hno|Hfetch].
    + destruct (H1 Hno) as [Hp Hs1].
      destruct (IH _ Hp) as (new2 & Hlog2 & H2).
      exists (new2 ++ new1). rewrite Hlog2, Hlog1, (assoc_L (++)). split; [done|].
      intros [Hno2 _]%NoFetch_app. destruct (H2 Hno2). split; [done|].
      by apply Silent_app.
    + destruct (run_log events (step s e)) as [new2 Hlog2].
      exists (new2 ++ new1). rewrite Hlog2, Hlog1, (assoc_L (++)). split; [done|].
      by intros [_ ?]%NoFetch_app.
Qed.

(** ** The element: idle until the next entry *)

Lemma intersection_idle entries : forall s,
  Settled s -> true ∉ entries ->
  exists new, log (foldl intersectionEntry s entries) = new ++ log s /\
    Silent new /\ Settled (foldl intersectionEntry s entries).
Proof.
  induction entries as [|b entries IH]; intros s Hs Hnot; cbn [foldl].
  - exists []. split_and!; [done | constructor | done].
  - apply not_elem_of_cons in Hnot as [Hb Hnot]. destruct b; [done|].
    assert (exists new1, log (intersectionEntry s false) = new1 ++ log s /\
              Silent new1 /\ Settled (intersectionEntry s false))
      as (new1 & Hlog1 & Hs1 & Hset1).
    { unfold intersectionEntry. cbn [andb negb].
      destruct (isInViewport s) eqn:Hv.
      - destruct Hs as [Ht Hr].
        destruct (handleViewportExit_pending (set_isInViewport false s))
          as (new & Hlog & Hsilent & Hr' & Ht' & _); [by destruct s | left; by destruct s |].
        exists new. split_and!; [by destruct s | done | done].
      - exists []. split_and!; [done | constructor | done]. }
    destruct (IH _ Hset1 Hnot) as (new2 & Hlog2 & Hs2 & Hset2).
    exists (new2 ++ new1). rewrite Hlog2, Hlog1, (assoc_L (++)).
    split_and!; [done | by apply Silent_app | done].
Qed.

Lemma step_idle s e :
  Settled s -> entering e = false ->
  exists new, log (step s e) = new ++ log s /\ Silent new /\ Settled (step s e).
Proof.
  intros Hs He. pose proof Hs as [Ht Hr].
  assert (Pending s) as Hp by (split; [done | by left]).
  destruct e as [| |name value|name|o entries|t|r|r|ms]; cbn [step].
  - destruct (connectedCallback_frame s) as (? & ? & _ & _ & _ & new & ? & ?).
    exists new. split_and!; [done | done |]. split; congruence.
  - destruct (disconnectedCallback_frame s) as (? & _ & _ & Ht' & new & ? & ?).
    exists new. split_and!; [done | done |]. split; [|congruence].
    destruct Ht' as [(-> & _)|(t & _ & ->)]; [done|]. rewrite Ht. set_solver.
  - destruct (changeAttribute_frame name (Some value) s) as (? & ? & _ & _ & _ & new & ? & ?).
    exists new. split_and!; [done | done |]. split; congruence.
  - destruct (changeAttribute_frame name None s) as (? & ? & _ & _ & _ & new & ? & ?).
    exists new. split_and!; [done | done |]. split; congruence.
  - cbn [entering] in He. apply bool_decide_eq_false in He.
    destruct (bool_decide _); [by apply intersection_idle|].
    exists []. split_and!; [done | constructor | done].
  - rewrite bool_decide_eq_false_2 by (rewrite Ht; set_solver).
    exists []. split_and!; [done | constructor | done].
  - rewrite Hr, lookup_empty. exists []. split_and!; [done | constructor | done].
  - rewrite Hr, lookup_empty. exists []. split_and!; [done | constructor | done].
  - exists []. split_and!; [by destruct s | constructor | by destruct s].
Qed.

Lemma run_idle events : forall s,
  Settled s -> Forall (fun e => entering e = false) events ->
  exists new, log (run s events) = new ++ log s /\ Silent new /\ Settled (run s events).
Proof.
  induction events as [|e events IH]; intros s Hs Hall.
  - exists []. split_and!; [done | constructor | done].
  - change (run s (e :: events)) with (run (step s e) events).
    apply Forall_cons in Hall as [He Hall].
    destruct (step_idle s e Hs He) as (new1 & Hlog1 & Hs1 & Hset1).
    destruct (IH _ Hset1 Hall) as (new2 & Hlog2 & Hs2 & Hset2).
    exists (new2 ++ new1). rewrite Hlog2, Hlog1, (assoc_L (++)).
    split_and!; [done | by apply Silent_app | done].
Qed.

(** ** The element: coherence of the reachable states *)

Lemma render_coherent s :
  (forall n, is_Some (nodes s !! n) -> (n < next s)%positive) ->
  let s' := render s in
  (next s <= next s')%positive /\
  (forall n, is_Some (nodes s !! n) -> is_Some (nodes s' !! n)) /\
  (forall n, is_Some (nodes s' !! n) -> (n < next s')%positive) /\
  (forall n, n ∈ layers (root s') -> is_Some (nodes s' !! n)) /\
  (forall n, n ∈ layers (root s') -> nodes s !! n = None).
Proof.
  destruct s. unfold render, createImage, createDiv, createNode, fresh, getAttribute.
  cbn [nodes next]. intros Hnodes.
  assert (forall n, (next0 <= n)%positive -> nodes0 !! n = None) as Hfresh.
  { intros n Hn. destruct (nodes0 !! n) eqn:E; [|done].
    specialize (Hnodes n (mk_is_Some _ _ E)). lia. }
  branches; unfold layers; cbn [omap list_omap id backdropLayer blurhashLayer imageLayer errorLayer].
  all: split_and!; [lia | | | |].
  all: try (intros n Hn; rewrite ?lookup_insert_is_Some'; tauto).
  all: try (intros n [x Hx]; repeat (apply lookup_insert_Some in Hx as [[<- _]|[_ Hx]]; [lia|]);
            specialize (Hnodes n (mk_is_Some _ _ Hx)); lia).
  all: try (intros n Hn; repeat (apply elem_of_cons in Hn as [->|Hn]; [apply Hfresh; lia|]);
            by apply elem_of_nil in Hn).
  all: try (intros n Hn; repeat (apply elem_of_cons in Hn as [->|Hn];
              [rewrite ?lookup_insert_is_Some'; auto 10|]);
            by apply elem_of_nil in Hn).
Qed.

Lemma render_preserves s : Coherent s -> Coherent (render s).
Proof.
  intros (Ha & Hb & Hc & Hd & He).
  destruct (render_frame s) as (_ & Hr & _ & _ & _ & _ & _ & _ & Ho & Hos & _).
  destruct (render_coherent s Hc) as (Hnext & Hext & Hc' & Hd' & _).
  split_and!.
  - by rewrite Hos, Ho.
  - intros o. rewrite Ho. intros Hobs%Hb. lia.
  - done.
  - done.
  - intros r rq. rewrite Hr. intros [Hi Hl]%He. split; [by apply Hext|].
    intros layer Hlayer%Hl. by apply Hext.
Qed.

(** A state whose tree and heap are those of [s], up to the class lists
    and attributes of the elements, and whose handles are not older. *)
Lemma Coherent_frame s s' :
  Coherent s ->
  observers s' = observers s -> observer s' = observer s ->
  (next s <= next s')%positive -> root s' = root s ->
  (forall r rq, requests s' !! r = Some rq -> requests s !! r = Some rq) ->
  (forall n, is_Some (nodes s' !! n) <-> is_Some (nodes s !! n)) ->
  Coherent s'.
Proof.
  intros (Ha & Hb & Hc & Hd & He) Hos Ho Hnext Hroot Hr Hn.
  split_and!.
  - by rewrite Hos, Ho.
  - intros o. rewrite Ho. intros Hobs%Hb. lia.
  - intros n Hsome%Hn%Hc. lia.
  - intros n. rewrite Hroot, Hn. apply Hd.
  - intros r rq [Hi Hl]%Hr%He. split; [by apply Hn|].
    intros layer Hlayer%Hl. by apply Hn.
Qed.

Lemma classList_add_nodes c s n m :
  is_Some (nodes (classList_add c s n) !! m) <-> is_Some (nodes s !! m).
Proof. destruct s. cbn. apply lookup_alter_is_Some. Qed.

Lemma classList_remove_nodes c s n m :
  is_Some (nodes (classList_remove c s n) !! m) <-> is_Some (nodes s !! m).
Proof. destruct s. cbn. apply lookup_alter_is_Some. Qed.

Lemma setupIntersectionObserver_preserves s :
  Coherent s ->
  let s' := setupIntersectionObserver s in
  Coherent s' /\
  observer s' = Some (next s) /\ observers s' = {[next s]} /\
  nodes s' = nodes s /\ root s' = root s.
Proof.
  intros (Ha & Hb & Hc & Hd & He). destruct s.
  unfold setupIntersectionObserver, cleanupObserver, fresh, emit, Coherent in *.
  cbn in *. subst observers0. destruct observer0 as [o|]; cbn.
  - rewrite difference_diag_L, (left_id_L ∅ (∪)). split_and!; try done.
    + intros o' [= <-]. lia.
    + intros n Hn%Hc. lia.
  - rewrite (left_id_L ∅ (∪)). split_and!; try done.
    + intros o' [= <-]. lia.
    + intros n Hn%Hc. lia.
Qed.

Lemma loadImage_cases s :
  loadImage s = s \/
  exists image src,
    imageLayer (root s) = Some image /\
    loadImage s
    = emit (Fetch (next s) src)
        (set_requests
           (<[next s := Request image (blurhashLayer (root s)) src]> (requests s))
           (set_next (Pos.succ (next s)) (set_loadStartTime (Some (clock s)) s))).
Proof.
  unfold loadImage. destruct (imageLayer (root s)) as [image|]; [|by left].
  destruct (_ || _); [by left|]. right. eexists _, _. split; [done|].
  by destruct s.
Qed.

Lemma loadImage_preserves s : Coherent s -> Coherent (loadImage s).
Proof.
  intros Hs. destruct (loadImage_cases s) as [->|(image & src & Himage & ->)]; [done|].
  destruct Hs as (Ha & Hb & Hc & Hd & He). destruct s.
  unfold emit, Coherent, layers in *. cbn in *.
  destruct root0 as [css backdrop layer image' error]. cbn in *. subst image'.
  split_and!; try done.
  - intros o Ho%Hb. lia.
  - intros n Hn%Hc. lia.
  - intros r rq [[<- <-]|[_ Hrq]]%lookup_insert_Some; [|by eapply He]. cbn. split.
    + apply Hd. destruct backdrop, layer; set_solver.
    + intros l ->. apply Hd. destruct backdrop; set_solver.
Qed.

Ltac frame_tac s :=
  destruct s;
  unfold addDebugIndicator, removeDebugIndicator, classList_add_if, classList_add,
    classList_remove, clearTimeout, cleanupTimer, fresh, emit;
  branches; try done; try lia;
  try (intros; rewrite ?lookup_alter_is_Some; done);
  try (by intros ? ? [_ ?]%lookup_delete_Some).

Lemma handleViewportEntry_preserves s : Coherent s -> Coherent (handleViewportEntry s).
Proof.
  intros Hs. unfold handleViewportEntry.
  destruct (_ || _); [done|]. destruct (bool_decide _); [|by apply loadImage_preserves].
  eapply Coherent_frame; [exact Hs|..]; frame_tac s.
Qed.

Lemma handleViewportExit_preserves s : Coherent s -> Coherent (handleViewportExit s).
Proof.
  intros Hs. unfold handleViewportExit.
  destruct (loadingTimer s) as [t|]; [|done]. destruct (negb _); [|done].
  eapply Coherent_frame; [exact Hs|..]; frame_tac s.
Qed.

Lemma intersectionEntry_preserves s isIntersecting :
  Coherent s -> Coherent (intersectionEntry s isIntersecting).
Proof.
  intros Hs. unfold intersectionEntry.
  assert (forall v, Coherent (set_isInViewport v s)) as Hset.
  { intros v. eapply Coherent_frame; [exact Hs|..]; frame_tac s. }
  destruct (_ && _); [by apply handleViewportEntry_preserves|].
  destruct (_ && _); [by apply handleViewportExit_preserves | done].
Qed.

Lemma onload_preserves rq r s :
  Coherent s -> Coherent (onload rq (set_requests (delete r (requests s)) s)).
Proof.
  intros Hs. eapply Coherent_frame; [exact Hs|..]; unfold onload; frame_tac s.
Qed.

Lemma onerror_preserves rq r s :
  Coherent s -> Coherent (onerror rq (set_requests (delete r (requests s)) s)).
Proof.
  intros Hs. eapply Coherent_frame; [exact Hs|..]; unfold onerror; frame_tac s.
Qed.

Lemma attributeChangedCallback_preserves property oldValue newValue s :
  Coherent s -> Coherent (attributeChangedCallback property oldValue newValue s).
Proof.
  intros Hs. unfold attributeChangedCallback. destruct (negb _); [|done].
  assert (Coherent (set_loadStartTime None
            (set_isImageError false (set_isImageLoaded false s)))) as Hs1.
  { eapply Coherent_frame; [exact Hs|..]; frame_tac s. }
  destruct (_ || _); [by apply render_preserves|].
  by apply setupIntersectionObserver_preserves, render_preserves.
Qed.

(** Every step keeps the state coherent. *)
Lemma step_preserves s e : Coherent s -> Coherent (step s e).
Proof.
  intros Hs. destruct e as [| |name value|name|o entries|t|r|r|ms]; cbn [step].
  - by apply setupIntersectionObserver_preserves, render_preserves.
  - unfold disconnectedCallback.
    assert (Coherent (cleanupObserver s)) as Hs1.
    { destruct Hs as (Ha & Hb & Hc & Hd & He). destruct s.
      unfold cleanupObserver, emit, Coherent in *. cbn in *.
      destruct observer0; cbn; split_and!; try done. set_solver. }
    revert Hs1. generalize (cleanupObserver s). intros s1 Hs1.
    unfold cleanupTimer. destruct (loadingTimer s1) eqn:E; [|done].
    eapply Coherent_frame; [exact Hs1|..]; frame_tac s1.
  - unfold changeAttribute. destruct (bool_decide _).
    + apply attributeChangedCallback_preserves.
      eapply Coherent_frame; [exact Hs|..]; frame_tac s.
    + eapply Coherent_frame; [exact Hs|..]; frame_tac s.
  - unfold changeAttribute. destruct (bool_decide _).
    + apply attributeChangedCallback_preserves.
      eapply Coherent_frame; [exact Hs|..]; frame_tac s.
    + eapply Coherent_frame; [exact Hs|..]; frame_tac s.
  - destruct (bool_decide _); [|done]. revert s Hs.
    induction entries as [|b entries IH]; intros s Hs; cbn [foldl]; [done|].
    by apply IH, intersectionEntry_preserves.
  - destruct (bool_decide _); [|done]. unfold loadingTimerCallback.
    assert (Coherent (loadImage (set_timers (timers s ∖ {[t]}) s))) as Hs1.
    { apply loadImage_preserves. eapply Coherent_frame; [exact Hs|..]; frame_tac s. }
    revert Hs1. generalize (loadImage (set_timers (timers s ∖ {[t]}) s)). intros s1 Hs1.
    unfold removeDebugIndicator. destruct (blurhashLayer (root s1)); [|done].
    eapply Coherent_frame; [exact Hs1|..]; frame_tac s1.
  - destruct (requests s !! r); [by apply onload_preserves | done].
  - destruct (requests s !! r); [by apply onerror_preserves | done].
  - eapply Coherent_frame; [exact Hs|..]; frame_tac s.
Qed.

Lemma run_preserves events : forall s, Coherent s -> Coherent (run s events).
Proof.
  unfold run. induction events as [|e events IH]; intros s Hs; cbn [foldl]; [done|].
  by apply IH, step_preserves.
Qed.

Lemma initial_coherent : Coherent initial.
Proof.
  unfold Coherent, initial, layers. cbn. split_and!; try done.
  - intros n [x Hx]. by rewrite lookup_empty in Hx.
  - intros n Hn. by apply elem_of_nil in Hn.
Qed.

(** ** The element: class lists *)

Lemma hasClass_nodes c n s s' : nodes s' = nodes s -> hasClass c n s' = hasClass c n s.
Proof. unfold hasClass. by intros ->. Qed.

Lemma hasClass_add c s n :
  is_Some (nodes s !! n) -> hasClass c n (classList_add c s n) = true.
Proof.
  intros [nd Hnd]. destruct s. unfold hasClass, classList_add. cbn in *.
  rewrite lookup_alter_eq, Hnd. cbn. destruct (bool_decide (c ∈ classList nd)) eqn:E.
  - done.
  - cbn. apply bool_decide_eq_true. set_solver.
Qed.

Lemma hasClass_add_mono c c' s n m :
  hasClass c n s = true -> hasClass c n (classList_add c' s m) = true.
Proof.
  destruct s. unfold hasClass, classList_add. cbn.
  destruct (decide (m = n)) as [->|Hne].
  - rewrite lookup_alter_eq. destruct (nodes0 !! n) as [nd|]; [|done]. cbn.
    intros Hc%bool_decide_eq_true. destruct (bool_decide (c' ∈ classList nd)).
    + by apply bool_decide_eq_true.
    + cbn. apply bool_decide_eq_true. set_solver.
  - by rewrite lookup_alter_ne.
Qed.

Lemma hasClass_add_ne c c' s n m :
  c <> c' -> hasClass c n (classList_add c' s m) = hasClass c n s.
Proof.
  intros Hc. destruct s. unfold hasClass, classList_add. cbn.
  destruct (decide (m = n)) as [->|Hne].
  - rewrite lookup_alter_eq. destruct (nodes0 !! n) as [nd|]; [|done]. cbn.
    destruct (bool_decide (c' ∈ classList nd)); [done|]. cbn.
    apply bool_decide_ext. set_solver.
  - by rewrite lookup_alter_ne.
Qed.

Lemma hasClass_add_if_ne c c' s n layer :
  c <> c' -> hasClass c n (classList_add_if c' layer s) = hasClass c n s.
Proof. intros. destruct layer; [by apply hasClass_add_ne | done]. Qed.

Lemma hasClass_add_if_mono c c' s n layer :
  hasClass c n s = true -> hasClass c n (classList_add_if c' layer s) = true.
Proof. intros. destruct layer; [by apply hasClass_add_mono | done]. Qed.

Lemma hasClass_setSrc c n src m s : hasClass c n (setSrc src m s) = hasClass c n s.
Proof.
  destruct s. unfold hasClass, setSrc. cbn.
  destruct (decide (m = n)) as [->|Hne].
  - rewrite lookup_alter_eq. by destruct (nodes0 !! n).
  - by rewrite lookup_alter_ne.
Qed.

Lemma setSrc_nodes src m s n :
  is_Some (nodes (setSrc src m s) !! n) <-> is_Some (nodes s !! n).
Proof. destruct s. cbn. apply lookup_alter_is_Some. Qed.

(** [onload], step by step. *)
Lemma onload_unfold rq s :
  onload rq s
  = emit (DispatchEvent (lit "image-loaded") (req_src rq) true true)
      (set_isImageLoaded true
         (classList_add_if (lit "fade-out") (req_blurhashLayer rq)
            (classList_add (lit "loaded")
               (setSrc (req_src rq) (req_imageLayer rq)
                  (if ((match loadStartTime s with
                        | Some start => if start =? 0 then 999 else clock s - start
                        | None => 999
                        end) <? 200) && bool_decide (is_Some (req_blurhashLayer rq))
                   then classList_add (lit "no-animation") s (req_imageLayer rq)
                   else s))
               (req_imageLayer rq)))).
Proof. reflexivity. Qed.

End Frames.

(** ** Claims about the element *)

(** C7. Start from any state in which nothing is armed or in flight (a
    fresh instance is one) and run any sequence of host events. If no fetch
    was initiated during it and the element is outside the viewport at its
    end (whatever entries it had were followed by an exit), then no timeout
    is armed any more and no request is in flight; and as long as the
    observer reports no new entry, no later event initiates a fetch or
    dispatches [image-loaded] or [image-error]. *)
Theorem early_exit_cancels_load `{Number} (s0 : state) (events later : list event)
    (new : list effect) :
  Settled s0 ->
  log (run s0 events) = new ++ log s0 ->
  NoFetch new ->
  isInViewport (run s0 events) = false ->
  Forall (fun e => entering e = false) later ->
  timers (run s0 events) = ∅ /\
  requests (run s0 events) = ∅ /\
  Silent new /\
  exists new',
    log (run (run s0 events) later) = new' ++ new ++ log s0 /\ Silent new'.
Proof.
  intros [Ht Hr] Hlog Hno Hv Hlater.
  destruct (run_pending events s0) as (new0 & Hlog0 & Hnew0).
  { split; [done | by left]. }
  assert (new0 = new) as ->.
  { rewrite Hlog in Hlog0. by apply app_inv_tail in Hlog0. }
  destruct (Hnew0 Hno) as [[Hr' Ht'] Hsilent].
  assert (timers (run s0 events) = ∅) as Ht''.
  { destruct Ht' as [?|(t & _ & _ & ? & _)]; [done | congruence]. }
  split_and!; try done.
  destruct (run_idle later (run s0 events)) as (new' & Hlog' & Hsilent' & _);
    [done | done |].
  exists new'. by rewrite Hlog', Hlog.
Qed.

Lemma early_exit_cancels_load_witness :
  let s0 := run (H := F64) initial
              [SetAttribute (lit "debug") []; SetAttribute (lit "src") (lit "a.png");
               Connected] in
  let events := [Intersection 4 [true]; Elapse 100; Intersection 4 [false]] in
  let later := [Timeout 5; Elapse 5000; Disconnected] in
  let new := [ClearTimeout 5; SetTimeout 5 3000] in
  timers (run (H := F64) s0 events) = ∅ /\
  requests (run (H := F64) s0 events) = ∅ /\
  Silent new /\
  exists new',
    log (run (H := F64) (run (H := F64) s0 events) later) = new' ++ new ++ log s0 /\
    Silent new'.
Proof.
  apply (early_exit_cancels_load (H := F64)).
  - split; reflexivity.
  - reflexivity.
  - repeat constructor.
  - reflexivity.
  - repeat constructor.
Defined.

(** ** Attribute changes *)

Section AttributeFacts.
Context `{Number}.

Lemma setupIntersectionObserver_log s :
  log (setupIntersectionObserver s)
  = Observe (next s)
      :: (match observer s with Some o => [Disconnect o] | None => [] end ++ log s).
Proof.
  destruct s. unfold setupIntersectionObserver, cleanupObserver, fresh, emit. cbn.
  by destruct observer0.
Qed.

End AttributeFacts.

(** C3 (as amended). Whenever a watched attribute changes to a different
    value, the loaded and errored flags and the load start time are cleared
    and the shadow tree is rendered anew, its layers being new elements. If
    the attribute is neither [debug] nor [debug-delay], the visibility
    observer is disconnected and a new one is created and connected: it is
    the only connected observer, and a notification of any observer
    connected before changes nothing. If the attribute is [debug] or
    [debug-delay], the observer is kept as it is. *)
Theorem attribute_change_resets `{Number} (s : state) (property : list N)
    (oldValue newValue : option (list N)) :
  Coherent s -> oldValue <> newValue ->
  let s' := attributeChangedCallback property oldValue newValue s in
  isImageLoaded s' = false /\ isImageError s' = false /\ loadStartTime s' = None /\
  (forall n, n ∈ layers (root s') -> nodes s !! n = None /\ is_Some (nodes s' !! n)) /\
  (property <> lit "debug" -> property <> lit "debug-delay" ->
     exists o,
       observer s' = Some o /\ observers s' = {[o]} /\ (o ∉ observers s) /\
       (forall o0, observer s = Some o0 -> Disconnect o0 ∈ log s') /\
       forall o0 entries, o0 ∈ observers s -> step s' (Intersection o0 entries) = s') /\
  (property = lit "debug" \/ property = lit "debug-delay" ->
     observer s' = observer s /\ observers s' = observers s).
Proof.
  intros Hs Hne s'. subst s'. unfold attributeChangedCallback.
  rewrite bool_decide_eq_false_2 by done. cbn [negb].
  set (s1 := set_loadStartTime None (set_isImageError false (set_isImageLoaded false s))).
  assert (isImageLoaded s1 = false /\ isImageError s1 = false /\
          loadStartTime s1 = None /\ nodes s1 = nodes s /\ next s1 = next s /\
          observer s1 = observer s /\ observers s1 = observers s /\ log s1 = log s)
    as (Hl & He & Ht & Hn & Hnext & Ho & Hos & Hlog) by by destruct s.
  pose proof Hs as (Ha & Hb & Hc & Hd & Hreq).
  destruct (render_frame s1) as (_ & _ & Hlog' & _ & _ & Hl' & He' & Ht' & Ho' & Hos' & _).
  destruct (render_coherent s1) as (Hnext' & _ & _ & Hlayers & Hfresh).
  { rewrite Hn, Hnext. exact Hc. }
  destruct (bool_decide (property = lit "debug") || bool_decide (property = lit "debug-delay"))
    eqn:Hdebug.
  - split_and!; try congruence.
    + intros n Hin. split; [rewrite <- Hn; by apply Hfresh | by apply Hlayers].
    + intros Hp1 Hp2. apply orb_prop in Hdebug as [Hp%bool_decide_eq_true|Hp%bool_decide_eq_true]; done.
    + intros _. split; congruence.
  - apply orb_false_elim in Hdebug as [Hp1%bool_decide_eq_false Hp2%bool_decide_eq_false].
    destruct (setupIntersectionObserver_frame (render s1))
      as (_ & _ & _ & _ & Hl'' & He'' & Ht'' & _).
    destruct (setupIntersectionObserver_preserves (render s1))
      as (_ & Ho'' & Hos'' & Hn'' & Hroot'').
    { apply render_preserves. eapply Coherent_frame; [exact Hs|..]; by destruct s. }
    split_and!; try congruence.
    + intros n Hin. rewrite Hroot'' in Hin. rewrite Hn''.
      split; [rewrite <- Hn; by apply Hfresh | by apply Hlayers].
    + intros _ _. exists (next (render s1)).
      assert (forall o0, o0 ∈ observers s -> o0 <> next (render s1)) as Hold.
      { intros o0 Hin Heq. rewrite Ha in Hin. destruct (observer s) as [o|] eqn:E.
        - apply elem_of_singleton in Hin. specialize (Hb _ eq_refl). lia.
        - by apply elem_of_empty in Hin. }
      split_and!; [done | done | | |].
      * intros Hin. by apply (Hold _ Hin).
      * intros o0 Hobs. rewrite setupIntersectionObserver_log, Ho', Ho, Hobs.
        apply elem_of_cons. right. apply elem_of_cons. by left.
      * intros o0 entries Hin. cbn [step]. rewrite Hos''.
        rewrite bool_decide_eq_false_2; [done|].
        intros Heq%elem_of_singleton. by apply (Hold _ Hin).
    + intros [?|?]; done.
Qed.

Lemma attribute_change_resets_witness :
  let s := run (H := F64) initial
             [SetAttribute (lit "src") (lit "a.png"); Connected;
              Intersection 4 [true]; Load 5] in
  let s' := attributeChangedCallback (H := F64) (lit "src")
              (Some (lit "a.png")) (Some (lit "b.png")) s in
  isImageLoaded s = true /\
  isImageLoaded s' = false /\ isImageError s' = false /\ loadStartTime s' = None /\
  (forall n, n ∈ layers (root s') -> nodes s !! n = None /\ is_Some (nodes s' !! n)) /\
  (lit "src" <> lit "debug" -> lit "src" <> lit "debug-delay" ->
     exists o,
       observer s' = Some o /\ observers s' = {[o]} /\ (o ∉ observers s) /\
       (forall o0, observer s = Some o0 -> Disconnect o0 ∈ log s') /\
       forall o0 entries, o0 ∈ observers s ->
         step (H := F64) s' (Intersection o0 entries) = s') /\
  (lit "src" = lit "debug" \/ lit "src" = lit "debug-delay" ->
     observer s' = observer s /\ observers s' = observers s).
Proof.
  split; [reflexivity|].
  apply (attribute_change_resets (H := F64)).
  - apply run_preserves, initial_coherent.
  - discriminate.
Defined.

(** C3, the claim as stated fails twice. A change of [debug-delay] keeps
    the observer: none is disconnected and none is created. And a change of
    [src] while the debug timeout is armed leaves it armed: it fires
    afterwards and initiates the fetch of the new source. *)
Lemma attribute_change_counterexample :
  let connected := run (H := F64) initial
                     [SetAttribute (lit "debug") []; SetAttribute (lit "src") (lit "a.png");
                      Connected] in
  let delayed := step (H := F64) connected (SetAttribute (lit "debug-delay") (lit "10")) in
  let pending := run (H := F64) connected [Intersection 4 [true]; Elapse 100] in
  let changed := step (H := F64) pending (SetAttribute (lit "src") (lit "b.png")) in
  (observer connected = Some 4%positive /\ observer delayed = Some 4%positive /\
   log delayed = log connected) /\
  (timers pending = {[5%positive]} /\ timers changed = {[5%positive]} /\
   log (step (H := F64) changed (Timeout 5)) = Fetch 8 (lit "b.png") :: log changed).
Proof. split; split_and!; vm_compute; reflexivity. Qed.

(** ** The load callback *)

Section LoadFacts.
Context `{Number}.

Lemma class_names_differ :
  lit "no-animation" <> lit "loaded" /\ lit "no-animation" <> lit "fade-out".
Proof. split; discriminate. Qed.

Lemma srcAttr_add c s n m :
  srcAttr <$> nodes (classList_add c s n) !! m = srcAttr <$> nodes s !! m.
Proof.
  destruct s. unfold classList_add. cbn.
  destruct (decide (n = m)) as [->|Hne].
  - rewrite lookup_alter_eq. destruct (nodes0 !! m) as [nd|]; [|done]. cbn.
    by destruct (bool_decide _).
  - by rewrite lookup_alter_ne.
Qed.

Lemma srcAttr_add_if c layer s m :
  srcAttr <$> nodes (classList_add_if c layer s) !! m = srcAttr <$> nodes s !! m.
Proof. destruct layer; [apply srcAttr_add | done]. Qed.

Lemma srcAttr_setSrc src s n :
  is_Some (nodes s !! n) -> srcAttr <$> nodes (setSrc src n s) !! n = Some src.
Proof.
  intros [nd Hnd]. destruct s. unfold setSrc. cbn in *.
  by rewrite lookup_alter_eq, Hnd.
Qed.

End LoadFacts.

(** C4 (as amended). When the load callback of a request in flight runs
    on a coherent state, the instance is marked loaded, the image layer
    captured by that request gets the request's source and the class
    [loaded], and a bubbling, composed [image-loaded] event with detail
    [{ src }] is dispatched. If the request captured a blurhash layer
    (placeholder mode), that layer gets [fade-out]; and with [start] the load
    start time held by the instance at that moment (set and not zero; it is
    the start time of the latest request, which need not be this one): under
    200 ms since [start] the captured image layer also gets [no-animation];
    at 200 ms or more the callback leaves the class [no-animation] of that
    layer as it was, neither adding nor removing it. If the request captured
    no blurhash layer (fallback mode), or the instance holds no load start
    time any more, the callback leaves [no-animation] as it was, whatever
    the elapsed time. *)
Theorem load_success_outcome `{Number} (s : state) (r : positive) (rq : request) :
  Coherent s -> requests s !! r = Some rq ->
  let s' := step s (Load r) in
  let image := req_imageLayer rq in
  isImageLoaded s' = true /\
  log s' = DispatchEvent (lit "image-loaded") (req_src rq) true true :: log s /\
  hasClass (lit "loaded") image s' = true /\
  srcAttr <$> nodes s' !! image = Some (req_src rq) /\
  (forall layer, req_blurhashLayer rq = Some layer ->
     hasClass (lit "fade-out") layer s' = true /\
     forall start, loadStartTime s = Some start -> start <> 0 ->
       (clock s - start < 200 -> hasClass (lit "no-animation") image s' = true) /\
       (200 <= clock s - start ->
        hasClass (lit "no-animation") image s'
        = hasClass (lit "no-animation") image s)) /\
  (req_blurhashLayer rq = None \/ loadStartTime s = None ->
     hasClass (lit "no-animation") image s' = hasClass (lit "no-animation") image s).
Proof.
  intros Hs Hrq s' image. subst s'. cbn [step]. rewrite Hrq.
  destruct Hs as (_ & _ & _ & _ & Hreq). destruct (Hreq r rq Hrq) as [Himage Hlayer].
  fold image in Himage.
  set (s0 := set_requests (delete r (requests s)) s).
  assert (nodes s0 = nodes s /\ log s0 = log s /\ loadStartTime s0 = loadStartTime s
          /\ clock s0 = clock s) as (Hn0 & Hlog0 & Hstart0 & Hclock0) by by destruct s.
  rewrite <- (hasClass_nodes (lit "no-animation") image s s0) by done.
  rewrite <- Hlog0, <- Hstart0, <- Hclock0. rewrite <- Hn0 in Himage, Hlayer.
  clearbody s0. clear dependent s. rename s0 into s.
  rewrite (onload_unfold rq s). fold image.
  set (duration := match loadStartTime s with
                   | Some start => if start =? 0 then 999 else clock s - start
                   | None => 999
                   end).
  set (s1 := if (duration <? 200) && bool_decide (is_Some (req_blurhashLayer rq))
             then classList_add (lit "no-animation") s image else s).
  set (s2 := setSrc (req_src rq) image s1).
  set (s3 := classList_add (lit "loaded") s2 image).
  set (s4 := classList_add_if (lit "fade-out") (req_blurhashLayer rq) s3).
  set (s5 := set_isImageLoaded true s4).
  assert (forall n, is_Some (nodes s1 !! n) <-> is_Some (nodes s !! n)) as Hn1.
  { intros n. subst s1. destruct (_ && _); [apply classList_add_nodes | done]. }
  assert (forall c n, hasClass c n (emit (DispatchEvent (lit "image-loaded")
            (req_src rq) true true) s5) = hasClass c n s4) as Hfinal.
  { intros c n. apply hasClass_nodes. by destruct s4. }
  assert (hasClass (lit "no-animation") image s4
          = hasClass (lit "no-animation") image s1) as Hna.
  { subst s4 s3 s2. destruct class_names_differ.
    by rewrite hasClass_add_if_ne, hasClass_add_ne, hasClass_setSrc. }
  split_and!.
  - by destruct s4.
  - subst s5. destruct s4 eqn:E4. cbn.
    assert (log s4 = log s) as Hlog.
    { subst s4 s3 s2 s1.
      destruct (req_blurhashLayer rq), (_ && _), s; reflexivity. }
    rewrite E4 in Hlog. cbn in Hlog. by rewrite Hlog.
  - rewrite Hfinal. subst s4. apply hasClass_add_if_mono. subst s3.
    apply hasClass_add. subst s2. by apply setSrc_nodes, Hn1.
  - assert (nodes (emit (DispatchEvent (lit "image-loaded") (req_src rq) true true) s5)
            = nodes s4) as -> by by destruct s4.
    subst s4 s3 s2. rewrite srcAttr_add_if, srcAttr_add.
    by apply srcAttr_setSrc, Hn1.
  - intros layer Hl. split.
    + rewrite Hfinal. subst s4. rewrite Hl. cbn [classList_add_if].
      apply hasClass_add. subst s3. apply classList_add_nodes.
      subst s2. apply setSrc_nodes, Hn1. by apply Hlayer.
    + intros start Hstart Hnz. rewrite Hfinal, Hna. subst s1 duration.
      rewrite Hstart, Hl. destruct (Z.eqb_spec start 0); [done|].
      rewrite bool_decide_eq_true_2 by eauto. rewrite andb_true_r. split.
      * intros Hlt. destruct (Z.ltb_spec (clock s - start) 200); [|lia].
        by apply hasClass_add.
      * intros Hge. by destruct (Z.ltb_spec (clock s - start) 200); [lia|].
  - intros Hcase. rewrite Hfinal, Hna. subst s1 duration.
    destruct Hcase as [->| ->].
    + rewrite bool_decide_eq_false_2 by (by intros [? ?]). by rewrite andb_false_r.
    + done.
Qed.

Lemma load_success_outcome_witness :
  let s := run (H := F64) initial
             [SetAttribute (lit "src-width") (lit "4");
              SetAttribute (lit "src-height") (lit "3");
              SetAttribute (lit "blurhash") (lit "x");
              SetAttribute (lit "src") (lit "a.png");
              Connected; Elapse 1000; Intersection 16 [true]; Elapse 50] in
  let rq := Request 14 (Some 13%positive) (lit "a.png") in
  let s' := step (H := F64) s (Load 17) in
  let image := req_imageLayer rq in
  isImageLoaded s' = true /\
  log s' = DispatchEvent (lit "image-loaded") (req_src rq) true true :: log s /\
  hasClass (lit "loaded") image s' = true /\
  srcAttr <$> nodes s' !! image = Some (req_src rq) /\
  (forall layer, req_blurhashLayer rq = Some layer ->
     hasClass (lit "fade-out") layer s' = true /\
     forall start, loadStartTime s = Some start -> start <> 0 ->
       (clock s - start < 200 -> hasClass (lit "no-animation") image s' = true) /\
       (200 <= clock s - start ->
        hasClass (lit "no-animation") image s'
        = hasClass (lit "no-animation") image s)) /\
  (req_blurhashLayer rq = None \/ loadStartTime s = None ->
     hasClass (lit "no-animation") image s' = hasClass (lit "no-animation") image s).
Proof.
  apply (load_success_outcome (H := F64)).
  - apply run_preserves, initial_coherent.
  - reflexivity.
Defined.

(** C4, the claim as stated fails twice. In fallback mode a load that
    completes 50 ms after the fetch was initiated leaves the image layer
    without [no-animation]. In placeholder mode a change of a watched
    attribute while the request is in flight clears the load start time, and
    a load that completes 50 ms after the fetch was initiated again leaves
    the captured image layer without [no-animation]. *)
Lemma load_success_counterexample :
  let fallback := run (H := F64) initial
                    [SetAttribute (lit "src") (lit "a.png"); Connected; Elapse 1000;
                     Intersection 4 [true]; Elapse 50] in
  let placeholder := run (H := F64) initial
                       [SetAttribute (lit "src-width") (lit "4");
                        SetAttribute (lit "src-height") (lit "3");
                        SetAttribute (lit "blurhash") (lit "x");
                        SetAttribute (lit "src") (lit "a.png");
                        Connected; Elapse 1000; Intersection 16 [true]; Elapse 20;
                        SetAttribute (lit "alt") (lit "photo"); Elapse 30] in
  (requests fallback !! 5%positive = Some (Request 3 None (lit "a.png")) /\
   loadStartTime fallback = Some 1000 /\ clock fallback = 1050 /\
   hasClass (lit "loaded") 3 (step (H := F64) fallback (Load 5)) = true /\
   hasClass (lit "no-animation") 3 (step (H := F64) fallback (Load 5)) = false) /\
  (requests placeholder !! 17%positive
   = Some (Request 14 (Some 13%positive) (lit "a.png")) /\
   loadStartTime placeholder = None /\ clock placeholder = 1050 /\
   hasClass (lit "loaded") 14 (step (H := F64) placeholder (Load 17)) = true /\
   hasClass (lit "no-animation") 14 (step (H := F64) placeholder (Load 17)) = false).
Proof. split; split_and!; vm_compute; reflexivity. Qed.

(** ** The placeholder style *)

Section StyleFacts.
Context `{Number}.




End StyleFacts.




Lemma validateBlurhash_rejects_witness :
  let s := lit "L00000" in
  let msg := BlurhashDecoder.mismatchMessage (len s) (BlurhashDecoder.expectedLength 21) in
  msg = lit "blurhash length mismatch: length is 6 but it should be 28" /\
  BlurhashDecoder.validateBlurhash s = Throw (ValidationError msg) /\
  names msg (len s) = true /\
  names msg (BlurhashDecoder.expectedLength 21) = true.
Proof.
  split; [reflexivity|].
  apply (proj1 (proj2 (proj2 (proj2 (validateBlurhash_rejects (H := F64) (lit "L00000")))))
           21).
  - compute_done.
  - reflexivity.
  - compute_done.
Defined.

(** ** More on the decoder: base 83 *)

(** X1. On strings of at most 8 characters, whose values a double holds
    exactly, decoding a concatenation [s ++ t] reads [s], shifts its value by
    one base-83 place per character of [t] and adds the value of [t]; it
    throws what decoding [s] throws, or else what decoding [t] throws. *)
Theorem decode83_app (s t : list N) :
  len (s ++ t) <= 8 ->
  BlurhashDecoder.decode83 (s ++ t)
  = (a <- BlurhashDecoder.decode83 s ;;
     b <- BlurhashDecoder.decode83 t ;;
     Ok (a * 83 ^ len t + b)).
Proof.
  intros _. induction s as [|c s IH].
  - cbn [app]. change (BlurhashDecoder.decode83 []) with (Ok (A := Z) 0). cbn [bind].
    destruct (BlurhashDecoder.decode83 t); cbn [bind]; [f_equal; lia | done].
  - cbn [app]. rewrite !decode83_cons.
    destruct (BlurhashDecoder.indexOf _ c) as [d|]; [|done].
    rewrite IH. destruct (BlurhashDecoder.decode83 s) as [a|]; cbn [bind]; [|done].
    destruct (BlurhashDecoder.decode83 t) as [b|]; cbn [bind]; [|done].
    f_equal. unfold len. rewrite length_app, Nat2Z.inj_add, Z.pow_add_r by lia. lia.
Qed.

Lemma decode83_app_witness :
  BlurhashDecoder.decode83 (lit "LGF5")
  = (a <- BlurhashDecoder.decode83 (lit "LG") ;;
     b <- BlurhashDecoder.decode83 (lit "F5") ;;
     Ok (a * 83 ^ len (lit "F5") + b)).
Proof. apply (decode83_app (lit "LG") (lit "F5")). compute_done. Defined.

(** X2. On strings of at most 8 characters, a string of alphabet symbols
    decodes to a value below [83 ^ length], which is below [2 ^ 53]; a string
    whose first symbol outside the alphabet is [c] makes [decode83] throw the
    [ValidationError] that names [c]. *)
Theorem decode83_value_or_first_invalid (s : list N) :
  len s <= 8 ->
  (Forall inAlphabet s ->
     exists v, BlurhashDecoder.decode83 s = Ok v /\
               0 <= v < 83 ^ len s /\ 83 ^ len s < 2 ^ 53) /\
  (forall good c rest,
     s = good ++ c :: rest -> Forall inAlphabet good -> ~ inAlphabet c ->
     BlurhashDecoder.decode83 s
     = Throw (ValidationError (lit "Invalid base83 character: " ++ [c]))).
Proof.
  intros Hlen. split.
  - intros Hs. destruct (decode83_ok s Hs) as (v & Hv & _).
    exists v. split; [done|]. split; [by apply decode83_range|].
    assert (83 ^ len s <= 83 ^ 8) by (apply Z.pow_le_mono_r; lia).
    lia.
  - intros good c rest -> Hgood Hc. clear Hlen.
    induction Hgood as [|g good [d Hd] _ IH]; cbn [app]; rewrite decode83_cons.
    + destruct (BlurhashDecoder.indexOf _ c) as [d|] eqn:Hd; [|done].
      destruct Hc. unfold inAlphabet. rewrite Hd. eauto.
    + rewrite Hd, IH. done.
Qed.

Lemma decode83_value_or_first_invalid_witness :
  (Forall inAlphabet (lit "~~~~00!0") ->
     exists v, BlurhashDecoder.decode83 (lit "~~~~00!0") = Ok v /\
               0 <= v < 83 ^ len (lit "~~~~00!0") /\
               83 ^ len (lit "~~~~00!0") < 2 ^ 53) /\
  (forall good c rest,
     lit "~~~~00!0" = good ++ c :: rest -> Forall inAlphabet good -> ~ inAlphabet c ->
     BlurhashDecoder.decode83 (lit "~~~~00!0")
     = Throw (ValidationError (lit "Invalid base83 character: " ++ [c]))).
Proof. apply (decode83_value_or_first_invalid (lit "~~~~00!0")). compute_done. Defined.

(** X3. Two strings of the same length, of at most 8 characters, that decode
    to the same value are the same string. *)
Theorem decode83_injective (s t : list N) (v : Z) :
  len s <= 8 ->
  BlurhashDecoder.decode83 s = Ok v -> BlurhashDecoder.decode83 t = Ok v ->
  length s = length t -> s = t.
Proof.
  intros _. revert t v. induction s as [|c s IH]; intros [|c' t] v; try done.
  rewrite !decode83_cons.
  destruct (BlurhashDecoder.indexOf _ c) as [d|] eqn:Hd; [|done].
  destruct (BlurhashDecoder.indexOf _ c') as [d'|] eqn:Hd'; [|done].
  destruct (BlurhashDecoder.decode83 s) as [b|] eqn:Hb; cbn [bind]; [|done].
  destruct (BlurhashDecoder.decode83 t) as [b'|] eqn:Hb'; cbn [bind]; [|done].
  intros [= <-] [= E] [= Hlen].
  assert (len t = len s) as Hl by (unfold len; lia). rewrite Hl in E.
  pose proof (decode83_range _ _ Hb) as Hr.
  pose proof (decode83_range _ _ Hb') as Hr'. rewrite Hl in Hr'.
  set (P := 83 ^ len s) in *.
  assert (d' = d) as -> by (destruct (Z.lt_trichotomy d d') as [?|[?|?]]; [nia | done | nia]).
  assert (b' = b) as -> by lia.
  f_equal; [by eapply indexOf_inj | by eapply IH].
Qed.

Lemma decode83_injective_witness :
  BlurhashDecoder.decode83 (lit "LG") = Ok 1759 /\ lit "LG" = lit "LG".
Proof.
  split; [reflexivity|].
  apply (decode83_injective (lit "LG") (lit "LG") 1759);
    [compute_done | reflexivity..].
Defined.

(** ** More on the decoder: validation and components *)

(** X4. Validation looks at the first character and at the length, and at
    nothing else: two strings that agree on both are accepted together, or
    rejected with the same error. *)
Theorem validateBlurhash_head_length (s t : list N) :
  head s = head t -> len s = len t ->
  BlurhashDecoder.validateBlurhash s = BlurhashDecoder.validateBlurhash t.
Proof.
  intros Hhead Hlen. destruct (Z.lt_ge_cases (len s) 6) as [Hlt|Hge].
  - rewrite !validateBlurhash_short by lia. done.
  - destruct s as [|c s]; [done|]. destruct t as [|c' t]; [done|].
    injection Hhead as <-. rewrite !validateBlurhash_long by lia. by rewrite Hlen.
Qed.

Lemma validateBlurhash_head_length_witness :
  BlurhashDecoder.validateBlurhash (lit "LGF5?]00~q%M-;%M%M9Fxu-;tRof")
  = BlurhashDecoder.validateBlurhash (lit "L!!!!!!!!!!!!!!!!!!!!!!!!!!!").
Proof. apply validateBlurhash_head_length; reflexivity. Defined.

Section ComponentFacts.
Context `{Number}.
Import BlurhashDecoder.

Lemma sizeFlag_range s sizeFlag : sizeFlagOf s = Some sizeFlag -> 0 <= sizeFlag < 83.
Proof.
  unfold sizeFlagOf. destruct s as [|c s]; [done|]. cbn [head mbind option_bind].
  apply digit_bounds.
Qed.

Lemma decodeColors_WellSized s punch r :
  decodeColors s punch = Ok r -> WellSized s.
Proof.
  intros Hd. apply validateBlurhash_Ok. unfold decodeColors in Hd.
  destruct (validateBlurhash s) as [[]|]; [done | done].
Qed.

(** [decodeColors], when it returns. *)
Lemma decodeColors_inv s punch numX numY colors :
  decodeColors s punch = Ok (numX, numY, colors) ->
  exists sizeFlag q,
    sizeFlagOf s = Some sizeFlag /\
    numX = sizeFlag mod 9 + 1 /\ numY = sizeFlag / 9 + 1 /\
    len s = 4 + 2 * numX * numY /\
    decode83 (charAt s 1) = Ok q /\
    mapM (decodeColor s (ofZ (q + 1) / ofZ 166)%num
            (if falsy punch then ofZ 1 else punch)) (seqZ 0 (numX * numY))
    = Ok colors.
Proof.
  intros Hd. pose proof (decodeColors_WellSized _ _ _ Hd) as (Hge & sizeFlag & Hflag & Hlen).
  rewrite (decodeColors_unfold s punch sizeFlag) in Hd by done. cbv zeta in Hd.
  destruct (decode83 (charAt s 1)) as [q|] eqn:Hq; cbn [bind] in Hd; [|done].
  destruct (mapM _ _) as [colors'|] eqn:Hm; cbn [bind] in Hd; [|done].
  injection Hd as <- <- <-. exists sizeFlag, q. split_and!; done.
Qed.

End ComponentFacts.

(** X5. Whenever the components of a hash are decoded, there are between
    1 and 9 of them horizontally and between 1 and 10 vertically, one colour
    per component, and the hash has [4 + 2 * numX * numY] characters, an even
    number between 6 and 184. *)
Theorem decodeColors_counts `{Number} (s : list N) (punch : num)
    (numX numY : Z) (colors : list BlurhashDecoder.color) :
  BlurhashDecoder.decodeColors s punch = Ok (numX, numY, colors) ->
  1 <= numX <= 9 /\ 1 <= numY <= 10 /\
  Z.of_nat (length colors) = numX * numY /\
  len s = 4 + 2 * numX * numY /\ 6 <= len s <= 184.
Proof.
  intros Hd.
  destruct (decodeColors_inv _ _ _ _ _ Hd) as (sizeFlag & q & Hflag & -> & -> & Hlen & _ & Hm).
  apply sizeFlag_range in Hflag.
  assert (0 <= sizeFlag mod 9 < 9) by (apply Z.mod_pos_bound; lia).
  assert (0 <= sizeFlag / 9 <= 9).
  { split; [apply Z.div_pos; lia|]. apply Z.lt_succ_r, Z.div_lt_upper_bound; lia. }
  apply mapM_length in Hm. rewrite length_seqZ in Hm.
  split_and!; try lia; nia.
Qed.

Lemma decodeColors_counts_witness :
  exists colors,
    BlurhashDecoder.decodeColors (H := F64) scenarioHash 1%float = Ok (4, 3, colors) /\
    Z.of_nat (length colors) = 4 * 3 /\ len scenarioHash = 4 + 2 * 4 * 3.
Proof.
  destruct (BlurhashDecoder.decodeColors (H := F64) scenarioHash 1%float)
    as [[[numX numY] colors]|] eqn:E; [|discriminate E].
  pose proof (decodeColors_counts (H := F64) _ _ _ _ _ E) as (_ & _ & Hl & Hs & _).
  assert (numX = 4 /\ numY = 3) as [-> ->].
  { revert E. vm_compute. intros [= <- <- _]. done. }
  exists colors. done.
Defined.

(** X6. The DC value splits into its three channels by division: red is
    [value / 65536], green and blue are bytes, and the three recompose the
    value. Four base-83 digits reach past 24 bits, so red ranges up to 724. *)
Theorem decodeDC_channels `{Number} (value : Z) :
  0 <= value < 83 ^ 4 ->
  exists intR intG intB,
    BlurhashDecoder.decodeDC value
    = (BlurhashDecoder.sRGBToLinear intR, BlurhashDecoder.sRGBToLinear intG,
       BlurhashDecoder.sRGBToLinear intB) /\
    value = intR * 65536 + intG * 256 + intB /\
    0 <= intR <= 724 /\ 0 <= intG <= 255 /\ 0 <= intB <= 255.
Proof.
  intros Hv.
  assert (BlurhashDecoder.toInt32 value = value) as Hint.
  { unfold BlurhashDecoder.toInt32. rewrite Z.mod_small; lia. }
  exists (value / 65536), (value / 256 mod 256), (value mod 256).
  split.
  - unfold BlurhashDecoder.decodeDC. rewrite Hint.
    rewrite !Z.shiftr_div_pow2 by lia.
    change 255 with (Z.ones 8). rewrite !Z.land_ones by lia. done.
  - pose proof (Z.div_mod value 256 ltac:(lia)).
    pose proof (Z.mod_pos_bound value 256 ltac:(lia)).
    pose proof (Z.div_mod (value / 256) 256 ltac:(lia)).
    pose proof (Z.mod_pos_bound (value / 256) 256 ltac:(lia)).
    assert (value / 65536 = value / 256 / 256) as ->.
    { rewrite Z.div_div by lia. done. }
    assert (0 <= value / 256 / 256 <= 724).
    { split; [apply Z.div_pos; [apply Z.div_pos|]; lia|].
      apply Z.lt_succ_r, Z.div_lt_upper_bound; [lia|].
      apply Z.div_lt_upper_bound; lia. }
    lia.
Qed.

Lemma decodeDC_channels_witness :
  exists intR intG intB,
    BlurhashDecoder.decodeDC (H := F64) 47458320
    = (BlurhashDecoder.sRGBToLinear intR, BlurhashDecoder.sRGBToLinear intG,
       BlurhashDecoder.sRGBToLinear intB) /\
    47458320 = intR * 65536 + intG * 256 + intB /\
    0 <= intR <= 724 /\ 0 <= intG <= 255 /\ 0 <= intB <= 255.
Proof. apply (decodeDC_channels (H := F64)). lia. Defined.

(** ** More on the decoder: the raster, pixel by pixel *)

Section PixelFacts.
Context `{Number}.
Import BlurhashDecoder.

(** Invariants of a loop whose steps are only known on the elements it
    visits. *)
Lemma foldl_invariant_in {S X} (f : S -> X -> S) (P : S -> Prop) l :
  (forall a x, x ∈ l -> P a -> P (f a x)) -> forall a, P a -> P (foldl f a l).
Proof.
  induction l as [|x l IH]; intros Hstep a Ha; cbn [foldl]; [done|].
  apply IH.
  - intros a' x' Hx'. apply Hstep, elem_of_cons. by right.
  - apply Hstep; [apply elem_of_cons; by left | done].
Qed.

Lemma foldl_establish_in {S X} (f : S -> X -> S) (P Q : S -> Prop) l x0 :
  (forall a x, x ∈ l -> Q a -> Q (f a x)) ->
  (forall a x, x ∈ l -> Q a -> P a -> P (f a x)) ->
  (forall a, Q a -> P (f a x0)) ->
  x0 ∈ l -> forall a, Q a -> P (foldl f a l).
Proof.
  intros HQ HP Hx0 Hin a Ha.
  assert (Q (foldl f a l) /\ P (foldl f a l)) as [_ ?]; [|done].
  revert a Ha Hin HQ HP. induction l as [|x l IH]; intros a Ha Hin HQ HP.
  - by apply elem_of_nil in Hin.
  - cbn [foldl].
    assert (forall a' x', x' ∈ l -> Q a' -> Q (f a' x')) as HQ'.
    { intros a' x' Hx'. apply HQ, elem_of_cons. by right. }
    assert (forall a' x', x' ∈ l -> Q a' -> P a' -> P (f a' x')) as HP'.
    { intros a' x' Hx'. apply HP, elem_of_cons. by right. }
    assert (Q (f a x)) as Hqx by (apply HQ; [apply elem_of_cons; by left | done]).
    apply elem_of_cons in Hin as [<-|Hin].
    + apply (foldl_invariant_in f (fun a' => Q a' /\ P a')).
      * intros a' x' Hx' [? ?]. split; [by apply HQ' | by apply HP'].
      * split; [done | by apply Hx0].
    + by apply IH.
Qed.

Lemma store_lookup_ne pixels i v k :
  i <> Z.of_nat k -> store pixels i v !! k = pixels !! k.
Proof.
  intros Hne. unfold store. destruct (Z.ltb_spec i 0); [done|].
  apply list_lookup_insert_ne. lia.
Qed.

Lemma store_lookup_eq pixels i v :
  0 <= i < Z.of_nat (length pixels) -> store pixels i v !! Z.to_nat i = Some v.
Proof.
  intros Hi. unfold store. destruct (Z.ltb_spec i 0); [lia|].
  apply list_lookup_insert_eq. lia.
Qed.

Lemma store_bytes pixels i v :
  0 <= v <= 255 -> Forall (fun b => 0 <= b <= 255) pixels ->
  Forall (fun b => 0 <= b <= 255) (store pixels i v).
Proof.
  intros Hv Hall. unfold store. destruct (i <? 0); [done|]. by apply Forall_insert.
Qed.

Lemma toUint8_range (v : num) : 0 <= toUint8 v <= 255.
Proof. unfold toUint8. pose proof (Z.mod_pos_bound (toInteger v) 256). lia. Qed.

(** Distinct channels of distinct pixels have distinct offsets. *)
Lemma offset_inj width x y c x' y' c' :
  0 <= x < width -> 0 <= x' < width -> 0 <= c < 4 -> 0 <= c' < 4 ->
  4 * x + c + y * (width * 4) = 4 * x' + c' + y' * (width * 4) ->
  x = x' /\ y = y' /\ c = c'.
Proof.
  intros Hx Hx' Hc Hc' E.
  assert (c = c') as ->.
  { pose proof (offset_mod x y width c) as M. rewrite E, offset_mod in M.
    rewrite !Z.mod_small in M; lia. }
  assert (y = y') as -> by nia.
  lia.
Qed.

Lemma writePixel_other colors numX numY width height y' pixels x' x y c :
  0 <= x < width -> 0 <= x' < width -> 0 <= c < 4 -> (x', y') <> (x, y) ->
  0 <= 4 * x + c + y * (width * 4) ->
  writePixel colors numX numY width height y' pixels x'
    !! Z.to_nat (4 * x + c + y * (width * 4))
  = pixels !! Z.to_nat (4 * x + c + y * (width * 4)).
Proof.
  intros Hx Hx' Hc Hne Hpos. unfold writePixel.
  destruct (pixelSum _ _ _ _ _ _ _) as [[r g] b].
  assert (forall c', 0 <= c' < 4 ->
            4 * x' + c' + y' * (width * 4)
            <> Z.of_nat (Z.to_nat (4 * x + c + y * (width * 4)))) as Hoff.
  { intros c' Hc' E. rewrite Z2Nat.id in E by done.
    apply offset_inj in E as (-> & -> & _); done. }
  rewrite !store_lookup_ne by (apply Hoff; lia). done.
Qed.

Lemma writePixel_same colors numX numY width height y pixels x c :
  0 <= c < 4 ->
  0 <= 4 * x + 0 + y * (width * 4) ->
  4 * x + 3 + y * (width * 4) < Z.of_nat (length pixels) ->
  writePixel colors numX numY width height y pixels x
    !! Z.to_nat (4 * x + c + y * (width * 4))
  = Some (channelByte colors numX numY width height x y c).
Proof.
  intros Hc Hlo Hhi. unfold writePixel, channelByte.
  destruct (pixelSum _ _ _ _ _ _ _) as [[r g] b].
  assert (c = 0 \/ c = 1 \/ c = 2 \/ c = 3) as [-> | [-> | [-> | ->]]] by lia; cbn [Z.eqb].
  - rewrite !store_lookup_ne by lia. apply store_lookup_eq. lia.
  - rewrite !store_lookup_ne by lia. apply store_lookup_eq.
    rewrite !length_store. lia.
  - rewrite !store_lookup_ne by lia. apply store_lookup_eq.
    rewrite !length_store. lia.
  - apply store_lookup_eq. rewrite !length_store. lia.
Qed.

Lemma writePixel_bytes colors numX numY width height y pixels x :
  Forall (fun b => 0 <= b <= 255) pixels ->
  Forall (fun b => 0 <= b <= 255) (writePixel colors numX numY width height y pixels x).
Proof.
  intros Hall. unfold writePixel. destruct (pixelSum _ _ _ _ _ _ _) as [[r g] b].
  repeat (apply store_bytes; [first [apply toUint8_range | lia]|]). done.
Qed.

Lemma raster_pixel colors numX numY width height pixels x y c :
  0 <= x < width -> 0 <= y < height -> 0 <= c < 4 ->
  Z.of_nat (length pixels) = width * 4 * height ->
  foldl (writeRow colors numX numY width height) pixels (seqZ 0 height)
    !! Z.to_nat (4 * x + c + y * (width * 4))
  = Some (channelByte colors numX numY width height x y c).
Proof.
  intros Hx Hy Hc Hlen.
  apply (foldl_establish_in _
           (fun p => p !! Z.to_nat (4 * x + c + y * (width * 4))
                     = Some (channelByte colors numX numY width height x y c))
           (fun p => length p = length pixels) _ y).
  - intros a y' _ <-. apply writeRow_length.
  - intros a y' Hy' Hl Ha. apply elem_of_seqZ in Hy'. unfold writeRow.
    destruct (decide (y' = y)) as [->|Hne].
    + apply (foldl_establish_in _
               (fun p => p !! Z.to_nat (4 * x + c + y * (width * 4))
                         = Some (channelByte colors numX numY width height x y c))
               (fun p => length p = length pixels) _ x).
      * intros p x' _ <-. apply writePixel_length.
      * intros p x' Hx' Hp Hk. apply elem_of_seqZ in Hx'.
        destruct (decide (x' = x)) as [->|Hnx].
        -- apply writePixel_same; [done | nia | rewrite Hp; nia].
        -- rewrite writePixel_other; [done | done | lia | done | congruence | nia].
      * intros p Hp. apply writePixel_same; [done | nia | rewrite Hp; nia].
      * apply elem_of_seqZ. lia.
      * done.
    + apply (foldl_invariant_in _
               (fun p => p !! Z.to_nat (4 * x + c + y * (width * 4))
                         = Some (channelByte colors numX numY width height x y c))).
      * intros p x' Hx' Hk. apply elem_of_seqZ in Hx'.
        rewrite writePixel_other; [done | done | lia | done | congruence | nia].
      * done.
  - intros a Hl. unfold writeRow.
    apply (foldl_establish_in _
             (fun p => p !! Z.to_nat (4 * x + c + y * (width * 4))
                       = Some (channelByte colors numX numY width height x y c))
             (fun p => length p = length a) _ x).
    + intros p x' _ <-. apply writePixel_length.
    + intros p x' Hx' Hp Hk. apply elem_of_seqZ in Hx'.
      destruct (decide (x' = x)) as [->|Hnx].
      * apply writePixel_same; [done | nia | rewrite Hp, Hl; nia].
      * rewrite writePixel_other; [done | done | lia | done | congruence | nia].
    + intros p Hp. apply writePixel_same; [done | nia | rewrite Hp, Hl; nia].
    + apply elem_of_seqZ. lia.
    + done.
  - apply elem_of_seqZ. lia.
  - done.
Qed.

Lemma raster_bytes colors numX numY width height pixels :
  Forall (fun b => 0 <= b <= 255) pixels ->
  Forall (fun b => 0 <= b <= 255)
    (foldl (writeRow colors numX numY width height) pixels (seqZ 0 height)).
Proof.
  apply foldl_invariant. intros a y Ha. unfold writeRow.
  apply foldl_invariant; [|done]. intros p x. apply writePixel_bytes.
Qed.

Lemma decode_inv s width height punch raster :
  decode s width height punch = Ok raster ->
  exists numX numY colors,
    decodeColors s punch = Ok (numX, numY, colors) /\
    0 <= width * 4 * height /\
    raster = foldl (writeRow colors numX numY width height)
               (replicate (Z.to_nat (width * 4 * height)) 0) (seqZ 0 height).
Proof.
  unfold decode. destruct (decodeColors s punch) as [[[numX numY] colors]|]; [|done].
  cbn [bind].
  destruct (newUint8Array (width * 4 * height)) as [pixels|] eqn:Hn; [|done].
  apply newUint8Array_inv in Hn as (Hpos & _ & ->). cbn [bind].
  intros [= <-]. exists numX, numY, colors. done.
Qed.

End PixelFacts.

(** X7. At a size of at most [2 ^ 30] bytes, every byte of a decoded raster
    is a byte, and the four bytes of each pixel are exactly what the loops
    computed for that pixel: the sRGB conversions of the three sums over the
    components, wrapped to a byte, and 255. No write of one pixel touches
    another. *)
Theorem decode_pixels `{Number} (s : list N) (width height : Z) (punch : num)
    (raster : list Z) :
  width * height * 4 <= 2 ^ 30 ->
  BlurhashDecoder.decode s width height punch = Ok raster ->
  Forall (fun b => 0 <= b <= 255) raster /\
  exists numX numY colors,
    BlurhashDecoder.decodeColors s punch = Ok (numX, numY, colors) /\
    forall x y, 0 <= x < width -> 0 <= y < height ->
      let '(r, g, b) := BlurhashDecoder.pixelSum colors numX numY width height x y in
      raster !! Z.to_nat (4 * x + 0 + y * width * 4)
        = Some (toUint8 (BlurhashDecoder.linearTosRGB r)) /\
      raster !! Z.to_nat (4 * x + 1 + y * width * 4)
        = Some (toUint8 (BlurhashDecoder.linearTosRGB g)) /\
      raster !! Z.to_nat (4 * x + 2 + y * width * 4)
        = Some (toUint8 (BlurhashDecoder.linearTosRGB b)) /\
      raster !! Z.to_nat (4 * x + 3 + y * width * 4) = Some 255.
Proof.
  intros _ Hd.
  destruct (decode_inv _ _ _ _ _ Hd) as (numX & numY & colors & Hc & Hpos & ->).
  split.
  - apply raster_bytes, Forall_replicate. lia.
  - exists numX, numY, colors. split; [done|]. intros x y Hx Hy.
    assert (Z.of_nat (length (replicate (Z.to_nat (width * 4 * height)) 0))
            = width * 4 * height) as Hlen by (rewrite length_replicate; lia).
    pose proof (fun c Hc => raster_pixel colors numX numY width height _ x y c Hx Hy Hc Hlen)
      as Hpix.
    unfold channelByte in Hpix.
    destruct (BlurhashDecoder.pixelSum _ _ _ _ _ _ _) as [[r g] b].
    replace (y * width * 4) with (y * (width * 4)) by lia.
    split_and!.
    + apply (Hpix 0). lia.
    + apply (Hpix 1). lia.
    + apply (Hpix 2). lia.
    + apply (Hpix 3). lia.
Qed.

Lemma decode_pixels_witness :
  exists raster,
    BlurhashDecoder.decode (H := F64) scenarioHash 2 2 1%float = Ok raster /\
    Forall (fun b => 0 <= b <= 255) raster.
Proof.
  destruct (BlurhashDecoder.decode (H := F64) scenarioHash 2 2 1%float) as [raster|] eqn:E;
    [|exfalso; revert E; vm_compute; discriminate].
  exists raster. split; [done|].
  exact (proj1 (decode_pixels (H := F64) _ 2 2 _ _ ltac:(lia) E)).
Defined.

(** X8. At a width or height that is not positive no pixel is written: a
    placeholder string decodes to [width * height * 4] zero bytes when that
    number is not negative (both negative, or one zero) and at most [2 ^ 30],
    and allocating the raster throws a [RangeError] when it is negative. *)
Theorem decode_degenerate `{Number} (s : list N) (width height : Z) (punch : num) :
  PlaceholderString s -> width <= 0 \/ height <= 0 ->
  (0 <= width * height * 4 <= 2 ^ 30 ->
     BlurhashDecoder.decode s width height punch
     = Ok (replicate (Z.to_nat (width * height * 4)) 0)) /\
  (width * height < 0 ->
     exists msg, BlurhashDecoder.decode s width height punch = Throw (RangeError msg)).
Proof.
  intros Hs Hdim.
  destruct (decodeColors_ok s punch Hs) as (sizeFlag & colors & _ & Hc & _).
  unfold BlurhashDecoder.decode. rewrite Hc. cbn [bind]. split.
  - intros Hpos. rewrite newUint8Array_ok by (lia || (left; lia)). cbn [bind].
    f_equal. replace (width * height * 4) with (width * 4 * height) by lia.
    destruct (Z.le_gt_cases height 0) as [Hh|Hh].
    + by rewrite seqZ_nil by lia.
    + apply (foldl_invariant _ (fun p => p = replicate (Z.to_nat (width * 4 * height)) 0));
        [|done].
      intros a y ->. unfold BlurhashDecoder.writeRow. by rewrite seqZ_nil by lia.
  - intros Hneg. unfold BlurhashDecoder.newUint8Array.
    destruct (Z.ltb_spec (width * 4 * height) 0); [|lia].
    cbn [orb bind]. eauto.
Qed.

Lemma decode_degenerate_witness :
  BlurhashDecoder.decode (H := F64) scenarioHash (-1) (-2) 1%float = Ok (replicate 8 0).
Proof.
  apply (decode_degenerate (H := F64) scenarioHash (-1) (-2) 1%float
           scenarioHash_placeholder); lia.
Defined.

(** X9. The punch reaches the AC components only: the component counts and
    the DC colour of a hash are the same under any two punches, and a hash of
    six characters, which has no AC component, decodes to the same result
    under any two punches. *)
Theorem punch_spares_DC `{Number} (s : list N) (punch1 punch2 : num) :
  (forall numX1 numY1 colors1 numX2 numY2 colors2,
     BlurhashDecoder.decodeColors s punch1 = Ok (numX1, numY1, colors1) ->
     BlurhashDecoder.decodeColors s punch2 = Ok (numX2, numY2, colors2) ->
     numX1 = numX2 /\ numY1 = numY2 /\
     exists dc, head colors1 = Some dc /\ head colors2 = Some dc) /\
  (len s = 6 ->
     forall width height,
       BlurhashDecoder.decode s width height punch1
       = BlurhashDecoder.decode s width height punch2).
Proof.
  assert (forall punch numX numY colors,
            BlurhashDecoder.decodeColors s punch = Ok (numX, numY, colors) ->
            exists sizeFlag v acs,
              sizeFlagOf s = Some sizeFlag /\
              numX = sizeFlag mod 9 + 1 /\ numY = sizeFlag / 9 + 1 /\
              BlurhashDecoder.decode83 (substring s 2 6) = Ok v /\
              colors = BlurhashDecoder.decodeDC v :: acs /\
              (numX * numY = 1 -> acs = [])) as Hshape.
  { intros punch numX numY colors Hd.
    destruct (decodeColors_inv _ _ _ _ _ Hd)
      as (sizeFlag & q & Hflag & HX & HY & Hlen & _ & Hm).
    pose proof (sizeFlag_range _ _ Hflag).
    assert (0 <= sizeFlag mod 9 < 9) by (apply Z.mod_pos_bound; lia).
    assert (0 <= sizeFlag / 9) by (apply Z.div_pos; lia).
    assert (0 < numX * numY) as Hn by nia.
    rewrite (seqZ_cons 0 (numX * numY)) in Hm by lia. cbn [mapM] in Hm.
    unfold BlurhashDecoder.decodeColor at 1 in Hm. cbn [Z.eqb] in Hm.
    destruct (BlurhashDecoder.decode83 (substring s 2 6)) as [v|] eqn:Hv;
      cbn [bind] in Hm; [|done].
    destruct (mapM _ _) as [acs|] eqn:Hacs; cbn [bind] in Hm; [|done].
    injection Hm as <-. exists sizeFlag, v, acs. split_and!; try done.
    intros Hone. apply mapM_length in Hacs. rewrite length_seqZ in Hacs.
    apply nil_length_inv. lia. }
  split.
  - intros numX1 numY1 colors1 numX2 numY2 colors2 H1 H2.
    destruct (Hshape _ _ _ _ H1) as (f1 & v1 & a1 & Hf1 & -> & -> & Hv1 & -> & _).
    destruct (Hshape _ _ _ _ H2) as (f2 & v2 & a2 & Hf2 & -> & -> & Hv2 & -> & _).
    assert (f2 = f1) as -> by congruence. assert (v2 = v1) as -> by congruence.
    split_and!; [done | done |]. eauto.
  - intros Hlen width height.
    assert (BlurhashDecoder.decodeColors s punch1 = BlurhashDecoder.decodeColors s punch2)
      as Heq; [|unfold BlurhashDecoder.decode; by rewrite Heq].
    assert (forall p q r, BlurhashDecoder.decodeColors s p = Ok r ->
              BlurhashDecoder.decodeColors s q = Ok r) as Hsame.
    { intros p q [[numX numY] colors] Hp.
      destruct (Hshape _ _ _ _ Hp) as (f & v & acs & Hf & HX & HY & Hv & -> & Hacs).
      destruct (decodeColors_inv _ _ _ _ _ Hp) as (f' & k & Hf' & _ & _ & Hl & Hk & _).
      assert (numX * numY = 1) as Hone by lia. rewrite (Hacs Hone).
      pose proof (decodeColors_WellSized _ _ _ Hp) as (Hge & f'' & Hf'' & Hl'').
      assert (f'' = f) as -> by congruence.
      rewrite (decodeColors_unfold s q f) by done. cbv zeta.
      rewrite Hk. cbn [bind]. rewrite <- HX, <- HY, Hone.
      change (seqZ 0 1) with [0]. cbn [mapM].
      unfold BlurhashDecoder.decodeColor. cbn [Z.eqb]. rewrite Hv. done. }
    destruct (BlurhashDecoder.decodeColors s punch1) as [r1|e1] eqn:E1.
    { symmetry. by eapply Hsame. }
    destruct (BlurhashDecoder.decodeColors s punch2) as [r2|e2] eqn:E2.
    { rewrite (Hsame _ punch1 _ E2) in E1. done. }
    (* both throw: the same check fails in both *)
    revert E1 E2. unfold BlurhashDecoder.decodeColors.
    destruct (BlurhashDecoder.validateBlurhash s) as [[]|ev] eqn:Hval; cbn [bind];
      [|congruence].
    apply validateBlurhash_Ok in Hval as (Hge & f & Hf & Hl).
    destruct (BlurhashDecoder.decode83 (charAt s 0)) as [f'|] eqn:Hf'; cbn [bind];
      [|congruence].
    assert (f' = f) as ->.
    { destruct s as [|c s]; [done|]. rewrite charAt_0, decode83_single in Hf'.
      cbn [sizeFlagOf head mbind option_bind] in Hf. rewrite Hf in Hf'. congruence. }
    destruct (BlurhashDecoder.decode83 (charAt s 1)) as [k|] eqn:Hk; cbn [bind];
      [|congruence].
    assert ((f mod 9 + 1) * (f / 9 + 1) = 1) as -> by lia.
    change (seqZ 0 1) with [0]. cbn [mapM].
    unfold BlurhashDecoder.decodeColor. cbn [Z.eqb].
    destruct (BlurhashDecoder.decode83 (substring s 2 6)); cbn [bind]; congruence.
Qed.

(** ** More on the converter *)

Section StructFacts.
Context `{Number}.
Import BlurhashDecoder BlurhashCssConverter.


(** [blurhashToCssStruct], when it returns. *)
Lemma blurhashToCssStruct_inv hash options css :
  blurhashToCssStruct hash options = Ok css ->
  hash <> [] /\ 0 < width options /\ 0 < height options /\
  exists pixelBytes rows,
    decode hash (width options) (height options) (default (ofZ 1) (punch options))
    = Ok pixelBytes /\
    mapM (rowOf pixelBytes (width options) (height options)) (seqZ 0 (height options))
    = Ok rows /\
    css = {| backgroundImage := join (lit ",") rows.*1;
             backgroundPosition := join (lit ",") rows.*2;
             backgroundRepeat := lit "no-repeat";
             backgroundSize :=
               lit "100% " ++ toString (ofZ 100 / ofZ (height options))%num ++ lit "%";
             filter :=
               lit "blur(" ++ toString (default (ofZ 24) (blurRadius options)) ++ lit "px)";
             transform :=
               lit "scale(" ++ toString (default (ofQ 1.2) (scaleFactor options))
                 ++ lit ")" |}.
Proof.
  unfold blurhashToCssStruct.
  destruct (bool_decide_reflect (hash = [])) as [|Hne]; [done|].
  destruct (Z.leb_spec (width options) 0); [done|].
  destruct (Z.leb_spec (height options) 0); [done|]. cbn [orb].
  unfold blurhashToBytes.
  destruct (decode _ _ _ _) as [pixelBytes|] eqn:Hd; cbn [bind]; [|done].
  destruct (mapM _ _) as [rows|] eqn:Hrows; cbn [bind]; [|done].
  intros [= <-]. split_and!; [done..|]. exists pixelBytes, rows. done.
Qed.


(** The positions pushed by the rows depend on the height alone. *)
Lemma rows_positions pixelBytes w h l rows :
  mapM (rowOf pixelBytes w h) l = Ok rows ->
  rows.*2 = (fun y => if y =? 0 then lit "0 0"
                      else lit "0 " ++ show_jsint (getRoundedPercentageOf y (h - 1))
                             ++ lit "%") <$> l.
Proof.
  intros Hrows%mapM_Ok. induction Hrows as [|y [g p] l rows Hy _ IH]; [done|].
  cbn [fmap list_fmap]. cbn [fmap list_fmap] in IH. rewrite IH. f_equal.
  unfold rowOf in Hy. destruct (mapM _ _); cbn [bind] in Hy; [|done].
  by injection Hy as _ <-.
Qed.

Lemma Forall_choice {A B} (R : A -> B -> Prop) l :
  Forall (fun a => exists b, R a b) l -> exists bs, Forall2 R l bs.
Proof.
  induction 1 as [|a l [b Hb] _ [bs IH]].
  - exists []. constructor.
  - exists (b :: bs). by constructor.
Qed.

Lemma mapM_app {A B} (f : A -> result B) l1 l2 :
  mapM f (l1 ++ l2)
  = (bs1 <- mapM f l1 ;; bs2 <- mapM f l2 ;; Ok (bs1 ++ bs2)).
Proof.
  induction l1 as [|a l1 IH]; cbn [app mapM bind].
  - by destruct (mapM f l2).
  - destruct (f a); cbn [bind]; [|done]. rewrite IH.
    destruct (mapM f l1); cbn [bind]; [|done]. by destruct (mapM f l2).
Qed.

Lemma zip_indices {A} (l1 l2 : list A) (start : Z) :
  zip (seqZ start (Z.of_nat (length (l1 ++ l2)))) (l1 ++ l2)
  = zip (seqZ start (Z.of_nat (length l1))) l1
    ++ zip (seqZ (start + Z.of_nat (length l1)) (Z.of_nat (length l2))) l2.
Proof.
  rewrite length_app, Nat2Z.inj_add, seqZ_app by lia.
  apply zip_with_app. rewrite length_seqZ. lia.
Qed.

(** The batch loop on hashes that all convert. *)
Lemma processHash_all options hashes : forall start cssStructs,
  Forall2 (fun hash css => blurhashToCssStruct hash options = Ok css) hashes cssStructs ->
  mapM (processHash options) (zip (seqZ start (Z.of_nat (length hashes))) hashes)
  = Ok cssStructs.
Proof.
  induction hashes as [|hash hashes IH]; intros start cssStructs Hall.
  - inversion Hall. done.
  - inversion Hall as [|? css ? rest Hhash Hrest]; subst.
    cbn [length]. rewrite Nat2Z.inj_succ, seqZ_cons by lia.
    cbn [zip zip_with mapM]. unfold processHash at 1. rewrite Hhash. cbn [bind].
    replace (Z.pred (Z.succ (Z.of_nat (length hashes)))) with (Z.of_nat (length hashes))
      by lia.
    rewrite (IH _ rest Hrest). done.
Qed.


End StructFacts.


(** X11. The vertical layout of the generated CSS depends on the height
    alone: two conversions at the same height, of any two hashes at any two
    widths, give the same [background-position] and [background-size], and
    [background-repeat] is always [no-repeat]. *)
Theorem css_layout_by_height `{Number} (hash1 hash2 : list N)
    (options1 options2 : BlurhashCssConverter.BlurhashOptions)
    (css1 css2 : BlurhashCssConverter.BlurhashCss) :
  BlurhashCssConverter.height options1 = BlurhashCssConverter.height options2 ->
  BlurhashCssConverter.blurhashToCssObject hash1 options1 = Ok css1 ->
  BlurhashCssConverter.blurhashToCssObject hash2 options2 = Ok css2 ->
  BlurhashCssConverter.backgroundPosition css1
  = BlurhashCssConverter.backgroundPosition css2 /\
  BlurhashCssConverter.backgroundSize css1 = BlurhashCssConverter.backgroundSize css2 /\
  BlurhashCssConverter.backgroundRepeat css1 = lit "no-repeat".
Proof.
  intros Hh H1 H2.
  destruct (blurhashToCssStruct_inv _ _ _ H1) as (_ & _ & _ & pb1 & rows1 & _ & Hr1 & ->).
  destruct (blurhashToCssStruct_inv _ _ _ H2) as (_ & _ & _ & pb2 & rows2 & _ & Hr2 & ->).
  cbn [BlurhashCssConverter.backgroundPosition BlurhashCssConverter.backgroundSize
       BlurhashCssConverter.backgroundRepeat].
  rewrite (rows_positions _ _ _ _ _ Hr1), (rows_positions _ _ _ _ _ Hr2), Hh. done.
Qed.

Lemma css_layout_by_height_witness :
  let options1 := @BlurhashCssConverter.Build_BlurhashOptions F64 1 3 None None None in
  let options2 :=
    @BlurhashCssConverter.Build_BlurhashOptions F64 2 3 (Some 16%float) None
      (Some 2%float) in
  exists css1 css2,
    BlurhashCssConverter.blurhashToCssObject (H := F64) scenarioHash options1 = Ok css1 /\
    BlurhashCssConverter.blurhashToCssObject (H := F64) (lit "000000") options2 = Ok css2 /\
    BlurhashCssConverter.backgroundPosition css1
    = BlurhashCssConverter.backgroundPosition css2.
Proof.
  intros options1 options2.
  destruct (BlurhashCssConverter.blurhashToCssObject (H := F64) scenarioHash options1)
    as [css1|] eqn:E1; [|exfalso; revert E1; vm_compute; discriminate].
  destruct (BlurhashCssConverter.blurhashToCssObject (H := F64) (lit "000000") options2)
    as [css2|] eqn:E2; [|exfalso; revert E2; vm_compute; discriminate].
  exists css1, css2. split; [reflexivity|]. split; [reflexivity|].
  exact (proj1 (css_layout_by_height (H := F64) _ _ options1 options2 _ _ eq_refl E1 E2)).
Defined.

(** X13. The batch conversion stops at the first hash that fails: the error
    names the index of that hash and carries the message of its failure,
    under the context of the batch; the hashes after it are not looked at. *)
Theorem blurhashesToCss_first_failure `{Number} (good rest : list (list N))
    (bad : list N) (width height : Z) (blurRadius scaleFactor : option num) (e : exn) :
  let options := BlurhashCssConverter.jsonOptions width height blurRadius scaleFactor in
  Forall (fun hash => exists css,
            BlurhashCssConverter.blurhashToCssObject hash options = Ok css) good ->
  BlurhashCssConverter.blurhashToCssObject bad options = Throw e ->
  BlurhashCssConverter.blurhashesToCss (good ++ bad :: rest) width height
    blurRadius scaleFactor
  = Throw (Error (lit "Failed to convert BlurHashes to CSS: "
                    ++ (lit "Failed to process BlurHash at index "
                          ++ show_Z (Z.of_nat (length good)) ++ lit ": " ++ message e))).
Proof.
  intros options Hgood Hbad. unfold BlurhashCssConverter.blurhashesToCss.
  fold options. rewrite zip_indices, mapM_app.
  assert (exists cssStructs,
            Forall2 (fun hash css =>
                       BlurhashCssConverter.blurhashToCssStruct hash options = Ok css)
              good cssStructs) as [cssStructs Hall].
  { by apply Forall_choice. }
  rewrite (processHash_all options good 0 cssStructs Hall). cbn [bind].
  cbn [length]. rewrite Nat2Z.inj_succ, seqZ_cons by lia.
  cbn [zip zip_with mapM]. unfold BlurhashCssConverter.processHash at 1.
  unfold BlurhashCssConverter.blurhashToCssObject in Hbad. rewrite Hbad. done.
Qed.

Lemma blurhashesToCss_first_failure_witness :
  BlurhashCssConverter.blurhashesToCss (H := F64)
    ([scenarioHash; lit "000000"] ++ lit "00000!" :: [lit ""]) 1 1 None None
  = Throw (Error (lit "Failed to convert BlurHashes to CSS: "
                    ++ (lit "Failed to process BlurHash at index "
                          ++ show_Z 2 ++ lit ": "
                          ++ lit "Failed to decode BlurHash: Invalid base83 character: !"))).
Proof.
  apply (blurhashesToCss_first_failure (H := F64) [scenarioHash; lit "000000"] [lit ""]
           (lit "00000!") 1 1 None None
           (Error (lit "Failed to decode BlurHash: Invalid base83 character: !"))).
  - repeat constructor; eexists; vm_compute; reflexivity.
  - vm_compute. reflexivity.
Defined.


(** X15. [applyBlurhashToElement] hands six declarations to the element's
    style, under the CSS names of the six properties and in their order; when
    the conversion throws, the same error is thrown again, unwrapped, and
    nothing is handed over. *)
Theorem applyBlurhashToElement_declarations `{Number} (hash : list N)
    (options : BlurhashCssConverter.BlurhashOptions) :
  (forall css,
     BlurhashCssConverter.blurhashToCssObject hash options = Ok css ->
     BlurhashUtils.applyBlurhashToElement hash options
     = Ok [ (lit "background-image", BlurhashCssConverter.backgroundImage css);
            (lit "background-position", BlurhashCssConverter.backgroundPosition css);
            (lit "background-repeat", BlurhashCssConverter.backgroundRepeat css);
            (lit "background-size", BlurhashCssConverter.backgroundSize css);
            (lit "filter", BlurhashCssConverter.filter css);
            (lit "transform", BlurhashCssConverter.transform css) ]) /\
  (forall e,
     BlurhashCssConverter.blurhashToCssObject hash options = Throw e ->
     BlurhashUtils.applyBlurhashToElement hash options = Throw e).
Proof.
  unfold BlurhashUtils.applyBlurhashToElement. split.
  - intros css ->. f_equal.
  - by intros e ->.
Qed.

(** ** More on the element: observers and failures *)

(** X16. Whatever the host does to a new element, at most one observer is
    connected at any time, and it is the one the instance holds; every handle
    the instance holds was given out by the host, and the layers it works on
    are elements of its tree. *)
Theorem reachable_coherent `{Number} (events : list event) :
  let s := run initial events in
  Coherent s /\
  (forall o1 o2, o1 ∈ observers s -> o2 ∈ observers s -> o1 = o2) /\
  (forall o, o ∈ observers s -> observer s = Some o).
Proof.
  intros s. assert (Coherent s) as Hs by apply run_preserves, initial_coherent.
  split; [done|]. destruct Hs as (Hobs & _). rewrite Hobs.
  destruct (observer s) as [o|]; split; set_solver.
Qed.

(** X17. Disconnecting the element leaves no observer connected and no
    pending timer held, so that no later notification of any observer changes
    anything; a request in flight is not aborted. *)
Theorem disconnected_is_inert `{Number} (s : state) :
  Coherent s ->
  let s' := step s Disconnected in
  observer s' = None /\ observers s' = ∅ /\ loadingTimer s' = None /\
  (forall t, loadingTimer s = Some t -> t ∉ timers s') /\
  requests s' = requests s /\
  forall o entries, step s' (Intersection o entries) = s'.
Proof.
  intros (Hobs & _) s'. subst s'. cbn [step].
  assert (observer (disconnectedCallback s) = None /\
          observers (disconnectedCallback s) = ∅ /\
          loadingTimer (disconnectedCallback s) = None /\
          (forall t, loadingTimer s = Some t -> t ∉ timers (disconnectedCallback s)) /\
          requests (disconnectedCallback s) = requests s) as (Ho & Hos & Ht & Hts & Hr).
  { destruct s. cbn in Hobs.
    unfold disconnectedCallback, cleanupTimer, cleanupObserver, clearTimeout, emit.
    destruct observer0, loadingTimer0; cbn; subst observers0;
      split_and!; try done; try set_solver. }
  split_and!; try done.
  intros o entries. cbn [step]. rewrite Hos.
  by rewrite bool_decide_eq_false_2 by set_solver.
Qed.

Lemma disconnected_is_inert_witness :
  let s := run (H := F64) initial
             [SetAttribute (lit "debug") []; SetAttribute (lit "src") (lit "a.png");
              Connected; Intersection 4 [true]] in
  let s' := step (H := F64) s Disconnected in
  observer s' = None /\ observers s' = ∅ /\ loadingTimer s' = None /\
  (forall t, loadingTimer s = Some t -> t ∉ timers s') /\
  requests s' = requests s /\
  forall o entries, step (H := F64) s' (Intersection o entries) = s'.
Proof.
  apply (disconnected_is_inert (H := F64)). apply run_preserves, initial_coherent.
Defined.

Section FailureFacts.
Context `{Number}.

Lemma classList_add_if_nodes c layer s n :
  is_Some (nodes (classList_add_if c layer s) !! n) <-> is_Some (nodes s !! n).
Proof. destruct layer; [apply classList_add_nodes | done]. Qed.

(** Adding a class changes the class list of one element and nothing else. *)
Lemma classList_add_if_fields c layer s :
  let s' := classList_add_if c layer s in
  isImageError s' = isImageError s /\ isImageLoaded s' = isImageLoaded s /\
  log s' = log s /\ requests s' = requests s /\ root s' = root s /\
  timers s' = timers s /\ attributes s' = attributes s.
Proof. destruct layer, s; done. Qed.

End FailureFacts.

(** X18. When the error callback of a request in flight runs, the instance
    is marked as failed, a bubbling, composed [image-error] event carrying the
    source is dispatched, the error layer of the current tree becomes visible
    and the placeholder layer captured with the request fades out; the image
    layer never gets the source, and the loaded flag is left as it was. *)
Theorem load_failure_outcome `{Number} (s : state) (r : positive) (rq : request) :
  Coherent s -> requests s !! r = Some rq ->
  let s' := step s (Failure r) in
  isImageError s' = true /\ isImageLoaded s' = isImageLoaded s /\
  log s' = DispatchEvent (lit "image-error") (req_src rq) true true :: log s /\
  requests s' = delete r (requests s) /\
  (forall layer, errorLayer (root s) = Some layer ->
     hasClass (lit "visible") layer s' = true) /\
  (forall layer, req_blurhashLayer rq = Some layer ->
     hasClass (lit "fade-out") layer s' = true) /\
  (forall n, srcAttr <$> nodes s' !! n = srcAttr <$> nodes s !! n).
Proof.
  intros Hs Hrq s'. subst s'. cbn [step]. rewrite Hrq.
  destruct Hs as (_ & _ & _ & Hlayers & Hreq). destruct (Hreq r rq Hrq) as [_ Hlayer].
  set (s0 := set_requests (delete r (requests s)) s).
  unfold onerror.
  set (s1 := set_isImageError true s0).
  set (s2 := classList_add_if (lit "visible") (errorLayer (root s1)) s1).
  set (s3 := classList_add_if (lit "fade-out") (req_blurhashLayer rq) s2).
  assert (nodes s1 = nodes s /\ root s1 = root s /\ isImageError s1 = true /\
          isImageLoaded s1 = isImageLoaded s /\ requests s1 = delete r (requests s))
    as (Hn1 & Hroot1 & He1 & Hl1 & Hr1) by by destruct s.
  destruct (classList_add_if_fields (lit "visible") (errorLayer (root s1)) s1)
    as (He2 & Hl2 & _ & Hr2 & _). fold s2 in He2, Hl2, Hr2.
  destruct (classList_add_if_fields (lit "fade-out") (req_blurhashLayer rq) s2)
    as (He3 & Hl3 & _ & Hr3 & _). fold s3 in He3, Hl3, Hr3.
  assert (forall c n ev, hasClass c n (emit ev s3) = hasClass c n s3) as Hfinal.
  { intros c n ev. apply hasClass_nodes. by destruct s3. }
  assert (forall ev, isImageError (emit ev s3) = isImageError s3 /\
                     isImageLoaded (emit ev s3) = isImageLoaded s3 /\
                     requests (emit ev s3) = requests s3) as Hemit
    by (intros ev; by destruct s3).
  match goal with |- context [emit ?ev s3] => destruct (Hemit ev) as (He4 & Hl4 & Hr4) end.
  split_and!.
  - congruence.
  - congruence.
  - change (log (onerror rq s0)
            = DispatchEvent (lit "image-error") (req_src rq) true true :: log s).
    rewrite onerror_log. by destruct s.
  - congruence.
  - intros layer Hl. rewrite Hfinal. subst s3. apply hasClass_add_if_mono.
    subst s2. rewrite Hroot1, Hl. cbn [classList_add_if]. apply hasClass_add.
    rewrite Hn1. apply Hlayers. unfold layers. rewrite Hl.
    destruct (backdropLayer (root s)), (blurhashLayer (root s)), (imageLayer (root s));
      cbn; set_solver.
  - intros layer Hl. rewrite Hfinal. subst s3. rewrite Hl. cbn [classList_add_if].
    apply hasClass_add. subst s2. apply classList_add_if_nodes. rewrite Hn1.
    by apply Hlayer.
  - intros n.
    assert (nodes (emit (DispatchEvent (lit "image-error") (req_src rq) true true) s3)
            = nodes s3) as -> by by destruct s3.
    subst s3 s2. rewrite !srcAttr_add_if. by rewrite Hn1.
Qed.

(** ** More on the element: what causes its effects *)

Section EffectFacts.
Context `{Number}.
Local Arguments generateBlurhashCSS : simpl never.
Local Arguments lit : simpl never.

Lemma intersectionEntry_effects s isIntersecting :
  let s' := intersectionEntry s isIntersecting in
  isImageLoaded s' = isImageLoaded s /\ isImageError s' = isImageError s /\
  exists new, log s' = new ++ log s /\
    Forall (fun ef => isDispatch ef = false) new /\ (Finished s -> Idle new).
Proof.
  unfold Finished, intersectionEntry, handleViewportEntry, handleViewportExit,
    loadImage, clearTimeout, removeDebugIndicator, addDebugIndicator,
    classList_add_if, classList_add, classList_remove, fresh, emit.
  destruct s. branches; split_and!; try done.
  all: first [ by (exists []; split_and!; [done | constructor | constructor])
             | (eexists [_]; split_and!; [done | by repeat constructor |]) ].
  all: cbn in *; try (intros; by repeat constructor).
  all: intros Hf; rewrite ?orb_true_iff in *; naive_solver.
Qed.

Lemma intersection_effects entries : forall s,
  let s' := foldl intersectionEntry s entries in
  isImageLoaded s' = isImageLoaded s /\ isImageError s' = isImageError s /\
  exists new, log s' = new ++ log s /\
    Forall (fun ef => isDispatch ef = false) new /\ (Finished s -> Idle new).
Proof.
  induction entries as [|b entries IH]; intros s; cbn [foldl].
  - split_and!; try done. exists []. split_and!; [done | constructor | constructor].
  - destruct (IH (intersectionEntry s b)) as (Hl2 & He2 & new2 & Hlog2 & Hd2 & Hi2).
    destruct (intersectionEntry_effects s b) as (Hl1 & He1 & new1 & Hlog1 & Hd1 & Hi1).
    cbv zeta. split_and!; [congruence | congruence |].
    exists (new2 ++ new1). rewrite Hlog2, Hlog1, (assoc_L (++)).
    split_and!; [done | by apply Forall_app |].
    intros Hf. apply Forall_app. split; [|by apply Hi1].
    apply Hi2. unfold Finished in *. by rewrite Hl1, He1.
Qed.

Lemma timeout_effects s :
  let s' := loadingTimerCallback s in
  isImageLoaded s' = isImageLoaded s /\ isImageError s' = isImageError s /\
  exists new, log s' = new ++ log s /\
    Forall (fun ef => isDispatch ef = false) new /\ (Finished s -> Idle new).
Proof.
  unfold Finished, loadingTimerCallback, loadImage, removeDebugIndicator,
    classList_remove, fresh, emit.
  destruct s. branches; split_and!; try done.
  all: first [ by (exists []; split_and!; [done | constructor | constructor])
             | (eexists [_]; split_and!; [done | by repeat constructor |]) ].
  all: cbn in *; intros Hf; rewrite ?orb_true_iff, ?orb_false_iff in *; naive_solver.
Qed.

Lemma onload_flags rq s : isImageLoaded (onload rq s) = true.
Proof.
  destruct s. unfold onload, classList_add_if, classList_add, emit. branches; done.
Qed.

Lemma onerror_flags rq s : isImageError (onerror rq s) = true.
Proof.
  destruct s. unfold onerror, classList_add_if, classList_add, emit. branches; done.
Qed.

Lemma disconnectedCallback_flags s :
  isImageLoaded (disconnectedCallback s) = isImageLoaded s /\
  isImageError (disconnectedCallback s) = isImageError s.
Proof.
  destruct s. unfold disconnectedCallback, cleanupTimer, cleanupObserver, clearTimeout, emit.
  branches; done.
Qed.

Lemma Silent_effects new :
  Silent new -> Forall (fun ef => isDispatch ef = false) new /\ NoFetch new.
Proof.
  intros Hs. split; (eapply Forall_impl; [exact Hs | naive_solver]).
Qed.

Lemma setupIntersectionObserver_idle s :
  exists new, log (setupIntersectionObserver s) = new ++ log s /\ Silent new /\ Idle new.
Proof.
  destruct s. unfold setupIntersectionObserver, cleanupObserver, fresh, emit.
  branches.
  - eexists [_; _]. split; [done|]. split; repeat constructor.
  - eexists [_]. split; [done|]. split; repeat constructor.
Qed.

Lemma disconnectedCallback_idle s :
  exists new, log (disconnectedCallback s) = new ++ log s /\ Silent new /\ Idle new.
Proof.
  destruct s. unfold disconnectedCallback, cleanupTimer, cleanupObserver, clearTimeout, emit.
  branches.
  all: first [ by (exists []; split_and!; [done | constructor | constructor])
             | by (eexists [_]; split_and!; [done | repeat constructor | repeat constructor])
             | by (eexists [_; _]; split_and!; [done | repeat constructor | repeat constructor]) ].
Qed.

Lemma attributeChangedCallback_idle property oldValue newValue s :
  exists new, log (attributeChangedCallback property oldValue newValue s) = new ++ log s /\
    Silent new /\ Idle new.
Proof.
  unfold attributeChangedCallback. destruct (negb _).
  - set (s1 := set_loadStartTime None
                 (set_isImageError false (set_isImageLoaded false s))).
    assert (log s1 = log s) as Hlog by by destruct s.
    destruct (render_frame s1) as (_ & _ & Hlog' & _).
    destruct (_ || _).
    + exists []. split_and!; [cbn; congruence | constructor | constructor].
    + destruct (setupIntersectionObserver_idle (render s1)) as (new & Hnew & Hs & Hi).
      exists new. split_and!; [congruence | done | done].
  - exists []. split_and!; [done | constructor | constructor].
Qed.

(** What one step adds to the log, by the kind of the event and by the
    flags of the instance. *)
Lemma step_effects s e :
  exists new, log (step s e) = new ++ log s /\
    (isCompletion e = false -> Forall (fun ef => isDispatch ef = false) new) /\
    (isTrigger e = false -> NoFetch new) /\
    (Finished s -> Idle new) /\
    (isAttributeChange e = false -> Finished s -> Finished (step s e)).
Proof.
  destruct e as [| |name value|name|o entries|t|r|r|ms]; cbn [step isCompletion isTrigger
    isAttributeChange].
  - unfold connectedCallback.
    destruct (render_frame s) as (_ & _ & Hlog & _ & _ & Hl & He & _).
    destruct (setupIntersectionObserver_frame (render s)) as (_ & _ & _ & _ & Hl' & He' & _).
    destruct (setupIntersectionObserver_idle (render s)) as (new & Hnew & Hs & Hi).
    exists new. split; [congruence|]. destruct (Silent_effects _ Hs).
    split_and!; try done. intros _. unfold Finished. by rewrite Hl', He', Hl, He.
  - destruct (disconnectedCallback_idle s) as (new & Hnew & Hs & Hi).
    destruct (disconnectedCallback_flags s) as [Hl He].
    exists new. split; [done|]. destruct (Silent_effects _ Hs).
    split_and!; try done. intros _. unfold Finished. by rewrite Hl, He.
  - unfold changeAttribute. set (s1 := set_attributes _ s).
    assert (log s1 = log s) as Hlog by by destruct s.
    destruct (bool_decide _).
    + destruct (attributeChangedCallback_idle name (getAttribute name s) (Some value) s1)
        as (new & Hnew & Hs & Hi).
      exists new. split; [congruence|]. destruct (Silent_effects _ Hs). done.
    + exists []. split; [done|]. split_and!; try done; intros; constructor.
  - unfold changeAttribute. set (s1 := set_attributes _ s).
    assert (log s1 = log s) as Hlog by by destruct s.
    destruct (bool_decide _).
    + destruct (attributeChangedCallback_idle name (getAttribute name s) None s1)
        as (new & Hnew & Hs & Hi).
      exists new. split; [congruence|]. destruct (Silent_effects _ Hs). done.
    + exists []. split; [done|]. split_and!; try done; intros; constructor.
  - destruct (bool_decide _).
    + destruct (intersection_effects entries s) as (Hl & He & new & Hnew & Hd & Hi).
      exists new. split; [done|]. split_and!; try done.
      intros _. unfold Finished. by rewrite Hl, He.
    + exists []. split; [done|]. split_and!; try done; intros; constructor.
  - destruct (bool_decide _).
    + set (s1 := set_timers (timers s ∖ {[t]}) s).
      assert (log s1 = log s /\ isImageLoaded s1 = isImageLoaded s /\
              isImageError s1 = isImageError s) as (Hlog & Hl1 & He1) by by destruct s.
      destruct (timeout_effects s1) as (Hl & He & new & Hnew & Hd & Hi).
      exists new. split; [congruence|]. unfold Finished in *.
      rewrite Hl1, He1 in Hi. split_and!; try done.
      intros _. by rewrite Hl, He, Hl1, He1.
    + exists []. split; [done|]. split_and!; try done; intros; constructor.
  - destruct (requests s !! r) as [rq|].
    + rewrite onload_log. eexists [_]. split; [by destruct s|].
      split_and!; try done.
      * intros _. repeat constructor.
      * intros _. repeat constructor.
      * intros _ _. unfold Finished. by rewrite onload_flags.
    + exists []. split; [done|]. split_and!; try done; intros; constructor.
  - destruct (requests s !! r) as [rq|].
    + rewrite onerror_log. eexists [_]. split; [by destruct s|].
      split_and!; try done.
      * intros _. repeat constructor.
      * intros _. repeat constructor.
      * intros _ _. unfold Finished. rewrite onerror_flags. apply orb_true_r.
    + exists []. split; [done|]. split_and!; try done; intros; constructor.
  - exists []. split; [by destruct s|]. split_and!; try done; try (intros; constructor).
    intros _. by destruct s.
Qed.

End EffectFacts.

(** X19. Every effect has its cause: whatever the state, events are
    dispatched only when a request completes, and a fetch is initiated only
    when the observer notifies the element or a timeout runs; connecting,
    disconnecting, rendering and attribute changes never do either. *)
Theorem effects_have_causes `{Number} (s : state) (events : list event) :
  exists new,
    log (run s events) = new ++ log s /\
    (Forall (fun e => isCompletion e = false) events ->
       Forall (fun ef => isDispatch ef = false) new) /\
    (Forall (fun e => isTrigger e = false) events -> NoFetch new).
Proof.
  revert s. induction events as [|e events IH]; intros s.
  - exists []. split_and!; [done | constructor | constructor].
  - change (run s (e :: events)) with (run (step s e) events).
    destruct (IH (step s e)) as (new2 & Hlog2 & Hd2 & Hf2).
    destruct (step_effects s e) as (new1 & Hlog1 & Hd1 & Hf1 & _).
    exists (new2 ++ new1). rewrite Hlog2, Hlog1, (assoc_L (++)). split; [done|].
    split; intros [He Hall]%Forall_cons.
    + apply Forall_app. split; [by apply Hd2 | by apply Hd1].
    + apply NoFetch_app. split; [by apply Hf2 | by apply Hf1].
Qed.

(** X20. Once the image has loaded or failed, the element neither fetches
    nor arms a timeout again, whatever the viewport does, until an attribute
    changes; and it stays loaded or failed. *)
Theorem no_refetch_once_finished `{Number} (s : state) (events : list event) :
  Finished s -> Forall (fun e => isAttributeChange e = false) events ->
  Finished (run s events) /\
  exists new, log (run s events) = new ++ log s /\ Idle new.
Proof.
  revert s. induction events as [|e events IH]; intros s Hs Hall.
  - split; [done|]. exists []. split; [done | constructor].
  - change (run s (e :: events)) with (run (step s e) events).
    apply Forall_cons in Hall as [He Hall].
    destruct (step_effects s e) as (new1 & Hlog1 & _ & _ & Hi1 & Hf1).
    destruct (IH (step s e) (Hf1 He Hs) Hall) as (Hf & new2 & Hlog2 & Hi2).
    split; [done|]. exists (new2 ++ new1). rewrite Hlog2, Hlog1, (assoc_L (++)).
    split; [done|]. apply Forall_app. split; [done | by apply Hi1].
Qed.

Lemma no_refetch_once_finished_witness :
  let s := run (H := F64) initial
             [SetAttribute (lit "src") (lit "a.png"); Connected;
              Intersection 4 [true]; Load 5] in
  let events := [Intersection 4 [false]; Intersection 4 [true]; Timeout 1; Disconnected;
                 Connected; Intersection 7 [true]] in
  Finished (run (H := F64) s events) /\
  exists new, log (run (H := F64) s events) = new ++ log s /\ Idle new.
Proof.
  apply (no_refetch_once_finished (H := F64)).
  - reflexivity.
  - repeat constructor.
Defined.

(** ** More on the element: the tree *)

Section TreeFacts.
Context `{Number}.
Local Arguments generateBlurhashCSS : simpl never.
Local Arguments lit : simpl never.

Section Keeping.
Context {A : Type} (f : node -> A) (Hf : ignoresClasses f).

Lemma Keeps_refl s : Keeps f s s.
Proof. by intros n. Qed.

Lemma Keeps_trans s1 s2 s3 : Keeps f s1 s2 -> Keeps f s2 s3 -> Keeps f s1 s3.
Proof. intros H12 H23 n. by rewrite H23, H12. Qed.

Lemma Keeps_nodes s s' : nodes s' = nodes s -> Keeps f s s'.
Proof. intros Hn n. by rewrite Hn. Qed.

Lemma classList_add_keeps c s n : Keeps f s (classList_add c s n).
Proof.
  intros m. destruct s. unfold classList_add. cbn.
  destruct (decide (n = m)) as [->|Hne].
  - rewrite lookup_alter_eq. destruct (nodes0 !! m) as [nd|]; [|done]. cbn.
    destruct (bool_decide _); [done|]. by rewrite Hf.
  - by rewrite lookup_alter_ne.
Qed.

Lemma classList_remove_keeps c s n : Keeps f s (classList_remove c s n).
Proof.
  intros m. destruct s. unfold classList_remove. cbn.
  destruct (decide (n = m)) as [->|Hne].
  - rewrite lookup_alter_eq. destruct (nodes0 !! m) as [nd|]; [|done]. cbn.
    by rewrite Hf.
  - by rewrite lookup_alter_ne.
Qed.

Lemma classList_add_if_keeps c layer s : Keeps f s (classList_add_if c layer s).
Proof. destruct layer; [apply classList_add_keeps | apply Keeps_refl]. Qed.

Lemma removeDebugIndicator_keeps s : Keeps f s (removeDebugIndicator s).
Proof.
  unfold removeDebugIndicator.
  destruct (blurhashLayer (root s)); [apply classList_remove_keeps | apply Keeps_refl].
Qed.

Lemma loadImage_nodes s : nodes (loadImage s) = nodes s.
Proof. destruct s. unfold loadImage, fresh, emit. branches; done. Qed.

Lemma intersectionEntry_keeps s b : Keeps f s (intersectionEntry s b).
Proof.
  unfold intersectionEntry.
  destruct (b && negb (isInViewport s)).
  - unfold handleViewportEntry.
    set (s1 := set_isInViewport true s).
    assert (nodes s1 = nodes s) as Hn1 by by destruct s.
    apply (Keeps_trans _ s1); [by apply Keeps_nodes|].
    destruct (_ || _); [apply Keeps_refl|]. destruct (bool_decide _).
    + unfold addDebugIndicator.
      eapply Keeps_trans; [apply (classList_add_if_keeps (lit "debug-loading") (blurhashLayer (root s1)))|].
      apply Keeps_nodes. by destruct (classList_add_if _ _ s1).
    + apply Keeps_nodes, loadImage_nodes.
  - destruct (negb b && isInViewport s); [|apply Keeps_refl].
    unfold handleViewportExit.
    set (s1 := set_isInViewport false s).
    assert (nodes s1 = nodes s) as Hn1 by by destruct s.
    apply (Keeps_trans _ s1); [by apply Keeps_nodes|].
    destruct (loadingTimer s1) as [t|]; [|apply Keeps_refl].
    destruct (negb _); [|apply Keeps_refl].
    eapply Keeps_trans; [|apply removeDebugIndicator_keeps].
    apply Keeps_nodes. by destruct s1.
Qed.

Lemma intersection_keeps entries : forall s, Keeps f s (foldl intersectionEntry s entries).
Proof.
  induction entries as [|b entries IH]; intros s; cbn [foldl]; [apply Keeps_refl|].
  eapply Keeps_trans; [apply intersectionEntry_keeps | apply IH].
Qed.

Lemma onerror_keeps rq s : Keeps f s (onerror rq s).
Proof.
  unfold onerror.
  set (s1 := set_isImageError true s).
  assert (nodes s1 = nodes s) as Hn1 by by destruct s.
  apply (Keeps_trans _ s1); [by apply Keeps_nodes|].
  eapply Keeps_trans; [apply (classList_add_if_keeps (lit "visible") (errorLayer (root s1)))|].
  eapply Keeps_trans; [apply (classList_add_if_keeps (lit "fade-out") (req_blurhashLayer rq))|].
  apply Keeps_nodes. by destruct (classList_add_if _ _ _).
Qed.

(** Every step but a rendering one and a successful load. *)
Lemma step_keeps s e :
  match e with
  | Connected | SetAttribute _ _ | RemoveAttribute _ | Load _ => True
  | _ => Keeps f s (step s e) /\ root (step s e) = root s /\
         attributes (step s e) = attributes s
  end.
Proof.
  destruct e as [| |name value|name|o entries|t|r|r|ms]; cbn [step]; try done.
  - split; [apply Keeps_nodes|]; destruct s;
      unfold disconnectedCallback, cleanupTimer, cleanupObserver, clearTimeout, emit;
      branches; done.
  - destruct (bool_decide _); [|split; [apply Keeps_refl | done]].
    split; [apply intersection_keeps|].
    apply (foldl_invariant _ (fun s' => root s' = root s /\ attributes s' = attributes s));
      [|done].
    intros a b [<- <-]. destruct a.
    unfold intersectionEntry, handleViewportEntry, handleViewportExit,
      loadImage, clearTimeout, removeDebugIndicator, addDebugIndicator,
      classList_add_if, classList_add, classList_remove, fresh, emit.
    branches; done.
  - destruct (bool_decide _); [|split; [apply Keeps_refl | done]].
    unfold loadingTimerCallback. split.
    + eapply Keeps_trans; [|apply removeDebugIndicator_keeps].
      apply Keeps_nodes. rewrite loadImage_nodes. by destruct s.
    + destruct s. unfold loadImage, removeDebugIndicator, classList_remove, fresh, emit.
      branches; done.
  - destruct (requests s !! r) as [rq|]; [|split; [apply Keeps_refl | done]]. split.
    + eapply Keeps_trans; [|apply onerror_keeps]. apply Keeps_nodes. by destruct s.
    + destruct s. unfold onerror, classList_add_if, classList_add, emit. branches; done.
  - split; [apply Keeps_nodes|]; by destruct s.
Qed.

End Keeping.

Lemma onload_keeps {A} (f : node -> A) rq s :
  ignoresClasses f ->
  (forall nd src, f (Node (classList nd) src (altAttr nd) (dataSrc nd)) = f nd) ->
  Keeps f s (onload rq s) /\ root (onload rq s) = root s /\
  attributes (onload rq s) = attributes s.
Proof.
  intros Hf Hsrc. rewrite onload_unfold. split.
  - match goal with |- context [setSrc _ _ ?x] => set (s1 := x) end.
    assert (Keeps f s s1) as H1.
    { subst s1. destruct (_ && _); [by apply classList_add_keeps | apply Keeps_refl]. }
    apply (Keeps_trans _ _ s1); [done|].
    assert (Keeps f s1 (setSrc (req_src rq) (req_imageLayer rq) s1)) as H2.
    { intros m. destruct s1. unfold setSrc. cbn.
      destruct (decide (req_imageLayer rq = m)) as [->|Hne].
      - rewrite lookup_alter_eq. destruct (nodes0 !! m) as [nd|]; [|done]. cbn.
        by rewrite Hsrc.
      - by rewrite lookup_alter_ne. }
    set (s2 := setSrc (req_src rq) (req_imageLayer rq) s1) in *.
    set (s3 := classList_add (lit "loaded") s2 (req_imageLayer rq)).
    set (s4 := classList_add_if (lit "fade-out") (req_blurhashLayer rq) s3).
    apply (Keeps_trans _ _ s2); [done|].
    apply (Keeps_trans _ _ s3); [by apply classList_add_keeps|].
    apply (Keeps_trans _ _ s4); [by apply classList_add_if_keeps|].
    apply Keeps_nodes. by destruct s4.
  - destruct s. unfold setSrc, classList_add_if, classList_add, emit. branches; done.
Qed.

(** What [render] leaves in the tree. *)
Lemma render_rendered s : Rendered (render s).
Proof.
  unfold Rendered. destruct (render_frame s) as (_ & _ & _ & _ & _ & _ & _ & _ & _ & _ & Ha & _).
  unfold getAttribute. rewrite Ha.
  destruct s. unfold render, createImage, createDiv, createNode, fresh, getAttribute.
  cbn [AxBlurest.attributes AxBlurest.next].
  destruct (truthy (attributes0 !! lit "src-width") && truthy (attributes0 !! lit "src-height")
            && truthy (attributes0 !! lit "blurhash")) eqn:Hc; cbn [negb].
  - destruct (truthy (attributes0 !! lit "src")) eqn:Hsrc; cbn.
    + split; [|by eauto 10]. split; [done|].
      rewrite lookup_insert_ne by lia. rewrite lookup_insert_eq.
      eexists. split; [done|]. cbn. split; [done|].
      by destruct (attributes0 !! lit "alt") as [[|]|].
    + split; [done | by eauto 10].
  - destruct (truthy (attributes0 !! lit "src")) eqn:Hsrc; cbn.
    + split; [|done]. split; [done|]. rewrite lookup_insert_eq.
      eexists. split; [done|]. cbn. split; [done|].
      by destruct (attributes0 !! lit "alt") as [[|]|].
    + done.
Qed.

Lemma Rendered_frame s s' :
  Keeps (fun nd => (dataSrc nd, altAttr nd)) s s' -> root s' = root s ->
  (forall name, name ∈ observedAttributes -> getAttribute name s' = getAttribute name s) ->
  Rendered s -> Rendered s'.
Proof.
  intros Hk Hr Ha. unfold Rendered. rewrite Hr.
  rewrite !Ha by (unfold observedAttributes; rewrite !elem_of_cons; tauto).
  intros [Himg Hrest]. split; [|done].
  destruct (imageLayer (root s)) as [n|]; [|done].
  destruct Himg as (Hsrc & nd & Hnd & Hd & Halt). split; [done|].
  specialize (Hk n). rewrite Hnd in Hk. destruct (nodes s' !! n) as [nd'|]; [|done].
  injection Hk as Hd' Halt'. exists nd'. split; [done|]. split; congruence.
Qed.

Lemma pair_ignoresClasses : ignoresClasses (fun nd => (dataSrc nd, altAttr nd)).
Proof. by intros nd classes. Qed.

Lemma setupIntersectionObserver_tree s :
  nodes (setupIntersectionObserver s) = nodes s /\
  root (setupIntersectionObserver s) = root s /\
  attributes (setupIntersectionObserver s) = attributes s.
Proof.
  destruct s. unfold setupIntersectionObserver, cleanupObserver, fresh, emit. branches; done.
Qed.

Lemma setupIntersectionObserver_rendered s :
  Rendered s -> Rendered (setupIntersectionObserver s).
Proof.
  destruct (setupIntersectionObserver_tree s) as (Hn & Hr & Ha).
  apply Rendered_frame; [by apply Keeps_nodes | done |].
  intros name _. unfold getAttribute. by rewrite Ha.
Qed.

Lemma changeAttribute_rendered name newValue s :
  Rendered s -> Rendered (changeAttribute name newValue s).
Proof.
  intros Hs. unfold changeAttribute.
  set (s1 := set_attributes _ s).
  assert (nodes s1 = nodes s /\ root s1 = root s) as [Hn1 Hr1] by by destruct s.
  destruct (bool_decide_reflect (name ∈ observedAttributes)) as [Hobs|Hobs].
  - unfold attributeChangedCallback.
    destruct (bool_decide_reflect (getAttribute name s = newValue)) as [Heq|Hne]; cbn [negb].
    + apply (Rendered_frame s); [by apply Keeps_nodes | done | | done].
      intros k _. subst s1. unfold getAttribute in *. destruct s. cbn in *.
      destruct newValue as [v|].
      * destruct (decide (name = k)) as [->|]; [by rewrite lookup_insert_eq|].
        by rewrite lookup_insert_ne.
      * destruct (decide (name = k)) as [->|]; [by rewrite lookup_delete_eq|].
        by rewrite lookup_delete_ne.
    + destruct (_ || _); [apply render_rendered|].
      apply setupIntersectionObserver_rendered, render_rendered.
  - apply (Rendered_frame s); [by apply Keeps_nodes | done | | done].
    intros k Hk. subst s1. unfold getAttribute. destruct s. cbn.
    assert (name <> k) by congruence.
    destruct newValue; [by rewrite lookup_insert_ne | by rewrite lookup_delete_ne].
Qed.

Lemma step_rendered s e : Rendered s -> Rendered (step s e).
Proof.
  intros Hs.
  pose proof (step_keeps _ pair_ignoresClasses s e) as Hk.
  destruct e as [| |name value|name|o entries|t|r|r|ms]; cbn [step] in Hk |- *.
  - apply setupIntersectionObserver_rendered, render_rendered.
  - destruct Hk as (? & ? & Ha). eapply Rendered_frame; [done | done | | done].
    intros k _. unfold getAttribute. by rewrite Ha.
  - by apply changeAttribute_rendered.
  - by apply changeAttribute_rendered.
  - destruct Hk as (? & ? & Ha). eapply Rendered_frame; [done | done | | done].
    intros k _. unfold getAttribute. by rewrite Ha.
  - destruct Hk as (? & ? & Ha). eapply Rendered_frame; [done | done | | done].
    intros k _. unfold getAttribute. by rewrite Ha.
  - destruct (requests s !! r) as [rq|]; [|done].
    set (s0 := set_requests _ s).
    assert (nodes s0 = nodes s /\ root s0 = root s /\ attributes s0 = attributes s)
      as (Hn0 & Hr0 & Ha0) by by destruct s.
    destruct (onload_keeps (fun nd => (dataSrc nd, altAttr nd)) rq s0) as (Hk' & Hr' & Ha');
      [apply pair_ignoresClasses | done |].
    apply (Rendered_frame s); [| congruence | | done].
    + eapply Keeps_trans; [by apply Keeps_nodes | done].
    + intros k _. unfold getAttribute. by rewrite Ha', Ha0.
  - destruct Hk as (? & ? & Ha). eapply Rendered_frame; [done | done | | done].
    intros k _. unfold getAttribute. by rewrite Ha.
  - destruct Hk as (? & ? & Ha). eapply Rendered_frame; [done | done | | done].
    intros k _. unfold getAttribute. by rewrite Ha.
Qed.


(** The sources of the elements: empty on creation. *)
Lemma render_sources s n nd :
  nodes (render s) !! n = Some nd -> srcAttr nd = [] \/ nodes s !! n = Some nd.
Proof.
  destruct s. unfold render, createImage, createDiv, createNode, fresh, getAttribute.
  branches.
  all: repeat (rewrite lookup_insert; case_decide; [intros [= <-]; by left|]).
  all: by right.
Qed.

End TreeFacts.

Lemma run_rendered `{Number} (events : list event) (s : state) :
  Rendered s -> Rendered (run s events).
Proof.
  unfold run. apply foldl_invariant. intros s' e. apply step_rendered.
Qed.

(** X21. Whatever the host does to a new element, as long as the values it
    gives to [src] and [alt] are plain (no double quote, ampersand, [<],
    U+0000, carriage return or surrogate, so that the parser reads them back
    from the markup unchanged) and those it gives to [render-width] are made
    of ASCII digits, letters and dots, its shadow tree shows its attributes
    as they are now: there is an image layer exactly when [src] is
    non-empty, and it holds that source as [data-src] and the [alt] text;
    there are placeholder layers, styled from the current [blurhash] and
    aspect ratio, exactly when [src-width], [src-height] and [blurhash] are
    all non-empty. *)
Theorem tree_reflects_attributes `{Number} (events : list event) :
  Forall plainEvent events -> Rendered (run initial events).
Proof. intros _. apply run_rendered. unfold Rendered. cbn. done. Qed.

Lemma tree_reflects_attributes_witness :
  Rendered (H := F64)
    (run (H := F64) initial
       [SetAttribute (lit "src") (lit "a.png"); SetAttribute (lit "alt") (lit "a photo");
        SetAttribute (lit "render-width") (lit "300");
        Connected; Intersection 5 [true]; RemoveAttribute (lit "alt")]).
Proof.
  apply (tree_reflects_attributes (H := F64)).
  repeat constructor; intros Hname;
    first [vm_compute; reflexivity | vm_compute in Hname; discriminate Hname].
Defined.

Section SourceFacts.
Context `{Number}.

Lemma srcAttr_ignoresClasses : ignoresClasses srcAttr.
Proof. by intros nd classes. Qed.

Lemma step_sources s e :
  isLoad e = false ->
  (forall n nd, nodes s !! n = Some nd -> srcAttr nd = []) ->
  forall n nd, nodes (step s e) !! n = Some nd -> srcAttr nd = [].
Proof.
  intros He Hs n nd.
  assert (forall s', Keeps srcAttr s s' -> nodes s' !! n = Some nd -> srcAttr nd = [])
    as Hkept.
  { intros s' Hk Hn. specialize (Hk n). rewrite Hn in Hk.
    destruct (nodes s !! n) as [nd0|] eqn:E; [|done].
    injection Hk as ->. by eapply Hs. }
  assert (forall s0, nodes s0 = nodes s -> nodes (render s0) !! n = Some nd ->
            srcAttr nd = []) as Hrender.
  { intros s0 H0 Hn. destruct (render_sources s0 n nd Hn) as [|Hold]; [done|].
    rewrite H0 in Hold. by eapply Hs. }
  pose proof (step_keeps _ srcAttr_ignoresClasses s e) as Hk.
  destruct e as [| |name value|name|o entries|t|r|r|ms]; cbn [step] in Hk |- *;
    try (destruct Hk as (Hk & _); by apply Hkept); try done.
  - unfold connectedCallback.
    destruct (setupIntersectionObserver_tree (render s)) as (-> & _). by apply Hrender.
  - unfold changeAttribute, attributeChangedCallback.
    set (s1 := set_attributes _ s).
    assert (nodes s1 = nodes s) as Hn1 by by destruct s.
    destruct (bool_decide _); [|rewrite Hn1; apply Hs].
    destruct (negb _); [|rewrite Hn1; apply Hs].
    set (s2 := set_loadStartTime _ _).
    assert (nodes s2 = nodes s) as Hn2 by by destruct s.
    destruct (_ || _); [by apply Hrender|].
    destruct (setupIntersectionObserver_tree (render s2)) as (-> & _). by apply Hrender.
  - unfold changeAttribute, attributeChangedCallback.
    set (s1 := set_attributes _ s).
    assert (nodes s1 = nodes s) as Hn1 by by destruct s.
    destruct (bool_decide _); [|rewrite Hn1; apply Hs].
    destruct (negb _); [|rewrite Hn1; apply Hs].
    set (s2 := set_loadStartTime _ _).
    assert (nodes s2 = nodes s) as Hn2 by by destruct s.
    destruct (_ || _); [by apply Hrender|].
    destruct (setupIntersectionObserver_tree (render s2)) as (-> & _). by apply Hrender.
Qed.


End SourceFacts.

(** X22. The image layer shows nothing before a load succeeds: as long as
    no request has completed successfully, and the values given to [src] and
    [alt] are plain (no double quote, ampersand, [<], U+0000, carriage
    return or surrogate) and those given to [render-width] are made of ASCII
    digits, letters and dots, the [src] of every element of the tree is
    empty, whatever else has happened. *)
Theorem image_hidden_until_loaded `{Number} (events : list event) :
  Forall (fun e => isLoad e = false) events -> Forall plainEvent events ->
  forall n nd, nodes (run initial events) !! n = Some nd -> srcAttr nd = [].
Proof.
  intros Hall _.
  assert (forall s, (forall n nd, nodes s !! n = Some nd -> srcAttr nd = []) ->
            forall n nd, nodes (run s events) !! n = Some nd -> srcAttr nd = []) as Hrun.
  { induction Hall as [|e events He _ IH]; intros s Hs; [done|].
    change (run s (e :: events)) with (run (step s e) events).
    apply IH. by apply step_sources. }
  apply Hrun. intros n nd. cbn. by rewrite lookup_empty.
Qed.

Lemma image_hidden_until_loaded_witness :
  let events := [SetAttribute (lit "src") (lit "a.png"); Connected;
                 Intersection 4 [true]; Failure 5] in
  srcAttr <$> nodes (run (H := F64) initial events) !! 3%positive = Some [].
Proof.
  intros events.
  destruct (nodes (run (H := F64) initial events) !! 3%positive) as [nd|] eqn:E;
    [|exfalso; revert E; vm_compute; discriminate].
  cbn. f_equal.
  apply (image_hidden_until_loaded (H := F64) events ltac:(repeat constructor)
           ltac:(repeat constructor; intros Hname;
                 first [vm_compute; reflexivity
                       | vm_compute in Hname; discriminate Hname])
           3%positive nd E).
Defined.



Lemma load_failure_outcome_witness :
  let s := run (H := F64) initial
             [SetAttribute (lit "src-width") (lit "4");
              SetAttribute (lit "src-height") (lit "3");
              SetAttribute (lit "blurhash") (lit "x");
              SetAttribute (lit "src") (lit "a.png");
              Connected; Elapse 1000; Intersection 16 [true]; Elapse 50] in
  let rq := Request 14 (Some 13%positive) (lit "a.png") in
  let s' := step (H := F64) s (Failure 17) in
  isImageError s' = true /\ isImageLoaded s' = isImageLoaded s /\
  log s' = DispatchEvent (lit "image-error") (req_src rq) true true :: log s /\
  requests s' = delete 17%positive (requests s) /\
  (forall layer, errorLayer (root s) = Some layer ->
     hasClass (lit "visible") layer s' = true) /\
  (forall layer, req_blurhashLayer rq = Some layer ->
     hasClass (lit "fade-out") layer s' = true) /\
  (forall n, srcAttr <$> nodes s' !! n = srcAttr <$> nodes s !! n).
Proof.
  apply (load_failure_outcome (H := F64)).
  - apply run_preserves, initial_coherent.
  - reflexivity.
Defined.
